(** * image-organizer: a shallow embedding of [src/image-organizer.js]

    The script walks a source tree, reads the EXIF block of every picture,
    resolves a capture date and the nearest city, optionally asks an LLM for
    keywords, and copies the picture to [dest/YYYY/MM/DD[-City-CC]/name].

    Conventions of the embedding:
    - a JS string is a [string]; a character stands for one UTF-16 code unit
      below 256 (Latin-1), which covers every character the script itself
      inspects (separators, dots, digits, white space);
    - a JS number is a binary64 [float] (Rocq's primitive floats);
    - a Node [Buffer] is a [list Z] of byte values;
    - effects (file system, HTTP, ffprobe, console) are threaded through a
      state-and-exception monad [M]; every effect leaves an [Event] in the
      trace, in program order;
    - library calls the script does not define (piexifjs, [Number],
      [parseFloat], base64, [path.relative]) are fields of the [Platform]
      class, so every theorem holds for any behaviour of these libraries. *)

From Stdlib Require Import ZArith List Ascii String Floats Lia Permutation.
From stdpp Require Import base decidable option list gmap strings pretty sorting.

Local Open Scope string_scope.
Local Open Scope Z_scope.

(** ** JavaScript strings *)

Module JSString.

Definition code (c : ascii) : N := N_of_ascii c.

(** [WhiteSpace] and [LineTerminator] code units below 256: TAB, LF, VT, FF,
    CR, SP, NBSP.  Both [String.prototype.trim] and the regexp class [\s]
    use this set. *)
Definition isWhiteSpace (c : ascii) : bool :=
  let n := code c in
  ((9 <=? n) && (n <=? 13) || (n =? 32) || (n =? 160))%N.

(** [toLowerCase] on one code unit: A-Z, and the Latin-1 capitals
    U+00C0..U+00DE except the multiplication sign U+00D7. *)
Definition lowerChar (c : ascii) : ascii :=
  let n := code c in
  if ((65 <=? n) && (n <=? 90) || (192 <=? n) && (n <=? 222) && negb (n =? 215))%N
  then ascii_of_N (n + 32) else c.

Fixpoint toLowerCase (s : string) : string :=
  match s with
  | EmptyString => EmptyString
  | String c s' => String (lowerChar c) (toLowerCase s')
  end.

Fixpoint trimStart (s : string) : string :=
  match s with
  | EmptyString => EmptyString
  | String c s' => if isWhiteSpace c then trimStart s' else s
  end.

Definition trimEnd (s : string) : string :=
  String.rev (trimStart (String.rev s)).

Definition trim (s : string) : string := trimEnd (trimStart s).

(** [s.split(c)] for a one-character separator: never the empty list. *)
Fixpoint split (c : ascii) (s : string) : list string :=
  match s with
  | EmptyString => [EmptyString]
  | String a s' =>
      if Ascii.eqb a c then EmptyString :: split c s'
      else match split c s' with
           | h :: t => String a h :: t
           | [] => [String a EmptyString]
           end
  end.

(** [l.join(sep)] *)
Fixpoint join (sep : string) (l : list string) : string :=
  match l with
  | [] => EmptyString
  | [x] => x
  | x :: l' => x +:+ sep +:+ join sep l'
  end.

Fixpoint startsWith (s p : string) : bool :=
  match p, s with
  | EmptyString, _ => true
  | String a p', String b s' => Ascii.eqb a b && startsWith s' p'
  | String _ _, EmptyString => false
  end.

Definition endsWith (s p : string) : bool :=
  startsWith (String.rev s) (String.rev p).

Fixpoint repeatChar (n : nat) (c : ascii) : string :=
  match n with
  | O => EmptyString
  | S n' => String c (repeatChar n' c)
  end.

(** [s.padStart(n, c)] for a one-character filler. *)
Definition padStart (n : nat) (c : ascii) (s : string) : string :=
  repeatChar (n - String.length s) c +:+ s.

(** [s.replace(/\s+/g, r)]: every maximal run of white space becomes one
    [r].  [inrun] tells that the previous character was white space. *)
Fixpoint replaceWsRuns (r : string) (inrun : bool) (s : string) : string :=
  match s with
  | EmptyString => EmptyString
  | String c s' =>
      if isWhiteSpace c
      then (if inrun then replaceWsRuns r true s'
            else r +:+ replaceWsRuns r true s')
      else String c (replaceWsRuns r false s')
  end.

(** [l.sort()]: [Array.prototype.sort] without a comparator orders strings
    code unit by code unit, which is [String.le]. *)
Definition sort (l : list string) : list string := merge_sort String.le l.

(** [value ? ... : ...] on a string: the empty string is falsy. *)
Definition truthy (s : string) : bool :=
  match s with EmptyString => false | _ => true end.

(** [Buffer.from(s, 'utf-16le')] then [Array.from]: two bytes per code
    unit, low byte first; the high byte of a code unit below 256 is 0. *)
Fixpoint utf16le (s : string) : list Z :=
  match s with
  | EmptyString => []
  | String c s' => Z.of_N (code c) :: 0 :: utf16le s'
  end.

End JSString.

(** ** Node's [path] module (POSIX flavour) *)

Module Path.

Definition nonEmpty (s : string) : bool := JSString.truthy s.

(** One step of [normalizeString]: [stack] holds the segments kept so far,
    last one first. *)
Definition normStep (allowAboveRoot : bool) (stack : list string)
    (seg : string) : list string :=
  if String.eqb seg "" || String.eqb seg "." then stack
  else if String.eqb seg ".." then
    match stack with
    | top :: rest =>
        if String.eqb top ".." then
          (if allowAboveRoot then ".." :: stack else stack)
        else rest
    | [] => if allowAboveRoot then [".."] else []
    end
  else seg :: stack.

Definition normSegments (allowAboveRoot : bool) (p : string) : list string :=
  rev (fold_left (normStep allowAboveRoot) (JSString.split "/" p) []).

Definition isAbsolute (p : string) : bool := JSString.startsWith p "/".

(** [path.normalize] *)
Definition normalize (p : string) : string :=
  if String.eqb p "" then "." else
  let abs := isAbsolute p in
  let trailing := JSString.endsWith p "/" in
  match normSegments (negb abs) p with
  | [] => if abs then "/" else if trailing then "./" else "."
  | segs =>
      (if abs then "/" else "") +:+ JSString.join "/" segs
      +:+ (if trailing then "/" else "")
  end.

(** [path.join(...args)] *)
Definition join (args : list string) : string :=
  match List.filter nonEmpty args with
  | [] => "."
  | l => normalize (JSString.join "/" l)
  end.

(** [path.basename(p)]: the last segment, trailing separators ignored. *)
Definition basename (p : string) : string :=
  List.last (List.filter nonEmpty (JSString.split "/" p)) "".

(** [path.parse(p).name] and [path.parse(p).ext]: the extension starts at the
    last dot of the base name, unless that dot is its first character or the
    base name is [".."]. *)
Definition splitExt (base : string) : string * string :=
  match rev (JSString.split "." base) with
  | [] | [_] => (base, "")
  | e :: revInit =>
      let stem := JSString.join "." (rev revInit) in
      if String.eqb stem "" || String.eqb base ".." then (base, "")
      else (stem, "." +:+ e)
  end.

Definition parseName (p : string) : string := fst (splitExt (basename p)).
Definition parseExt (p : string) : string := snd (splitExt (basename p)).

(** The proper ancestors of a path, shortest first: the prefixes that end
    just before a separator.  [mkdir -p] creates them on the way. *)
Fixpoint prefixesAtSep (done todo : string) : list string :=
  match todo with
  | EmptyString => []
  | String c rest =>
      (if Ascii.eqb c "/" && nonEmpty done && negb (JSString.endsWith done "/")
       then [done] else [])
      ++ prefixesAtSep (done +:+ String c EmptyString) rest
  end.

Definition ancestors (p : string) : list string := prefixesAtSep "" p.

(** A segment that [normalize] keeps as it is. *)
Definition isPlain (seg : string) : bool :=
  nonEmpty seg
  && negb (String.eqb seg ".") && negb (String.eqb seg "..")
  && forallb (fun c => negb (Ascii.eqb c "/")) (list_ascii_of_string seg).

End Path.

(** ** JavaScript numbers and dates *)

Module JSNumber.

Definition NaN : float := PrimFloat.nan.
Definition Infinity : float := PrimFloat.infinity.

(** The number with the integer value [z] (exact below 2^53 in magnitude,
    which covers EXIF's 32-bit rationals). *)
Definition ofZ (z : Z) : float :=
  if z <? 0 then PrimFloat.opp (PrimFloat.of_uint63 (Uint63.of_Z (- z)))
  else PrimFloat.of_uint63 (Uint63.of_Z z).

(** [ToIntegerOrInfinity] on a finite number (truncation towards zero);
    [None] for NaN and the infinities, which every caller below turns into
    NaN. *)
Definition toInteger (x : float) : option Z :=
  match Prim2SF x with
  | S754_zero _ => Some 0
  | S754_finite neg m e =>
      let v := if 0 <=? e then Z.pos m * 2 ^ e else Z.pos m / 2 ^ (- e) in
      Some (if neg then - v else v)
  | S754_infinity _ | S754_nan => None
  end.

(** [String(n)] for a number that is an integer or NaN. *)
Definition toString (n : option Z) : string :=
  match n with
  | Some z => pretty z
  | None => "NaN"
  end.

End JSNumber.

Module JSDate.

(** A [Date] is its time value, milliseconds since the epoch, or [None] for
    an Invalid Date.  The local time zone is taken to be UTC, so that local
    fields and the time value agree. *)
Definition t : Type := option Z.

Definition msPerDay : Z := 86400000.

(** Days since 1970-01-01 of the proleptic Gregorian date [y]-[m]-[d],
    [m] in 1..12. *)
Definition daysFromCivil (y m d : Z) : Z :=
  let y' := if m <=? 2 then y - 1 else y in
  let era := y' / 400 in
  let yoe := y' - era * 400 in
  let mp := if 2 <? m then m - 3 else m + 9 in
  let doy := (153 * mp + 2) / 5 + d - 1 in
  let doe := yoe * 365 + yoe / 4 - yoe / 100 + doy in
  era * 146097 + doe - 719468.

(** The date (year, month in 1..12, day of month) of a day number. *)
Definition civilFromDays (z : Z) : Z * Z * Z :=
  let z' := z + 719468 in
  let era := z' / 146097 in
  let doe := z' - era * 146097 in
  let yoe := (doe - doe / 1460 + doe / 36524 - doe / 146096) / 365 in
  let doy := doe - (365 * yoe + yoe / 4 - yoe / 100) in
  let mp := (5 * doy + 2) / 153 in
  let d := doy - (153 * mp + 2) / 5 + 1 in
  let m := if mp <? 10 then mp + 3 else mp - 9 in
  let y := yoe + era * 400 in
  (if m <=? 2 then y + 1 else y, m, d).

Definition timeClip (tv : Z) : t :=
  if Z.abs tv <=? 8640000000000000 then Some tv else None.

(** [MakeDay]: month overflow carries into the year, the day of month is
    added as an offset. *)
Definition makeDay (year month date : Z) : Z :=
  daysFromCivil (year + month / 12) (month mod 12 + 1) 1 + date - 1.

Definition makeTime (h mi s : Z) : Z := h * 3600000 + mi * 60000 + s * 1000.

(** [new Date(year, monthIndex, day, hours, minutes, seconds)]: any NaN or
    infinite argument gives an Invalid Date; years 0..99 mean 1900..1999. *)
Definition fromFields (year monthIndex day hours minutes seconds : float) : t :=
  match JSNumber.toInteger year, JSNumber.toInteger monthIndex,
        JSNumber.toInteger day, JSNumber.toInteger hours,
        JSNumber.toInteger minutes, JSNumber.toInteger seconds with
  | Some y, Some mo, Some d, Some h, Some mi, Some s =>
      let yr := if (0 <=? y) && (y <=? 99) then 1900 + y else y in
      timeClip (makeDay yr mo d * msPerDay + makeTime h mi s)
  | _, _, _, _, _, _ => None
  end.

(** [new Date(ms)] *)
Definition ofTime (ms : Z) : t := timeClip ms.

Definition civil (d : t) : option (Z * Z * Z) :=
  match d with
  | Some tv => Some (civilFromDays (tv / msPerDay))
  | None => None
  end.

(** Getters; [None] is the NaN they return on an Invalid Date. *)
Definition getFullYear (d : t) : option Z :=
  match civil d with Some (y, _, _) => Some y | None => None end.
Definition getMonth (d : t) : option Z :=
  match civil d with Some (_, m, _) => Some (m - 1) | None => None end.
Definition getDate (d : t) : option Z :=
  match civil d with Some (_, _, dd) => Some dd | None => None end.

End JSDate.

(** ** Data the script handles *)

(** A value that can come back from the LLM endpoint, or sit in a local
    variable of [processFile].  An array is kept as the bytes that
    [Buffer.from] makes of it. *)
Inductive JSValue :=
| VUndefined
| VNull
| VBool (b : bool)
| VNumber (x : float)
| VString (s : string)
| VArray (bytes : list Z)
| VObject.

(** A value of an EXIF tag as piexifjs hands it out: an ASCII string, an
    array of [num, den] pairs, a flat array of numbers (bytes, shorts, or a
    single rational), or one number. *)
Inductive ExifValue :=
| EString (s : string)
| ERationals (l : list (Z * Z))
| ENumbers (l : list Z)
| ENumber (z : Z).

Abbreviation IFD := (gmap N ExifValue).

Record ExifData := {
  ifd0th : IFD;
  ifdExif : IFD;
  ifdGPS : IFD;
  ifdInterop : option IFD;
  ifd1st : IFD;
  thumbnail : option (list Z)
}.

(** Tag numbers of piexifjs ([piexif.GPSIFD], [piexif.ExifIFD],
    [piexif.ImageIFD]). *)
Module Tag.
Definition GPSLatitudeRef : N := 1.
Definition GPSLatitude : N := 2.
Definition GPSLongitudeRef : N := 3.
Definition GPSLongitude : N := 4.
Definition DateTimeOriginal : N := 36867.
Definition DateTimeDigitized : N := 36868.
Definition XPTitle : N := 40091.
Definition XPComment : N := 40092.
Definition XPKeywords : N := 40094.
End Tag.

(** A row of [worldcities.csv].  csv-parser yields strings; a column the file
    lacks reads as [undefined], which both uses of a field (string
    concatenation and [parseFloat]) turn into the string ["undefined"]. *)
Record City := {
  city : string;
  iso2 : string;
  country : string;
  lat : string;
  lng : string
}.

(** The command line, as yargs parses it. *)
Record Argv := {
  useOllama : bool;
  ollamaUrl : string;
  sourceDir : string;
  destDir : string;
  processedDir : option string;
  watchFolder : bool;
  setGps : option string
}.

Record Request := {
  model : string;
  prompt : string;
  images : list string;
  stream : bool
}.

(** What [instance.post] settles to: a rejection (transport failure, timeout,
    error status), or a response whose [data] is null or undefined
    ([Resolved None]), or a response with [data.response] equal to [v]
    ([Resolved (Some v)], [v = VUndefined] when the field is missing). *)
Inductive HttpOutcome :=
| Rejected
| Resolved (dataResponse : option JSValue).

Inductive FsNode :=
| File (mtimeMs : Z) (content : list Z)
| Directory.

Record Stats := { isFile : bool; mtime : Z }.

Inductive Error :=
| TypeError (what : string)
| ReferenceError (what : string)
| FsError (op path : string)
| ProbeError (path : string)
| PiexifError (op : string)
| NoTermination.

Inductive LogLine :=
| LogAxios
| LogErr (context : string) (e : Error)
| LogCity (latitude longitude : float) (nearest : option City)
| LogVideo (data : string)
| LogTags (tags : list string)
| LogCaption (caption : JSValue)
| LogCopyExif (src dst : string)
| LogCopy (src dst : string)
| LogMove (src dst : string)
| LogSkip (path : string).

(** Everything the script does to the outside, in program order. *)
Inductive Event :=
| EvStat (path : string)
| EvReadFile (path : string)
| EvProbe (path : string)
| EvPost (url : string) (req : Request)
| EvEnsureDir (path : string)
| EvPathExists (path : string) (found : bool)
| EvWriteFile (path : string) (data : list Z)
| EvCopy (src dst : string)
| EvMove (src dst : string)
| EvLog (l : LogLine).

(** Inputs that do not change during a run. *)
Record Env := {
  argv : Argv;
  http : string -> Request -> HttpOutcome;
  ffprobe : string -> option string;
  now : Z
}.

(** What changes: the file system, the implicit global [exd] (assigned
    without a declaration at line 323), and the trace. *)
Record State := {
  fs : gmap string FsNode;
  exd : option ExifData;
  trace : list Event
}.

(** Library functions the script calls and does not define. *)
Class Platform := {
  Number : string -> float;
  parseFloat : string -> float;
  piexif_load : list Z -> option ExifData;
  piexif_dump : ExifData -> option (list Z);
  piexif_insert : list Z -> list Z -> option (list Z);
  base64 : list Z -> string;
  path_relative : string -> string -> string
}.

(** ** The monad of effects *)

Inductive Result (A : Type) :=
| Ok (a : A)
| Thrown (e : Error).
Arguments Ok {A} a.
Arguments Thrown {A} e.

Definition M (A : Type) : Type := State -> Result A * State.

#[global] Instance M_ret : MRet M := fun A a st => (Ok a, st).

#[global] Instance M_bind : MBind M := fun A B f m st =>
  match m st with
  | (Ok a, st') => f a st'
  | (Thrown e, st') => (Thrown e, st')
  end.

Definition throw {A} (e : Error) : M A := fun st => (Thrown e, st).

(** [try { m } catch (e) { h e }] *)
Definition tryCatch {A} (m : M A) (h : Error -> M A) : M A := fun st =>
  match m st with
  | (Ok a, st') => (Ok a, st')
  | (Thrown e, st') => h e st'
  end.

Definition liftResult {A} (r : Result A) : M A := fun st => (r, st).

Definition get : M State := fun st => (Ok st, st).

Definition emit (e : Event) : M unit := fun st =>
  (Ok tt, {| fs := fs st; exd := exd st; trace := trace st ++ [e] |}).

Definition log (l : LogLine) : M unit := emit (EvLog l).

Definition setFs (f : gmap string FsNode) : M unit := fun st =>
  (Ok tt, {| fs := f; exd := exd st; trace := trace st |}).

Definition setExd (e : ExifData) : M unit := fun st =>
  (Ok tt, {| fs := fs st; exd := Some e; trace := trace st |}).

(** ** The file system calls *)

Module Fs.

(** [fs.stat] *)
Definition stat (p : string) : M Stats :=
  emit (EvStat p);;
  st ← get;
  match fs st !! p with
  | Some (File mt _) => mret {| isFile := true; mtime := mt |}
  | Some Directory => mret {| isFile := false; mtime := 0 |}
  | None => throw (FsError "stat" p)
  end.

(** [fs.readFileSync] *)
Definition readFileSync (p : string) : M (list Z) :=
  emit (EvReadFile p);;
  st ← get;
  match fs st !! p with
  | Some (File _ data) => mret data
  | _ => throw (FsError "read" p)
  end.

(** [fs.pathExists] *)
Definition pathExists (p : string) : M bool :=
  st ← get;
  let found := bool_decide (is_Some (fs st !! p)) in
  emit (EvPathExists p found);;
  mret found.

(** [mkdir -p] on a list of paths, shortest first: fails on a path that is
    a file. *)
Fixpoint mkdirs (ps : list string) (f : gmap string FsNode)
    : option (gmap string FsNode) :=
  match ps with
  | [] => Some f
  | p :: ps' =>
      match f !! p with
      | Some (File _ _) => None
      | _ => mkdirs ps' (<[p := Directory]> f)
      end
  end.

(** [fs.ensureDir] *)
Definition ensureDir (p : string) : M unit :=
  emit (EvEnsureDir p);;
  st ← get;
  match mkdirs (Path.ancestors p ++ [p]) (fs st) with
  | Some f => setFs f
  | None => throw (FsError "mkdir" p)
  end.

Definition parentIsDirectory (p : string) (f : gmap string FsNode) : bool :=
  match List.last (map Some (Path.ancestors p)) None with
  | None => true
  | Some q => match f !! q with Some Directory => true | _ => false end
  end.

(** [fs.writeFileSync]: the parent directory must exist. *)
Definition writeFileSync (now : Z) (p : string) (data : list Z) : M unit :=
  emit (EvWriteFile p data);;
  st ← get;
  match fs st !! p with
  | Some Directory => throw (FsError "write" p)
  | _ =>
      if parentIsDirectory p (fs st)
      then setFs (<[p := File now data]> (fs st))
      else throw (FsError "write" p)
  end.

(** fs-extra's [copy] of a file: parents of the target are created, an
    existing target file is overwritten. *)
Definition copy (now : Z) (src dst : string) : M unit :=
  emit (EvCopy src dst);;
  st ← get;
  match fs st !! src, fs st !! dst with
  | Some (File _ data), (None | Some (File _ _)) =>
      match mkdirs (Path.ancestors dst) (fs st) with
      | Some f => setFs (<[dst := File now data]> f)
      | None => throw (FsError "copy" dst)
      end
  | _, _ => throw (FsError "copy" src)
  end.

(** fs-extra's [move] with [{ overwrite: true }]. *)
Definition move (src dst : string) : M unit :=
  emit (EvMove src dst);;
  st ← get;
  match fs st !! src with
  | Some node =>
      if String.eqb src dst then throw (FsError "move" src)
      else match mkdirs (Path.ancestors dst) (fs st) with
           | Some f => setFs (<[dst := node]> (delete src f))
           | None => throw (FsError "move" dst)
           end
  | None => throw (FsError "move" src)
  end.

End Fs.

(** ** The script *)

Section Script.

Context `{Platform}.
Variable env : Env.

Local Open Scope float_scope.

(** [findNearestCity], lines 102-120.  [Math.pow(x, 2)] is [x * x]. *)
Definition distanceTo (latitude longitude : float) (c : City) : float :=
  PrimFloat.sqrt
    ((latitude - parseFloat (lat c)) * (latitude - parseFloat (lat c))
     + (longitude - parseFloat (lng c)) * (longitude - parseFloat (lng c))).

Definition nearestStep (latitude longitude : float)
    (acc : option City * float) (c : City) : option City * float :=
  let distance := distanceTo latitude longitude c in
  if distance <? snd acc then (Some c, distance) else acc.

Definition findNearestCity (cities : list City) (latitude longitude : float)
    : option City :=
  fst (fold_left (nearestStep latitude longitude) cities
         (None, JSNumber.Infinity)).

(** [loadExifData], lines 122-131: never throws. *)
Definition emptyExif : ExifData :=
  {| ifd0th := ∅; ifdExif := ∅; ifdGPS := ∅; ifdInterop := None;
     ifd1st := ∅; thumbnail := None |}.

Definition loadExifData (jpeg : list Z) : ExifData :=
  match piexif_load jpeg with
  | Some e => e
  | None => emptyExif
  end.

(** [exifSavePicture], lines 133-144. *)
Definition exifSavePicture (exifData : ExifData) (jpeg : list Z)
    (filename : string) : M unit :=
  match piexif_dump exifData with
  | None => throw (PiexifError "dump")
  | Some exifBytes =>
      match piexif_insert exifBytes jpeg with
      | None => throw (PiexifError "insert")
      | Some newJpeg => Fs.writeFileSync (now env) filename newJpeg
      end
  end.

(** Truthiness of a JS value. *)
Definition truthy (v : JSValue) : bool :=
  match v with
  | VUndefined | VNull => false
  | VBool b => b
  | VNumber x => negb (x =? 0) && negb (PrimFloat.is_nan x)
  | VString s => JSString.truthy s
  | VArray _ | VObject => true
  end.

(** [Array.from(Buffer.from(v, 'utf-16le'))]: a string is encoded, an array
    is taken byte by byte, anything else is a TypeError. *)
Definition bufferFrom (v : JSValue) : Result (list Z) :=
  match v with
  | VString s => Ok (JSString.utf16le s)
  | VArray l => Ok (map (fun b => b mod 256)%Z l)
  | _ => Thrown (TypeError "Buffer.from")
  end.

(** [exifAddTags], lines 160-172, called with [comment] undefined and with
    [tags] an array.  It updates the object it is given in place. *)
Definition exifAddTags (exifData : ExifData) (tags : list string)
    (caption : JSValue) : Result ExifData :=
  let withTitle :=
    if truthy caption then
      match bufferFrom caption with
      | Ok bytes => Ok (<[Tag.XPTitle := ENumbers bytes]> (ifd0th exifData))
      | Thrown e => Thrown e
      end
    else Ok (ifd0th exifData) in
  match withTitle with
  | Thrown e => Thrown e
  | Ok ifd =>
      let stags := JSString.join ", " tags in
      Ok {| ifd0th := <[Tag.XPKeywords := ENumbers (JSString.utf16le stags)]> ifd;
            ifdExif := ifdExif exifData; ifdGPS := ifdGPS exifData;
            ifdInterop := ifdInterop exifData; ifd1st := ifd1st exifData;
            thumbnail := thumbnail exifData |}
  end.

(** [sendLLMRequest], lines 174-189.  A rejected post is logged by the
    [.catch] handler, which leaves [response] undefined; reading
    [response.data] then throws and the outer [catch] returns [[]]. *)
Definition sendLLMRequest (apiUrl : string) (requestData : Request)
    : M JSValue :=
  tryCatch
    (emit (EvPost apiUrl requestData);;
     match http env apiUrl requestData with
     | Rejected =>
         log LogAxios;;
         throw (TypeError "response is undefined")
     | Resolved None => throw (TypeError "response.data is null")
     | Resolved (Some v) => mret v
     end)
    (fun error => log (LogErr "Error:" error);; mret (VArray [])).

Definition keywordsPrompt : string :=
  "You are an expert in picture classification and categorization. Provide a list of 6 keywords, only keywords and no comments. keywords will be seperated by commas, on a single line. it will be used as tags to classify pictures in a database".

Definition captionPrompt : string :=
  "give a caption title to the picture, providing an accurate description. Only one sentence, 120 characters maximum".

(** [llava_analyze_image], lines 191-231. *)
Definition llava_analyze_image (imageBuffer : option (list Z))
    : M (JSValue * JSValue) :=
  match imageBuffer with
  | None => throw (TypeError "imageBuffer is undefined")
  | Some buf =>
      let imageBase64 := base64 buf in
      let apiUrl := (ollamaUrl (argv env) +:+ "/api/generate")%string in
      tags ← sendLLMRequest apiUrl
        {| model := "llava"; prompt := keywordsPrompt;
           images := [imageBase64]; stream := false |};
      caption ← sendLLMRequest apiUrl
        {| model := "llava"; prompt := captionPrompt;
           images := [imageBase64]; stream := false |};
      mret (tags, caption)
  end.

(** [convertDMSToDD], lines 244-257.  A missing component is [undefined],
    which the arithmetic turns into NaN. *)
Definition convertDMSToDD (dms : list float) (hemisphere : option ExifValue)
    : float :=
  let degrees := nth 0 dms JSNumber.NaN in
  let minutes := nth 1 dms JSNumber.NaN in
  let seconds := nth 2 dms JSNumber.NaN in
  let dd := degrees + (minutes / 60) + (seconds / 3600) in
  match hemisphere with
  | Some (EString "S") | Some (EString "W") => - dd
  | _ => dd
  end.

(** [parseExifDateTime], lines 260-268.  It throws when its argument has no
    [split] method or when there is no space, so that [timePart] is
    undefined; every other string gives a [Date], possibly an invalid
    one. *)
Definition parseExifDateTime (exifDateTime : ExifValue) : Result JSDate.t :=
  match exifDateTime with
  | EString s =>
      match JSString.split " " s with
      | datePart :: timePart :: _ =>
          let ymd := map Number (JSString.split ":" datePart) in
          let hms := map Number (JSString.split ":" timePart) in
          Ok (JSDate.fromFields
                (nth 0 ymd JSNumber.NaN)
                (nth 1 ymd JSNumber.NaN - 1)
                (nth 2 ymd JSNumber.NaN)
                (nth 0 hms JSNumber.NaN)
                (nth 1 hms JSNumber.NaN)
                (nth 2 hms JSNumber.NaN))
      | _ => Thrown (TypeError "timePart is undefined")
      end
  | _ => Thrown (TypeError "exifDateTime.split is not a function")
  end.

(** *** [processFile], lines 270-461, stage by stage *)

Definition JpegExtensions : list string := [".jpg"; ".jpeg"; ".jfif"].
Definition NonJpegExtensions : list string := [".heic"; ".png"; ".webp"].
Definition videoExtensions : list string := [".mp4"; ".avi"; ".mov"].

Definition someEndsWith (lcfp : string) (exts : list string) : bool :=
  existsb (JSString.endsWith lcfp) exts.

(** [if (v)] on the value of a tag that may be missing. *)
Definition truthyTag (v : option ExifValue) : bool :=
  match v with
  | None => false
  | Some (EString s) => JSString.truthy s
  | Some (ENumber z) => negb (z =? 0)%Z
  | Some (ERationals _) | Some (ENumbers _) => true
  end.

(** [v.map(coord => coord[0] / coord[1])], lines 334 and 336: a missing
    tag, a string and a number have no [map]; an element that is a number
    has no [0] and no [1], and [undefined / undefined] is NaN. *)
Definition mapRationals (v : option ExifValue) : Result (list float) :=
  match v with
  | Some (ERationals l) =>
      Ok (map (fun c => JSNumber.ofZ (fst c) / JSNumber.ofZ (snd c)) l)
  | Some (ENumbers l) => Ok (map (fun _ => JSNumber.NaN) l)
  | _ => Thrown (TypeError "map is not a function")
  end.

(** Lines 326-350: GPS coordinates and the nearest city.  [location] is
    assigned last, so a throw leaves it [false] (here [None]). *)
Definition extractLocation (filePath : string) (cities : list City)
    (piexifGPS : IFD) : M (option string) :=
  tryCatch
    (if bool_decide (is_Some (piexifGPS !! Tag.GPSLatitude)) then
       let gpsLatitudeRef := piexifGPS !! Tag.GPSLatitudeRef in
       gpsLatitude ← liftResult (mapRationals (piexifGPS !! Tag.GPSLatitude));
       let gpsLongitudeRef := piexifGPS !! Tag.GPSLongitudeRef in
       gpsLongitude ← liftResult (mapRationals (piexifGPS !! Tag.GPSLongitude));
       let latitude := convertDMSToDD gpsLatitude gpsLatitudeRef in
       let longitude := convertDMSToDD gpsLongitude gpsLongitudeRef in
       let nearestCity := findNearestCity cities latitude longitude in
       log (LogCity latitude longitude nearestCity);;
       mret (match nearestCity with
             | Some c => Some (city c +:+ "-" +:+ iso2 c)%string
             | None => None
             end)
     else mret None)
    (fun e =>
       log (LogErr (filePath +:+ " Error Extracting GPS coordinates") e);;
       mret None).

Definition parseTag (v : option ExifValue) : Result JSDate.t :=
  match v with
  | Some x => parseExifDateTime x
  | None => Thrown (TypeError "exifDateTime is undefined")
  end.

(** Lines 354-368: one [try] around both fields.  [date] is a local
    variable assigned twice, so the value after a throw is the value of the
    last assignment that completed. *)
Definition extractDate (filePath : string) (date : JSDate.t) (Exif : IFD)
    : M JSDate.t :=
  let digitized := Exif !! Tag.DateTimeDigitized in
  let original := Exif !! Tag.DateTimeOriginal in
  match (if truthyTag digitized then parseTag digitized else Ok date) with
  | Thrown e =>
      log (LogErr (filePath +:+ " Exif Data Error") e);; mret date
  | Ok date1 =>
      match (if truthyTag original then parseTag original else Ok date1) with
      | Thrown e =>
          log (LogErr (filePath +:+ " Exif Data Error") e);; mret date1
      | Ok date2 => mret date2
      end
  end.

(** Lines 320-375.  [piexif.load] always returns the IFDs as objects, so
    [if (exd)], [if (piexifGPS)] and [if (exd.Exif)] always pass.  A missing
    buffer makes [jpeg.toString] throw inside [loadExifData]'s own [try]. *)
Definition extractExif (filePath : string) (cities : list City)
    (imageBuffer : option (list Z)) (date : JSDate.t)
    : M (JSDate.t * option string) :=
  tryCatch
    (let e := match imageBuffer with
              | Some buf => loadExifData buf
              | None => emptyExif
              end in
     setExd e;;
     location ← extractLocation filePath cities (ifdGPS e);
     date' ← extractDate filePath date (ifdExif e);
     mret (date', location))
    (fun e =>
       log (LogErr (filePath +:+ " Picture  Data Extraction Error") e);;
       mret (date, None)).

(** Lines 378-381. *)
Definition probeVideo (filePath : string) : M unit :=
  emit (EvProbe filePath);;
  match ffprobe env filePath with
  | Some data => log (LogVideo data)
  | None => throw (ProbeError filePath)
  end.

(** Line 386: [tags.toLowerCase().trim().split(',').map(item =>
    item.trim()).sort()]. *)
Definition normalizeTags (response : string) : list string :=
  JSString.sort
    (map JSString.trim
       (JSString.split "," (JSString.trim (JSString.toLowerCase response)))).

(** Lines 384-392.  Only a string has [toLowerCase]. *)
Definition enrich (imageBuffer : option (list Z))
    : M (list string * JSValue) :=
  analyze_results ← llava_analyze_image imageBuffer;
  match fst analyze_results with
  | VString response =>
      let tags := normalizeTags response in
      log (LogTags tags);;
      log (LogCaption (snd analyze_results));;
      mret (tags, snd analyze_results)
  | _ => throw (TypeError "analyze_results.tags.toLowerCase is not a function")
  end.

(** Lines 395-401. *)
Definition yearSegment (date : JSDate.t) : string :=
  JSNumber.toString (JSDate.getFullYear date).

Definition monthSegment (date : JSDate.t) : string :=
  JSString.padStart 2 "0"
    (JSNumber.toString (option_map (fun m => m + 1)%Z (JSDate.getMonth date))).

Definition daySegment (date : JSDate.t) (location : option string) : string :=
  let day := JSString.padStart 2 "0" (JSNumber.toString (JSDate.getDate date)) in
  match location with
  | Some l => if JSString.truthy l then (day +:+ "-" +:+ l)%string else day
  | None => day
  end.

Definition destinationDir (destDir : string) (date : JSDate.t)
    (location : option string) : string :=
  Path.join [destDir; yearSegment date; monthSegment date;
             daySegment date location].

(** [tags.length > 0], where [tags] is [false] ([None]) or an array. *)
Definition hasTags (tags : option (list string)) : bool :=
  match tags with
  | Some ts => (0 <? length ts)%nat
  | None => false
  end.

Definition tagList (tags : option (list string)) : list string :=
  match tags with Some ts => ts | None => [] end.

(** Lines 410-419. *)
Definition destinationFile (destPath filePath : string) (process_llm : bool)
    (tags : option (list string)) : string :=
  if process_llm && hasTags tags then
    let processedTags :=
      JSString.join "-" (map (JSString.replaceWsRuns "_" false) (tagList tags)) in
    let newFileName :=
      (Path.parseName filePath +:+ "-" +:+ processedTags
       +:+ Path.parseExt filePath)%string in
    Path.join [destPath; newFileName]
  else Path.join [destPath; Path.basename filePath].

(** The name tried at the [counter]-th collision, line 426. *)
Definition collisionName (destPath filePath : string) (counter : nat) : string :=
  let fileName := Path.parseName filePath in
  let fileExt := Path.parseExt filePath in
  Path.join [destPath; (fileName +:+ "_" +:+ pretty counter +:+ fileExt)%string].

(** Lines 422-428: the [while] loop, with [fuel] bounding the number of
    tests of [fs.pathExists]. *)
Fixpoint collisionLoop (fuel : nat) (destPath filePath destFilePath : string)
    (counter : nat) : M string :=
  match fuel with
  | O => throw NoTermination
  | S fuel' =>
      found ← Fs.pathExists destFilePath;
      if found : bool then
        collisionLoop fuel' destPath filePath
          (collisionName destPath filePath counter) (S counter)
      else mret destFilePath
  end.

(** Lines 430-436: the picture is saved with its updated EXIF block when
    there is one and the tag list is not empty.  The result is the value of
    [process_exif_data] afterwards. *)
Definition saveWithExif (filePath destFilePath : string)
    (process_exif_data : bool) (tags : option (list string))
    (caption : JSValue) (imageBuffer : option (list Z)) : M bool :=
  st ← get;
  if process_exif_data then
    match exd st with
    | None => throw (ReferenceError "exd is not defined")
    | Some e =>
        if hasTags tags then
          e' ← liftResult (exifAddTags e (tagList tags) caption);
          setExd e';;
          log (LogCopyExif filePath destFilePath);;
          match imageBuffer with
          | Some buf => exifSavePicture e' buf destFilePath
          | None => throw (TypeError "jpeg is undefined")
          end;;
          mret true
        else mret false
    end
  else mret false.

(** Lines 438-451: the plain copy, then the move of the original. *)
Definition place (filePath destFilePath : string) (process_exif_data : bool)
    (tags : option (list string)) (caption : JSValue)
    (imageBuffer : option (list Z)) : M unit :=
  process_exif_data ←
    saveWithExif filePath destFilePath process_exif_data tags caption
      imageBuffer;
  (if negb process_exif_data then
     log (LogCopy filePath destFilePath);;
     Fs.copy (now env) filePath destFilePath
   else mret tt);;
  match processedDir (argv env) with
  | Some dir =>
      if JSString.truthy dir then
        let relfilepath := path_relative (sourceDir (argv env)) filePath in
        let processedFilePath := Path.join [dir; relfilepath] in
        log (LogMove filePath processedFilePath);;
        Fs.move filePath processedFilePath
      else mret tt
  | None => mret tt
  end.

(** Lines 394-455: the destination is built, its directory created, and
    the file placed unless [skip] is set. *)
Definition placement (filePath destDir : string)
    (process_llm process_exif_data skip : bool) (date : JSDate.t)
    (location : option string) (tags : option (list string))
    (caption : JSValue) (imageBuffer : option (list Z)) : M unit :=
  let destPath := destinationDir destDir date location in
  Fs.ensureDir destPath;;
  let destFilePath := destinationFile destPath filePath process_llm tags in
  if negb skip then
    st ← get;
    destFilePath ←
      collisionLoop (S (S (size (fs st)))) destPath filePath destFilePath 1;
    place filePath destFilePath process_exif_data tags caption imageBuffer
  else log (LogSkip filePath).

(** Lines 285-311: what the extension decides. *)
Definition isJpegType (lcfp : string) : bool :=
  someEndsWith lcfp JpegExtensions.

Definition isPicture (lcfp : string) : bool :=
  isJpegType lcfp || someEndsWith lcfp NonJpegExtensions.

Definition isVideo (lcfp : string) : bool :=
  someEndsWith lcfp videoExtensions.

Definition processLlm (lcfp : string) : bool :=
  let process_llm := useOllama (argv env) in
  let process_llm := if isVideo lcfp then false else process_llm in
  if JSString.endsWith lcfp ".webp" || JSString.endsWith lcfp ".heic"
  then false else process_llm.

Definition processFileBody (filePath destDir : string) (cities : list City)
    : M unit :=
  stat ← Fs.stat filePath;
  let date := JSDate.ofTime (mtime stat) in
  if isFile stat then
    let lcfp := JSString.toLowerCase filePath in
    if isPicture lcfp || isVideo lcfp then
      let process_llm := processLlm lcfp in
      let process_video_data := isVideo lcfp in
      let skip := isVideo lcfp in
      let process_exif_data := isJpegType lcfp in
      imageBuffer ←
        (if isPicture lcfp
         then buf ← Fs.readFileSync filePath; mret (Some buf)
         else mret None);
      resolved ←
        (if process_exif_data
         then extractExif filePath cities imageBuffer date
         else mret (date, None));
      (if process_video_data then probeVideo filePath else mret tt);;
      enriched ←
        (if process_llm
         then r ← enrich imageBuffer; mret (Some (fst r), snd r)
         else mret (None, VBool false));
      placement filePath destDir process_llm process_exif_data skip
        (fst resolved) (snd resolved) (fst enriched) (snd enriched)
        imageBuffer
    else mret tt
  else mret tt.

Definition processFile (filePath destDir : string) (cities : list City)
    : M unit :=
  tryCatch (processFileBody filePath destDir cities)
    (fun error => log (LogErr "Error:" error)).

End Script.

(** ** A platform and a small world for the worked examples *)

Module Example.

Definition digit (c : ascii) : option Z :=
  let n := JSString.code c in
  if ((48 <=? n) && (n <=? 57))%N then Some (Z.of_N n - 48) else None.

(** Reads a run of digits: the value of [acc] followed by the digits, how
    many digits were read, and the rest of the string. *)
Fixpoint digits (s : string) (acc : Z) (count : Z) : Z * Z * string :=
  match s with
  | EmptyString => (acc, count, s)
  | String c s' =>
      match digit c with
      | Some d => digits s' (10 * acc + d) (count + 1)
      | None => (acc, count, s)
      end
  end.

(** The longest prefix [[+-]digits[.digits]] with at least one digit, as a
    number, and what follows it.  The quotient of two exactly represented
    integers is correctly rounded, so the value is the binary64 nearest to
    the decimal (mantissa below 2^53, at most 22 decimals). *)
Definition decimalPrefix (s : string) : option (float * string) :=
  let '(neg, s1) :=
    match s with
    | String "-" r => (true, r)
    | String "+" r => (false, r)
    | _ => (false, s)
    end in
  let '(i, ni, s2) := digits s1 0 0 in
  let '(m, nf, s3) :=
    match s2 with
    | String "." r => digits r i 0
    | _ => (i, 0, s2)
    end in
  if (ni + nf =? 0) then None
  else
    let v := (JSNumber.ofZ m / JSNumber.ofZ (10 ^ nf))%float in
    Some (if neg then PrimFloat.opp v else v, s3).

(** [Number(s)] on decimal literals without exponent; other spellings of a
    number (exponent, hexadecimal, [Infinity]) are read as NaN here. *)
Definition NumberDecimal (s : string) : float :=
  let t := JSString.trim s in
  if String.eqb t "" then 0%float
  else match decimalPrefix t with
       | Some (v, EmptyString) => v
       | _ => JSNumber.NaN
       end.

(** [parseFloat(s)] on the same literals. *)
Definition parseFloatDecimal (s : string) : float :=
  match decimalPrefix (JSString.trimStart s) with
  | Some (v, _) => v
  | None => JSNumber.NaN
  end.

(** A stand-in for piexifjs: a picture is a one-byte header naming its EXIF
    block in the table [blocks], followed by its pixels; a picture without
    that header makes [load] throw. *)
Definition load (blocks : list ExifData) (jpeg : list Z) : option ExifData :=
  match jpeg with
  | h :: _ => nth_error blocks (Z.to_nat h)
  | [] => None
  end.

(** [dump] writes the keyword bytes after a marker byte, [insert] puts the
    dumped block in front of the picture. *)
Definition dump (e : ExifData) : option (list Z) :=
  match ifd0th e !! Tag.XPKeywords with
  | Some (ENumbers l) => Some (255 :: l)
  | _ => Some [255]
  end.

Definition insert (exifBytes jpeg : list Z) : option (list Z) :=
  Some (exifBytes ++ jpeg)%list.

(** [path.relative(from, to)] when [to] lies under [from]. *)
Fixpoint stripPrefix (pre s : string) : string :=
  match pre, s with
  | String a pre', String b s' =>
      if Ascii.eqb a b then stripPrefix pre' s' else s
  | EmptyString, String "/" s' => s'
  | _, _ => s
  end.

Definition platform (blocks : list ExifData) : Platform :=
  {| Number := NumberDecimal;
     parseFloat := parseFloatDecimal;
     piexif_load := load blocks;
     piexif_dump := dump;
     piexif_insert := insert;
     base64 := fun bytes => pretty (length bytes);
     path_relative := stripPrefix |}.

Definition cities : list City :=
  [ {| city := "Paris"; iso2 := "FR"; country := "France";
       lat := "48.8567"; lng := "2.3522" |};
    {| city := "London"; iso2 := "GB"; country := "United Kingdom";
       lat := "51.5072"; lng := "-0.1275" |};
    {| city := "Lyon"; iso2 := "FR"; country := "France";
       lat := "45.7600"; lng := "4.8400" |} ].

Definition exifOf (gps exif : list (N * ExifValue)) : ExifData :=
  {| ifd0th := ∅; ifdExif := list_to_map exif; ifdGPS := list_to_map gps;
     ifdInterop := None; ifd1st := ∅; thumbnail := None |}.

(** 48 deg 51' 30'' N, 2 deg 21' 0'' E: a point in Paris. *)
Definition gpsParis : list (N * ExifValue) :=
  [ (Tag.GPSLatitudeRef, EString "N");
    (Tag.GPSLatitude, ERationals [(48, 1); (51, 1); (30, 1)]);
    (Tag.GPSLongitudeRef, EString "E");
    (Tag.GPSLongitude, ERationals [(2, 1); (21, 1); (0, 1)]) ].

(** The EXIF blocks of the example pictures, by header byte. *)
Definition blocks : list ExifData :=
  [ exifOf [] [];
    exifOf gpsParis [(Tag.DateTimeOriginal, EString "2023:12:25 08:00:00")];
    exifOf [] [(Tag.DateTimeDigitized, EString "2022:05:06 07:08:09")];
    exifOf [] [(Tag.DateTimeDigitized, EString "2022:05:06 07:08:09");
               (Tag.DateTimeOriginal, EString "2023:12:25 08:00:00")];
    exifOf [] [(Tag.DateTimeDigitized, EString "garbage");
               (Tag.DateTimeOriginal, EString "2023:12:25 08:00:00")];
    exifOf [] [(Tag.DateTimeDigitized, EString "2022:05:06 07:08:09");
               (Tag.DateTimeOriginal, EString "garbage")];
    exifOf [] [(Tag.DateTimeOriginal, EString "2023-12-25 08:00:00")] ].

#[export] Instance examplePlatform : Platform := platform blocks.

(** 2024-03-02T10:00:00 *)
Definition mtime0 : Z := 1709373600000.

Definition args (ollama : bool) (processed : option string) : Argv :=
  {| useOllama := ollama; ollamaUrl := "http://localhost:11434";
     sourceDir := "src"; destDir := "dest"; processedDir := processed;
     watchFolder := false; setGps := None |}.

(** An endpoint that answers the keyword prompt with [keywords] and the
    caption prompt with [caption]. *)
Definition endpoint (keywords caption : HttpOutcome) (url : string)
    (req : Request) : HttpOutcome :=
  if String.eqb (prompt req) keywordsPrompt then keywords else caption.

Definition world (a : Argv) (keywords caption : HttpOutcome) : Env :=
  {| argv := a; http := endpoint keywords caption;
     ffprobe := fun p => if String.eqb p "src/broken.mp4" then None
                         else Some "format=mp4";
     now := 1800000000000 |}.

Definition start (files : list (string * FsNode)) : State :=
  {| fs := list_to_map files; exd := None; trace := [] |}.

Definition answered (s : string) : HttpOutcome := Resolved (Some (VString s)).

End Example.

(** ** Vocabulary of the statements *)

(** The last character of a string. *)
Fixpoint lastChar (s : string) : option ascii :=
  match s with
  | EmptyString => None
  | String c EmptyString => Some c
  | String _ s' => lastChar s'
  end.

(** What [Path.join] puts in front of a plain last segment: the normalized
    directory and a separator. *)
Definition dirPrefix (d : string) : string :=
  if String.eqb d "" then ""
  else
    (if Path.isAbsolute d then "/" else "")
    +:+ match Path.normSegments (negb (Path.isAbsolute d)) d with
        | [] => ""
        | segs => JSString.join "/" segs +:+ "/"
        end.


(** The invariant of the scan in [findNearestCity] after the records [seen]:
    the best record so far has a distance below [Infinity], is strictly
    closer than every record before it, and no record seen is strictly
    closer than it. *)
Definition scanInv `{Platform} (latitude longitude : float) (seen : list City)
    (acc : option City * float) : Prop :=
  match fst acc with
  | None =>
      snd acc = JSNumber.Infinity
      /\ forall c, c ∈ seen ->
           (distanceTo latitude longitude c <? JSNumber.Infinity)%float = false
  | Some b =>
      snd acc = distanceTo latitude longitude b
      /\ (distanceTo latitude longitude b <? JSNumber.Infinity)%float = true
      /\ exists i, seen !! i = Some b
         /\ (forall c, c ∈ seen ->
               (distanceTo latitude longitude c
                <? distanceTo latitude longitude b)%float = false)
         /\ (forall j c, (j < i)%nat -> seen !! j = Some c ->
               (distanceTo latitude longitude c
                <=? distanceTo latitude longitude b)%float = false)
  end.

(** No character of [s] is [c]. *)
Definition lacks (c : ascii) (s : string) : bool :=
  forallb (fun x => negb (Ascii.eqb x c)) (list_ascii_of_string s).

Definition hasChar (c : ascii) (s : string) : bool :=
  existsb (Ascii.eqb c) (list_ascii_of_string s).

Definition isDigit (c : ascii) : bool :=
  ((48 <=? JSString.code c) && (JSString.code c <=? 57))%N.

Definition allChars (p : ascii -> bool) (s : string) : bool :=
  forallb p (list_ascii_of_string s).

(** The paths the collision loop tests, in order: the computed destination,
    then the numbered names starting at [counter]. *)
Definition attempt (destPath filePath destFilePath : string) (counter : nat)
    (i : nat) : string :=
  match i with
  | O => destFilePath
  | S j => collisionName destPath filePath (counter + j)
  end.

(** The state after [evs] more events. *)
Definition after (st : State) (evs : list Event) : State :=
  {| fs := fs st; exd := exd st; trace := trace st ++ evs |}.

(** [m] only appends to the trace, and only events that pass [p]. *)
Definition emits {A} (p : Event -> bool) (m : M A) : Prop :=
  forall st, exists evs,
    trace (snd (m st)) = (trace st ++ evs)%list /\ forallb p evs = true.

(** The events of one run of [m] from [st]. *)
Definition eventsOf {A} (m : M A) (st : State) : list Event :=
  drop (length (trace st)) (trace (snd (m st))).

Definition anyEvent (e : Event) : bool := true.

(** Events of the placement phase, from the skip decision of line 421 on. *)
Definition isDecision (e : Event) : bool :=
  match e with
  | EvPathExists _ _ | EvWriteFile _ _ | EvCopy _ _ | EvMove _ _ => true
  | EvLog (LogCopyExif _ _) | EvLog (LogCopy _ _) | EvLog (LogMove _ _)
  | EvLog (LogSkip _) => true
  | _ => false
  end.

Definition beforeDecision (e : Event) : bool :=
  negb (isDecision e) && match e with EvEnsureDir _ => false | _ => true end.

(** The "with exif update" line of line 434, which announces the call of
    [exifSavePicture] on the next line, and the call of [fs.copy]. *)
Definition isWriterCall (e : Event) : bool :=
  match e with EvLog (LogCopyExif _ _) => true | _ => false end.

Definition isCopyCall (e : Event) : bool :=
  match e with EvCopy _ _ => true | _ => false end.

Definition isTagsLog (e : Event) : bool :=
  match e with EvLog (LogTags _) => true | _ => false end.

(** [setGps] replaced by [g], everything else kept. *)
Definition withSetGps (g : option string) (env : Env) : Env :=
  {| argv := {| useOllama := useOllama (argv env);
                ollamaUrl := ollamaUrl (argv env);
                sourceDir := sourceDir (argv env);
                destDir := destDir (argv env);
                processedDir := processedDir (argv env);
                watchFolder := watchFolder (argv env);
                setGps := g |};
     http := http env; ffprobe := ffprobe env; now := now env |}.

(** Two configurations that differ at most in [setGps]. *)
Definition sameButSetGps (env1 env2 : Env) : Prop :=
  useOllama (argv env1) = useOllama (argv env2)
  /\ ollamaUrl (argv env1) = ollamaUrl (argv env2)
  /\ sourceDir (argv env1) = sourceDir (argv env2)
  /\ destDir (argv env1) = destDir (argv env2)
  /\ processedDir (argv env1) = processedDir (argv env2)
  /\ watchFolder (argv env1) = watchFolder (argv env2)
  /\ http env1 = http env2
  /\ ffprobe env1 = ffprobe env2
  /\ now env1 = now env2.

Definition notTagsLog (e : Event) : bool := negb (isTagsLog e).
Definition notCopyCall (e : Event) : bool := negb (isCopyCall e).
Definition notWriterCall (e : Event) : bool := negb (isWriterCall e).

(** [m] leaves the file system as it is. *)
Definition keepsFs {A} (m : M A) : Prop :=
  forall st, fs (snd (m st)) = fs st.

(** Events of the stages that read the file and its metadata. *)
Definition planEvent (e : Event) : bool := beforeDecision e && notTagsLog e.

(** Events allowed after the directory is created, given how the file is to
    be placed: no log of a tag list, and only the placement call that
    [withExif] selects. *)
Definition placementEvent (withExif : bool) (e : Event) : bool :=
  notTagsLog e && (if withExif then notCopyCall e else notWriterCall e).




(** The keyword request of [llava_analyze_image] for the picture [buf]. *)
Definition keywordsRequest `{Platform} (buf : list Z) : Request :=
  {| model := "llava"; prompt := keywordsPrompt; images := [base64 buf];
     stream := false |}.

(** What the endpoint answers to the keyword request. *)
Definition keywordsAnswer `{Platform} (env : Env) (buf : list Z) : HttpOutcome :=
  http env (ollamaUrl (argv env) +:+ "/api/generate") (keywordsRequest buf).

(** A character that [toLowerCase] leaves as it is. *)
Definition fixedByLower (c : ascii) : bool :=
  Ascii.eqb (JSString.lowerChar c) c.

(** A string that does not start with white space. *)
Definition noLeadingSpace (s : string) : bool :=
  match s with
  | String c _ => negb (JSString.isWhiteSpace c)
  | EmptyString => true
  end.

(** ** Vocabulary of the statements about whole runs *)

Definition isPost (e : Event) : bool :=
  match e with EvPost _ _ => true | _ => false end.

Definition notPost (e : Event) : bool := negb (isPost e).

(** Events of the stages before the model is asked. *)
Definition planOnly (e : Event) : bool :=
  beforeDecision e && notPost e && notTagsLog e.


(** The events of lines 444-451. *)
Definition isMoveEvent (e : Event) : bool :=
  match e with
  | EvLog (LogMove _ _) | EvMove _ _ => true
  | _ => false
  end.

(** The address both requests go to. *)
Definition apiUrl (env : Env) : string :=
  (ollamaUrl (argv env) +:+ "/api/generate")%string.

(** The caption request of [llava_analyze_image] for the picture [buf]. *)
Definition captionRequest `{Platform} (buf : list Z) : Request :=
  {| model := "llava"; prompt := captionPrompt; images := [base64 buf];
     stream := false |}.

(** What [sendLLMRequest] makes of an outcome of the post. *)
Definition answerOf (o : HttpOutcome) : JSValue :=
  match o with
  | Resolved (Some v) => v
  | _ => VArray []
  end.

(** What [sendLLMRequest] logs for an outcome of the post. *)
Definition failureLog (o : HttpOutcome) : list Event :=
  match o with
  | Rejected =>
      [EvLog LogAxios;
       EvLog (LogErr "Error:" (TypeError "response is undefined"))]
  | Resolved None => [EvLog (LogErr "Error:" (TypeError "response.data is null"))]
  | Resolved (Some _) => []
  end.

(** The run of [processFile] on [filePath] ends before line 394: no such
    path, not a file, no supported extension, a probe that fails, or a
    keyword answer that is not a string. *)
Definition stopsEarly `{Platform} (env : Env) (filePath : string)
    (f0 : gmap string FsNode) : Prop :=
  match f0 !! filePath with
  | Some (File _ data) =>
      isPicture (JSString.toLowerCase filePath)
      || isVideo (JSString.toLowerCase filePath) = false
      \/ (isVideo (JSString.toLowerCase filePath) = true
          /\ ffprobe env filePath = None)
      \/ (processLlm env (JSString.toLowerCase filePath) = true
          /\ forall s,
               answerOf (http env (apiUrl env) (keywordsRequest data))
               <> VString s)
  | _ => True
  end.

(** From [f0] to [f1] directories were added and nothing else changed. *)
Definition dirsAdded (f0 f1 : gmap string FsNode) : Prop :=
  f0 ⊆ f1
  /\ forall p mt c, f1 !! p = Some (File mt c) -> f0 !! p = Some (File mt c).

(** [f1] is [f0] with a new file holding [bytes] at the path [dst], which
    was free, and possibly with more directories. *)
Definition deposited (now : Z) (dst : string) (bytes : list Z)
    (f0 f1 : gmap string FsNode) : Prop :=
  f0 !! dst = None
  /\ f1 !! dst = Some (File now bytes)
  /\ f0 ⊆ f1
  /\ forall p mt c,
       f1 !! p = Some (File mt c) -> p = dst \/ f0 !! p = Some (File mt c).

(** Where line 446 moves the original to. *)
Definition processedPath `{Platform} (env : Env) (dir filePath : string)
    : string :=
  Path.join [dir; path_relative (sourceDir (argv env)) filePath].

(** No directory for processed originals is configured. *)
Definition keepsOriginals (env : Env) : Prop :=
  match processedDir (argv env) with
  | Some dir => JSString.truthy dir = false
  | None => True
  end.

(** What lines 444-451 make of the file system [f3] that holds the original
    [filePath]: nothing, when no directory for processed originals is
    configured or the move fails, or the original moved to its processed
    path. *)
Definition moveOutcome `{Platform} (env : Env) (filePath : string) (mt : Z)
    (data : list Z) (f3 : gmap string FsNode) (r : Result unit)
    (f' : gmap string FsNode) : Prop :=
  (f' = f3 /\ (r = Ok tt -> keepsOriginals env))
  \/ exists dir f4,
       processedDir (argv env) = Some dir
       /\ JSString.truthy dir = true
       /\ r = Ok tt
       /\ processedPath env dir filePath <> filePath
       /\ Fs.mkdirs (Path.ancestors (processedPath env dir filePath)) f3
          = Some f4
       /\ f' = <[processedPath env dir filePath := File mt data]>
                 (delete filePath f4).

(** The bytes that are placed: the picture with its EXIF block updated when
    the writer is used, the bytes of the original otherwise. *)
Definition placedBytes `{Platform} (withExif : bool) (e : ExifData)
    (tags : list string) (caption : JSValue) (data bytes : list Z) : Prop :=
  if withExif then
    exists e' eb,
      exifAddTags e tags caption = Ok e'
      /\ piexif_dump e' = Some eb
      /\ piexif_insert eb data = Some bytes
  else bytes = data.

(** What placing the picture [filePath] makes of the file system [f0]: on
    a failure before the picture is written, at most new directories; else
    the picture deposited at a free path, and then the original moved or
    left. *)
Definition placeOutcome `{Platform} (env : Env) (filePath : string) (mt : Z)
    (data : list Z) (withExif : bool) (e : ExifData) (tags : list string)
    (caption : JSValue) (f0 : gmap string FsNode) (r : Result unit)
    (f' : gmap string FsNode) : Prop :=
  ((exists err, r = Thrown err) /\ dirsAdded f0 f')
  \/ exists dst bytes f3,
       deposited (now env) dst bytes f0 f3
       /\ placedBytes withExif e tags caption data bytes
       /\ moveOutcome env filePath mt data f3 r f'.

(** What lines 430-442 do once the name [dst] is settled: with the writer,
    the announcement and then the write of the picture with its updated EXIF
    block, as far as the block can be updated and serialized; else the
    announcement and the copy. *)
Definition depositEvents `{Platform} (withExif : bool) (e : ExifData)
    (tags : list string) (caption : JSValue) (data : list Z)
    (filePath dst : string) : list Event :=
  if withExif then
    match exifAddTags e tags caption with
    | Thrown _ => []
    | Ok e' =>
        EvLog (LogCopyExif filePath dst)
        :: match piexif_dump e' with
           | None => []
           | Some exifBytes =>
               match piexif_insert exifBytes data with
               | None => []
               | Some bytes => [EvWriteFile dst bytes]
               end
           end
    end
  else [EvLog (LogCopy filePath dst); EvCopy filePath dst].

(** The tests of the collision loop that ends on its [n]-th attempt. *)
Definition loopEvents (destPath filePath destFilePath : string) (n : nat)
    : list Event :=
  (map (fun i => EvPathExists (attempt destPath filePath destFilePath 1 i) true)
       (seq 0 n)
   ++ [EvPathExists (attempt destPath filePath destFilePath 1 n) false])%list.

(** Events after the picture is deposited: the move of the original, and
    the error that ends the run. *)
Definition afterDeposit (e : Event) : bool :=
  isMoveEvent e || match e with EvLog (LogErr _ _) => true | _ => false end.

(** The run gets as far as the destination directory: the path is a file
    with a supported extension, the probe of a video answers, and the
    keyword request of a picture to enrich is answered with a string. *)
Definition reachesPlacement `{Platform} (env : Env) (filePath : string)
    (f0 : gmap string FsNode) : Prop :=
  exists mt data,
    f0 !! filePath = Some (File mt data)
    /\ isPicture (JSString.toLowerCase filePath)
       || isVideo (JSString.toLowerCase filePath) = true
    /\ (isVideo (JSString.toLowerCase filePath) = true ->
          exists v, ffprobe env filePath = Some v)
    /\ (processLlm env (JSString.toLowerCase filePath) = true ->
          exists s,
            answerOf (http env (apiUrl env) (keywordsRequest data)) = VString s).

(** The date and the location that lines 313-382 resolve for the file
    [filePath], last modified at [mt], with the content [data]: read from
    the EXIF block of a file with a JPEG extension, and the modification
    time without a location for any other file. *)
Definition resolved `{Platform} (filePath : string) (cities : list City)
    (mt : Z) (data : list Z) (date : JSDate.t) (location : option string)
    : Prop :=
  if isJpegType (JSString.toLowerCase filePath) then
    (forall s, fst (extractDate filePath (JSDate.ofTime mt)
                      (ifdExif (loadExifData data)) s) = Ok date)
    /\ (forall s, fst (extractLocation filePath cities
                         (ifdGPS (loadExifData data)) s) = Ok location)
  else date = JSDate.ofTime mt /\ location = None.

(** The tag list of lines 384-392: the normalized keyword answer of a file
    that is enriched, [false] for any other file. *)
Definition enrichedTags `{Platform} (env : Env) (filePath : string)
    (data : list Z) : option (list string) :=
  if processLlm env (JSString.toLowerCase filePath) then
    match answerOf (http env (apiUrl env) (keywordsRequest data)) with
    | VString s => Some (normalizeTags s)
    | _ => None
    end
  else None.

Definition enrichedCaption `{Platform} (env : Env) (data : list Z) : JSValue :=
  answerOf (http env (apiUrl env) (captionRequest data)).


(** The calls and the announcements that deposit a file. *)
Definition isDeposit (e : Event) : bool :=
  match e with
  | EvWriteFile _ _ | EvCopy _ _ => true
  | EvLog (LogCopyExif _ _) | EvLog (LogCopy _ _) => true
  | _ => false
  end.

Definition notDeposit (e : Event) : bool := negb (isDeposit e).

(** [m] changes nothing but the trace. *)
Definition onlyLogs {A} (m : M A) : Prop :=
  forall st, exists evs, snd (m st) = after st evs.

(** ** Scenarios over the example platform *)

Module Scenario.
Import Example.

(** Enrichment off, nothing moved away. *)
Definition quiet : Env := world (args false None) Rejected Rejected.

(** Enrichment on, with the answers of the specification's example. *)
Definition tagging : Env :=
  world (args true None) (answered "Beach, Sunset, Family")
    (answered "A beach").

(** Enrichment on, the keyword request rejected. *)
Definition keywordsRejected : Env :=
  world (args true None) Rejected (answered "A beach").

(** Enrichment on, the keyword request rejected for the picture [buf] and
    answered for every other picture. *)
Definition keywordsRejectedFor (buf : list Z) : Env :=
  {| argv := args true None;
     http := fun url req =>
       if String.eqb (prompt req) keywordsPrompt then
         match images req with
         | [image] =>
             if String.eqb image (base64 buf) then Rejected
             else answered "Beach"
         | _ => answered "Beach"
         end
       else answered "A beach";
     ffprobe := fun p => Some "format=mp4";
     now := 1800000000000 |}.

(** Enrichment off, the originals moved to [done]. *)
Definition moving : Env := world (args false (Some "done")) Rejected Rejected.

(** Enrichment on, one keyword answered. *)
Definition oneKeyword : Env :=
  world (args true None) (answered "Beach") (answered "A beach").

(** The events of [processFile] on [f] in a source tree holding [files]. *)
Definition events (env : Env) (f : string) (files : list (string * FsNode))
    : list Event :=
  eventsOf (processFile env f "dest" cities) (start files).

(** The file system after [processFile] on [f]. *)
Definition outcome (env : Env) (f : string) (files : list (string * FsNode))
    : gmap string FsNode :=
  fs (snd (processFile env f "dest" cities (start files))).

(** A picture whose header byte selects the EXIF block [k]. *)
Definition picture (k : Z) : FsNode := File mtime0 [k; 7; 7].

(** A destination day that already holds [IMG_1.jpg] and [IMG_1_1.jpg]. *)
Definition twoTaken : State :=
  start [("src/IMG_1.jpg", picture 0);
         ("dest/2024/03/02/IMG_1.jpg", picture 0);
         ("dest/2024/03/02/IMG_1_1.jpg", picture 0)].

(** A destination day that already holds the tagged name of [src/IMG.jpg]. *)
Definition taggedTaken : list (string * FsNode) :=
  [("src/IMG.jpg", picture 0); ("dest/2024/03/02/IMG-beach.jpg", picture 0)].

(** Two records at distance 1 from the origin, and one whose latitude is
    not a number. *)
Definition north : City :=
  {| city := "North"; iso2 := "AA"; country := "A"; lat := "1"; lng := "0" |}.

Definition east : City :=
  {| city := "East"; iso2 := "BB"; country := "B"; lat := "0"; lng := "1" |}.

Definition nowhere : City :=
  {| city := "Nowhere"; iso2 := "CC"; country := "C"; lat := "north";
     lng := "0" |}.

End Scenario.

(** ** Properties *)

Example split_example :
  JSString.split "," "a,,b" = ["a"; ""; "b"].
Proof. reflexivity. Qed.

Example sort_example :
  JSString.sort ["b"; "a"; ""; "B"] = [""; "B"; "a"; "b"].
Proof. vm_compute. reflexivity. Qed.

Example trim_example : JSString.trim "  a b  " = "a b".
Proof. reflexivity. Qed.

Example pad_example : JSString.padStart 2 "0" (pretty 3%Z) = "03".
Proof. reflexivity. Qed.

Example replace_example : JSString.replaceWsRuns "_" false "a  b c" = "a_b_c".
Proof. reflexivity. Qed.

Example join_example :
  Path.join ["./dest"; "2024"; "03"; "02"] = "dest/2024/03/02"
  /\ Path.join ["/a/b"; "../c"; "x.jpg"] = "/a/c/x.jpg"
  /\ Path.join ["a"; ".."; ".."; "b/"] = "../b/".
Proof. repeat split; reflexivity. Qed.

Example parse_example :
  Path.splitExt "IMG_1.jpg" = ("IMG_1", ".jpg")
  /\ Path.splitExt ".bashrc" = (".bashrc", "")
  /\ Path.splitExt "a.tar.gz" = ("a.tar", ".gz")
  /\ Path.splitExt ".." = ("..", "")
  /\ Path.splitExt "..." = ("..", ".")
  /\ Path.splitExt "a." = ("a", ".")
  /\ Path.basename "/src/d/IMG_1.jpg" = "IMG_1.jpg"
  /\ Path.ancestors "dest/2024/03" = ["dest"; "dest/2024"].
Proof. repeat split; reflexivity. Qed.

Example date_example :
  let d := JSDate.fromFields 2023 11 25 8 0 0 in
  d = Some 1703491200000
  /\ JSDate.getFullYear d = Some 2023
  /\ JSDate.getMonth d = Some 11
  /\ JSDate.getDate d = Some 25
  /\ JSDate.civil (JSDate.fromFields 2024 1 30 0 0 0) = Some (2024, 3, 1)
  /\ JSDate.civil (JSDate.fromFields 1969 12 0 0 0 (-1)) = Some (1969, 12, 30)
  /\ JSDate.fromFields 2023 JSNumber.NaN 1 0 0 0 = None.
Proof. vm_compute. repeat split; reflexivity. Qed.

Lemma SFcompare_le_lt_trans a b c :
  SFcompare a b = Some Lt \/ SFcompare a b = Some Eq ->
  SFcompare b c = Some Lt -> SFcompare a c = Some Lt.
Proof.
  destruct a as [sa|sa| |sa ma ea], b as [sb|sb| |sb mb eb],
    c as [sc|sc| |sc mc ec];
    try destruct sa; try destruct sb; try destruct sc; simpl;
    intros [H1|H1] H2; try discriminate; try reflexivity;
    change (Pos.compare_cont Eq ?x ?y) with (Pos.compare x y) in *;
    revert H1 H2;
    destruct (Z.compare_spec ea eb), (Z.compare_spec eb ec),
      (Z.compare_spec ea ec); try lia; simpl; try discriminate; try reflexivity;
    subst;
    destruct (Pos.compare_spec ma mb), (Pos.compare_spec mb mc),
      (Pos.compare_spec ma mc); try lia; simpl; try discriminate; try reflexivity.
Qed.

Lemma float_ltb_trans (x y z : float) :
  (x <? y)%float = true -> (y <? z)%float = true -> (x <? z)%float = true.
Proof.
  rewrite !ltb_spec. unfold SFltb. intros H1 H2.
  destruct (SFcompare (Prim2SF x) (Prim2SF y)) as [[]|] eqn:E1; try discriminate.
  destruct (SFcompare (Prim2SF y) (Prim2SF z)) as [[]|] eqn:E2; try discriminate.
  rewrite (SFcompare_le_lt_trans _ _ _ (or_introl E1) E2). reflexivity.
Qed.

Lemma float_leb_ltb_trans (x y z : float) :
  (x <=? y)%float = true -> (y <? z)%float = true -> (x <? z)%float = true.
Proof.
  rewrite leb_spec, !ltb_spec. unfold SFleb, SFltb. intros H1 H2.
  destruct (SFcompare (Prim2SF y) (Prim2SF z)) as [[]|] eqn:E2; try discriminate.
  destruct (SFcompare (Prim2SF x) (Prim2SF y)) as [[]|] eqn:E1; try discriminate.
  - rewrite (SFcompare_le_lt_trans _ _ _ (or_intror E1) E2). reflexivity.
  - rewrite (SFcompare_le_lt_trans _ _ _ (or_introl E1) E2). reflexivity.
Qed.

Lemma float_ltb_irrefl (x : float) : (x <? x)%float = false.
Proof.
  rewrite ltb_spec. unfold SFltb.
  destruct (Prim2SF x) as [s|s| |s m e]; try destruct s; simpl; try reflexivity;
    rewrite Z.compare_refl;
    change (Pos.compare_cont Eq ?x ?y) with (Pos.compare x y);
    rewrite Pos.compare_refl; reflexivity.
Qed.

Lemma SFcompare_refl_lt a b :
  SFcompare a b = Some Lt -> SFcompare a a = Some Eq.
Proof.
  destruct a as [sa|sa| |sa ma ea], b as [sb|sb| |sb mb eb];
    try destruct sa; try destruct sb; simpl; intros Hlt;
    try discriminate; try reflexivity;
    clear Hlt; rewrite ?Z.compare_refl;
    change (Pos.compare_cont Eq ?x ?y) with (Pos.compare x y);
    rewrite ?Pos.compare_refl; reflexivity.
Qed.

Lemma SFcompare_total a b :
  SFcompare a a = Some Eq -> SFcompare b b = Some Eq ->
  SFcompare a b = Some Lt
  \/ (SFcompare b a = Some Lt \/ SFcompare b a = Some Eq).
Proof.
  destruct a as [sa|sa| |sa ma ea], b as [sb|sb| |sb mb eb];
    try destruct sa; try destruct sb; simpl; intros Ha Hb;
    try discriminate; auto;
    change (Pos.compare_cont Eq ?x ?y) with (Pos.compare x y) in *;
    destruct (Z.compare_spec ea eb), (Z.compare_spec eb ea); try lia; auto;
    subst;
    destruct (Pos.compare_spec ma mb), (Pos.compare_spec mb ma); try lia;
    simpl; auto.
Qed.

(** A float below another one is a number. *)
Lemma float_ltb_number (x y : float) :
  (x <? y)%float = true -> (x =? x)%float = true.
Proof.
  rewrite ltb_spec, FloatAxioms.eqb_spec. unfold SFltb, SFeqb. intros H.
  destruct (SFcompare (Prim2SF x) (Prim2SF y)) as [[]|] eqn:E; try discriminate.
  rewrite (SFcompare_refl_lt _ _ E). reflexivity.
Qed.

(** Two numbers are comparable. *)
Lemma float_not_ltb_leb (x y : float) :
  (x =? x)%float = true -> (y =? y)%float = true ->
  (x <? y)%float = false -> (y <=? x)%float = true.
Proof.
  rewrite leb_spec, ltb_spec, !FloatAxioms.eqb_spec. unfold SFleb, SFltb, SFeqb.
  intros Hx Hy Hlt.
  destruct (SFcompare (Prim2SF x) (Prim2SF x)) as [[]|] eqn:Ex; try discriminate.
  destruct (SFcompare (Prim2SF y) (Prim2SF y)) as [[]|] eqn:Ey; try discriminate.
  destruct (SFcompare_total _ _ Ex Ey) as [E|[E|E]]; rewrite E in *;
    [discriminate|reflexivity|reflexivity].
Qed.

Section Nearest.
Context `{Platform}.
Variables latitude longitude : float.

Lemma scanInv_step seen acc c :
  scanInv latitude longitude seen acc ->
  scanInv latitude longitude (seen ++ [c])%list (nearestStep latitude longitude acc c).
Proof.
  unfold scanInv, nearestStep. destruct acc as [[b|] m]; simpl.
  - intros [-> (Hfin & i & Hi & Hmin & Hfirst)].
    destruct (distanceTo latitude longitude c <? distanceTo latitude longitude b)%float
      eqn:Hlt; simpl.
    + split; [reflexivity|].
      split; [exact (float_ltb_trans _ _ _ Hlt Hfin)|].
      exists (length seen). split.
      { rewrite lookup_app_r, Nat.sub_diag by lia. reflexivity. }
      split.
      * intros c' [Hc'| ->%list_elem_of_singleton]%elem_of_app.
        -- destruct (distanceTo latitude longitude c' <? distanceTo latitude longitude c)%float
             eqn:E; [|reflexivity].
           pose proof (float_ltb_trans _ _ _ E Hlt) as Hc.
           rewrite (Hmin c' Hc') in Hc. discriminate.
        -- apply float_ltb_irrefl.
      * intros j c' Hj Hl. rewrite lookup_app_l in Hl by lia.
        destruct (distanceTo latitude longitude c' <=? distanceTo latitude longitude c)%float
          eqn:E; [|reflexivity].
        pose proof (float_leb_ltb_trans _ _ _ E Hlt) as Hc.
        rewrite (Hmin c') in Hc; [discriminate|].
        eapply list_elem_of_lookup_2; eauto.
    + split; [reflexivity|]. split; [exact Hfin|]. exists i. split.
      { rewrite lookup_app_l; [exact Hi|]. eapply lookup_lt_Some; eauto. }
      split.
      * intros c' [Hc'| ->%list_elem_of_singleton]%elem_of_app; auto.
      * intros j c' Hj Hl. apply (Hfirst j c' Hj).
        rewrite lookup_app_l in Hl; [exact Hl|].
        apply lookup_lt_Some in Hi. lia.
  - intros [-> Hnone].
    destruct (distanceTo latitude longitude c <? JSNumber.Infinity)%float eqn:Hlt; simpl.
    + split; [reflexivity|]. split; [exact Hlt|]. exists (length seen). split.
      { rewrite lookup_app_r, Nat.sub_diag by lia. reflexivity. }
      split.
      * intros c' [Hc'| ->%list_elem_of_singleton]%elem_of_app.
        -- destruct (distanceTo latitude longitude c' <? distanceTo latitude longitude c)%float
             eqn:E; [|reflexivity].
           pose proof (float_ltb_trans _ _ _ E Hlt) as Hc.
           rewrite (Hnone c' Hc') in Hc. discriminate.
        -- apply float_ltb_irrefl.
      * intros j c' Hj Hl. rewrite lookup_app_l in Hl by lia.
        destruct (distanceTo latitude longitude c' <=? distanceTo latitude longitude c)%float
          eqn:E; [|reflexivity].
        pose proof (float_leb_ltb_trans _ _ _ E Hlt) as Hc.
        rewrite (Hnone c') in Hc; [discriminate|].
        eapply list_elem_of_lookup_2; eauto.
    + split; [reflexivity|].
      intros c' [Hc'| ->%list_elem_of_singleton]%elem_of_app; auto.
Qed.

Lemma scanInv_fold rest : forall seen acc,
  scanInv latitude longitude seen acc ->
  scanInv latitude longitude (seen ++ rest)%list
    (fold_left (nearestStep latitude longitude) rest acc).
Proof.
  induction rest as [|c rest IH]; intros seen acc Hinv; simpl.
  - rewrite app_nil_r. exact Hinv.
  - replace (seen ++ c :: rest)%list with ((seen ++ [c]) ++ rest)%list
      by (rewrite <- app_assoc; reflexivity).
    apply IH, scanInv_step, Hinv.
Qed.

End Nearest.

(** C6.  [findNearestCity] returns a record of the table that minimizes the
    planar Euclidean distance on the raw (latitude, longitude) pairs, the
    square root of the sum of the squared differences of the coordinates as
    line 111 computes it in binary64 from the [parseFloat] of the two
    columns.  The record returned has a distance below [Infinity], so its
    coordinates parse; no record of the table is strictly closer, and its
    distance is at most that of every record whose distance is a number.  On
    a tie the first record in table order wins: no earlier record is as
    close, because line 112 replaces the best record only on a strictly
    smaller distance.  Nothing is returned only when no record has a
    distance below [Infinity] (an empty table, or coordinates that do not
    parse). *)
Theorem findNearestCity_minimal `{Platform} (cities : list City)
    (latitude longitude : float) :
  let planar := fun c : City =>
    PrimFloat.sqrt
      ((latitude - parseFloat (lat c)) * (latitude - parseFloat (lat c))
       + (longitude - parseFloat (lng c)) * (longitude - parseFloat (lng c)))%float
  in
  match findNearestCity cities latitude longitude with
  | Some best =>
      exists i, cities !! i = Some best
      /\ (planar best <? PrimFloat.infinity)%float = true
      /\ (forall c, c ∈ cities -> (planar c <? planar best)%float = false)
      /\ (forall c, c ∈ cities -> (planar c =? planar c)%float = true ->
            (planar best <=? planar c)%float = true)
      /\ (forall j c, (j < i)%nat -> cities !! j = Some c ->
            (planar c <=? planar best)%float = false)
  | None =>
      forall c, c ∈ cities -> (planar c <? PrimFloat.infinity)%float = false
  end.
Proof.
  intros planar.
  pose proof (scanInv_fold latitude longitude cities []
                (None, JSNumber.Infinity)) as Hinv.
  unfold findNearestCity. simpl in Hinv.
  assert (scanInv latitude longitude [] (None, JSNumber.Infinity)) as H0.
  { split; [reflexivity|]. intros c Hc. inversion Hc. }
  specialize (Hinv H0). clear H0.
  destruct (fold_left (nearestStep latitude longitude) cities
              (None, JSNumber.Infinity)) as [[b|] m];
    unfold scanInv in Hinv; cbn [fst snd] in *.
  - destruct Hinv as (_ & Hfin & i & Hi & Hmin & Hfirst).
    change (distanceTo latitude longitude) with planar in *.
    exists i. split; [exact Hi|]. split; [exact Hfin|].
    split; [exact Hmin|]. split; [|exact Hfirst].
    intros c Hc Hnum. apply float_not_ltb_leb;
      [exact Hnum|eapply float_ltb_number, Hfin|apply Hmin, Hc].
  - destruct Hinv as [_ Hnone]. exact Hnone.
Qed.

(** *** Strings *)

Lemma app_cons c a b : String c a +:+ b = String c (a +:+ b).
Proof. reflexivity. Qed.

Lemma app_nil_l s : "" +:+ s = s.
Proof. reflexivity. Qed.

Lemma app_nil_r s : s +:+ "" = s.
Proof. induction s as [|c s IH]; [reflexivity|]. rewrite app_cons, IH. reflexivity. Qed.

Lemma app_assoc a b c : (a +:+ b) +:+ c = a +:+ (b +:+ c).
Proof.
  induction a as [|x a IH]; [reflexivity|].
  rewrite !app_cons, IH. reflexivity.
Qed.

Lemma chars_app a b :
  list_ascii_of_string (a +:+ b)
  = (list_ascii_of_string a ++ list_ascii_of_string b)%list.
Proof.
  induction a as [|x a IH]; [reflexivity|].
  rewrite app_cons. simpl. rewrite IH. reflexivity.
Qed.

Lemma chars_inj a b : list_ascii_of_string a = list_ascii_of_string b -> a = b.
Proof.
  intros E. rewrite <- (string_of_list_ascii_of_string a),
    <- (string_of_list_ascii_of_string b), E. reflexivity.
Qed.

Lemma app_inj_r a b c : a +:+ c = b +:+ c -> a = b.
Proof.
  intros E. apply chars_inj. apply (f_equal list_ascii_of_string) in E.
  rewrite !chars_app in E. eapply app_inv_tail, E.
Qed.

Lemma app_inj_l a b c : a +:+ b = a +:+ c -> b = c.
Proof. apply (inj (String.app a)). Qed.

Lemma lastChar_app a b : b <> "" -> lastChar (a +:+ b) = lastChar b.
Proof.
  intros Hb. induction a as [|x a IH]; [reflexivity|].
  rewrite app_cons. simpl. rewrite IH.
  destruct (a +:+ b) eqn:E; [|reflexivity].
  destruct a; [|discriminate]. simpl in E. contradiction.
Qed.

Lemma startsWith_rev_app s : forall acc c,
  s <> "" ->
  JSString.startsWith (String.rev_app s acc) (String c "")
  = match lastChar s with Some x => Ascii.eqb c x | None => false end.
Proof.
  induction s as [|a s IH]; intros acc c Hs; [contradiction|].
  simpl. destruct s as [|b s].
  - simpl. destruct (Ascii.eqb c a), acc; reflexivity.
  - rewrite IH by discriminate. reflexivity.
Qed.

Lemma endsWith_char s c :
  JSString.endsWith s (String c "")
  = match lastChar s with Some x => Ascii.eqb c x | None => false end.
Proof.
  unfold JSString.endsWith, String.rev.
  change (String.rev_app (String c "") "") with (String c "").
  destruct s as [|a s]; [reflexivity|].
  rewrite startsWith_rev_app by discriminate. reflexivity.
Qed.

(** *** [split] and [join] *)

Lemma lacks_app c a b : lacks c (a +:+ b) = lacks c a && lacks c b.
Proof. unfold lacks. rewrite chars_app, forallb_app. reflexivity. Qed.

Lemma split_not_nil c s : JSString.split c s <> [].
Proof.
  destruct s as [|a s]; simpl; [discriminate|].
  destruct (Ascii.eqb a c); [discriminate|].
  destruct (JSString.split c s); discriminate.
Qed.

Lemma split_app c a b :
  JSString.split c (a +:+ String c b)
  = (JSString.split c a ++ JSString.split c b)%list.
Proof.
  induction a as [|x a IH].
  - simpl. rewrite Ascii.eqb_refl. reflexivity.
  - rewrite app_cons. simpl. destruct (Ascii.eqb x c); rewrite IH.
    + reflexivity.
    + destruct (JSString.split c a) eqn:E; [|reflexivity].
      exfalso. eapply split_not_nil, E.
Qed.

Lemma split_lacks c s : lacks c s = true -> JSString.split c s = [s].
Proof.
  unfold lacks. induction s as [|x s IH]; [reflexivity|].
  simpl. intros [Hx Hs]%andb_true_iff.
  apply negb_true_iff in Hx. rewrite Hx, IH by exact Hs. reflexivity.
Qed.

Lemma split_elems_lack c s : Forall (fun x => lacks c x = true) (JSString.split c s).
Proof.
  induction s as [|a s IH]; simpl.
  - constructor; [reflexivity|constructor].
  - destruct (Ascii.eqb a c) eqn:E.
    + constructor; [reflexivity|exact IH].
    + destruct (JSString.split c s) as [|h t]; inversion IH; subst.
      * constructor; [|constructor]. unfold lacks. simpl. rewrite E. reflexivity.
      * constructor; [|assumption]. unfold lacks in *. simpl. rewrite E. simpl.
        assumption.
Qed.

Lemma join_cons_char sep a h t :
  JSString.join sep (String a h :: t) = String a (JSString.join sep (h :: t)).
Proof. destruct t; reflexivity. Qed.

Lemma join_split c s : JSString.join (String c "") (JSString.split c s) = s.
Proof.
  induction s as [|a s IH]; [reflexivity|]. simpl.
  destruct (Ascii.eqb_spec a c) as [->|Hne].
  - destruct (JSString.split c s) as [|h t] eqn:E.
    + exfalso. eapply split_not_nil, E.
    + change (JSString.join (String c "") ("" :: h :: t))
        with ("" +:+ String c "" +:+ JSString.join (String c "") (h :: t)).
      rewrite IH. reflexivity.
  - destruct (JSString.split c s) as [|h t] eqn:E.
    + exfalso. eapply split_not_nil, E.
    + rewrite join_cons_char, IH. reflexivity.
Qed.

Lemma join_snoc sep l x :
  JSString.join sep (l ++ [x])
  = match l with [] => "" | _ => JSString.join sep l +:+ sep end +:+ x.
Proof.
  induction l as [|a l IH]; [reflexivity|].
  destruct l as [|b l].
  - simpl. rewrite app_assoc. reflexivity.
  - change (JSString.join sep ((a :: b :: l) ++ [x]))
      with (a +:+ sep +:+ JSString.join sep ((b :: l) ++ [x])).
    rewrite IH.
    change (JSString.join sep (a :: b :: l))
      with (a +:+ sep +:+ JSString.join sep (b :: l)).
    rewrite !app_assoc. reflexivity.
Qed.

Lemma join_app sep l1 l2 :
  l2 <> [] ->
  JSString.join sep (l1 ++ l2)
  = match l1 with [] => "" | _ => JSString.join sep l1 +:+ sep end
    +:+ JSString.join sep l2.
Proof.
  revert l1. induction l2 as [|x l2 IH] using rev_ind; intros l1 Hne;
    [contradiction|].
  destruct l2 as [|y l2].
  - simpl. apply join_snoc.
  - rewrite List.app_assoc, join_snoc, (join_snoc sep (y :: l2)).
    rewrite IH by discriminate.
    destruct l1 as [|a l1]; simpl List.app; cbv iota; rewrite ?app_assoc; reflexivity.
Qed.

(** *** [Path.join] on plain segments *)

Lemma isPlain_spec seg :
  Path.isPlain seg = true ->
  seg <> "" /\ seg <> "." /\ seg <> ".." /\ lacks "/" seg = true.
Proof.
  unfold Path.isPlain, Path.nonEmpty.
  intros [[[H1 H2]%andb_true_iff H3]%andb_true_iff H4]%andb_true_iff.
  apply negb_true_iff, String.eqb_neq in H2, H3.
  repeat split; try assumption.
  intros ->. discriminate.
Qed.

Lemma normStep_plain b stack seg :
  Path.isPlain seg = true -> Path.normStep b stack seg = seg :: stack.
Proof.
  intros (H1 & H2 & H3 & _)%isPlain_spec. unfold Path.normStep.
  apply String.eqb_neq in H1, H2, H3. rewrite H1, H2, H3. reflexivity.
Qed.

Lemma fold_normStep_plain b segs :
  Forall (fun s => Path.isPlain s = true) segs ->
  forall stack, fold_left (Path.normStep b) segs stack = (rev segs ++ stack)%list.
Proof.
  induction 1 as [|s segs Hs _ IH]; intros stack; [reflexivity|].
  simpl. rewrite normStep_plain, IH by exact Hs.
  rewrite <- List.app_assoc. reflexivity.
Qed.

Lemma split_join_plain segs :
  segs <> [] -> Forall (fun s => Path.isPlain s = true) segs ->
  JSString.split "/" (JSString.join "/" segs) = segs.
Proof.
  intros Hne Hall. induction Hall as [|s segs Hs Hall IH]; [contradiction|].
  apply isPlain_spec in Hs as (_ & _ & _ & Hs).
  destruct segs as [|t segs].
  - simpl. apply split_lacks, Hs.
  - change (JSString.join "/" (s :: t :: segs))
      with (s +:+ String "/" (JSString.join "/" (t :: segs))).
    rewrite split_app, IH, split_lacks by (assumption || discriminate).
    reflexivity.
Qed.

Lemma lastChar_lacks c s : lacks c s = true -> lastChar s <> Some c.
Proof.
  unfold lacks. induction s as [|x s IH]; [discriminate|].
  simpl. intros [Hx Hs]%andb_true_iff. destruct s as [|y s].
  - intros [= ->]. rewrite Ascii.eqb_refl in Hx. discriminate.
  - apply IH, Hs.
Qed.

Lemma endsWith_sep_join_plain x segs :
  segs <> [] -> Forall (fun s => Path.isPlain s = true) segs ->
  JSString.endsWith (x +:+ JSString.join "/" segs) "/" = false.
Proof.
  intros Hne Hall. rewrite endsWith_char.
  destruct (exists_last Hne) as (l & s & ->).
  apply Forall_app in Hall as [_ Hs]. inversion Hs as [|? ? Hs' _]; subst.
  apply isPlain_spec in Hs' as (Hs1 & _ & _ & Hs4).
  rewrite join_snoc, <- app_assoc, lastChar_app by exact Hs1.
  pose proof (lastChar_lacks _ _ Hs4) as Hl.
  destruct (lastChar s) as [c|]; [|reflexivity].
  destruct (Ascii.eqb_spec "/" c) as [<-|]; [contradiction|reflexivity].
Qed.

Lemma startsWith_char c s x :
  JSString.startsWith (String c s) (String x "") = Ascii.eqb x c.
Proof. cbn [JSString.startsWith]. destruct (Ascii.eqb x c), s; reflexivity. Qed.

Lemma isAbsolute_cons c s : Path.isAbsolute (String c s) = Ascii.eqb "/" c.
Proof. apply startsWith_char. Qed.

Lemma isAbsolute_app d x : d <> "" -> Path.isAbsolute (d +:+ x) = Path.isAbsolute d.
Proof.
  destruct d as [|c d]; [contradiction|]. intros _.
  rewrite app_cons, !isAbsolute_cons. reflexivity.
Qed.

Lemma isAbsolute_plain s : Path.isPlain s = true -> Path.isAbsolute s = false.
Proof.
  intros (H1 & _ & _ & H4)%isPlain_spec. destruct s as [|c s]; [contradiction|].
  unfold lacks in H4. cbn [list_ascii_of_string forallb] in H4.
  apply andb_true_iff in H4 as [H4 _].
  rewrite isAbsolute_cons, Ascii.eqb_sym. apply negb_true_iff in H4. exact H4.
Qed.

Lemma join_not_empty segs :
  segs <> [] -> Forall (fun s => Path.isPlain s = true) segs ->
  JSString.join "/" segs <> "".
Proof.
  intros Hne Hall. destruct Hall as [|s segs Hs _]; [contradiction|].
  apply isPlain_spec in Hs as (H1 & _). destruct s as [|c s]; [contradiction|].
  rewrite join_cons_char. discriminate.
Qed.

Lemma normalize_plain segs :
  segs <> [] -> Forall (fun s => Path.isPlain s = true) segs ->
  Path.normalize (JSString.join "/" segs) = JSString.join "/" segs.
Proof.
  intros Hne Hall. unfold Path.normalize.
  pose proof (join_not_empty segs Hne Hall) as Hj.
  apply String.eqb_neq in Hj. rewrite Hj.
  assert (Path.isAbsolute (JSString.join "/" segs) = false) as ->.
  { destruct Hall as [|s segs Hs _]; [contradiction|].
    pose proof (isAbsolute_plain s Hs) as Ha.
    apply isPlain_spec in Hs as (H1 & _). destruct s as [|c s]; [contradiction|].
    rewrite join_cons_char. rewrite isAbsolute_cons in *. exact Ha. }
  pose proof (endsWith_sep_join_plain "" segs Hne Hall) as He.
  rewrite app_nil_l in He. rewrite He.
  unfold Path.normSegments. rewrite split_join_plain by assumption.
  rewrite fold_normStep_plain by assumption.
  rewrite List.app_nil_r, rev_involutive.
  destruct segs; [contradiction|]. rewrite app_nil_l, app_nil_r. reflexivity.
Qed.

Lemma filter_nonEmpty_plain segs :
  Forall (fun s => Path.isPlain s = true) segs ->
  List.filter Path.nonEmpty segs = segs.
Proof.
  induction 1 as [|s segs Hs _ IH]; [reflexivity|]. simpl.
  apply isPlain_spec in Hs as (H1 & _).
  destruct s; [contradiction|]. simpl. rewrite IH. reflexivity.
Qed.

Lemma join_cons_ne sep d l :
  l <> [] -> JSString.join sep (d :: l) = d +:+ sep +:+ JSString.join sep l.
Proof. destruct l; [contradiction|reflexivity]. Qed.

(** [path.join(d, s1, ..., sn)] with plain segments [s1..sn] is the
    normalized [d], a separator, and the segments joined by separators. *)
Lemma join_plain d segs :
  segs <> [] -> Forall (fun s => Path.isPlain s = true) segs ->
  Path.join (d :: segs) = dirPrefix d +:+ JSString.join "/" segs.
Proof.
  intros Hne Hall. unfold Path.join, dirPrefix.
  destruct d as [|c d].
  - simpl List.filter. rewrite filter_nonEmpty_plain by exact Hall.
    destruct segs as [|s segs']; [contradiction|].
    rewrite normalize_plain by assumption. reflexivity.
  - change (List.filter Path.nonEmpty (String c d :: segs))
      with (String c d :: List.filter Path.nonEmpty segs).
    rewrite filter_nonEmpty_plain by exact Hall.
    change (String.eqb (String c d) "") with false. cbv iota.
    rewrite join_cons_ne by exact Hne.
    unfold Path.normalize.
    rewrite app_cons.
    change (String.eqb (String c (d +:+ "/" +:+ JSString.join "/" segs)) "")
      with false. cbv iota.
    rewrite <- app_cons.
    rewrite isAbsolute_app by discriminate.
    assert (JSString.endsWith
              (String c d +:+ "/" +:+ JSString.join "/" segs) "/" = false) as ->.
    { rewrite <- app_assoc. apply endsWith_sep_join_plain; assumption. }
    unfold Path.normSegments.
    change ("/" +:+ JSString.join "/" segs)
      with (String "/" (JSString.join "/" segs)).
    rewrite split_app, split_join_plain, fold_left_app by assumption.
    rewrite fold_normStep_plain by assumption. rewrite rev_app_distr, rev_involutive.
    set (nd := rev (fold_left _ (JSString.split "/" (String c d)) [])).
    destruct (nd ++ segs)%list as [|x l] eqn:E.
    { apply app_eq_nil in E as [_ ->]. contradiction. }
    rewrite <- E. clear E x l.
    rewrite join_app by exact Hne. rewrite app_nil_r, app_assoc.
    destruct nd; reflexivity.
Qed.


(** *** [Path.join] onto a path that [Path.join] returned *)














(** *** Decimal numerals *)

Lemma allChars_app p a b : allChars p (a +:+ b) = allChars p a && allChars p b.
Proof. unfold allChars. rewrite chars_app, forallb_app. reflexivity. Qed.

Lemma pretty_N_char_digit x : isDigit (pretty_N_char x) = true.
Proof.
  unfold pretty_N_char.
  repeat (match goal with |- context [match ?v with _ => _ end] => destruct v end);
    reflexivity.
Qed.

Lemma pretty_N_go_digits x : forall s,
  allChars isDigit s = true -> allChars isDigit (pretty_N_go x s) = true.
Proof.
  induction (N.lt_wf_0 x) as [x _ IH]; intros s Hs.
  destruct (N.eq_dec x 0%N) as [->|Hx].
  - rewrite pretty_N_go_0. exact Hs.
  - rewrite pretty_N_go_step by lia. apply IH.
    + apply N.div_lt; lia.
    + unfold allChars in *. simpl. rewrite pretty_N_char_digit, Hs. reflexivity.
Qed.

Lemma pretty_N_digits (x : N) : allChars isDigit (pretty x) = true.
Proof.
  unfold pretty, pretty_N. destruct (decide (x = 0%N)); [reflexivity|].
  apply pretty_N_go_digits. reflexivity.
Qed.

Lemma pretty_nat_digits (k : nat) : allChars isDigit (pretty k) = true.
Proof. apply pretty_N_digits. Qed.

Lemma digits_lack c s :
  isDigit c = false -> allChars isDigit s = true -> lacks c s = true.
Proof.
  unfold allChars, lacks. intros Hc. induction (list_ascii_of_string s) as [|x l IH];
    [reflexivity|].
  simpl. intros [Hx Hl]%andb_true_iff. rewrite IH by exact Hl.
  destruct (Ascii.eqb_spec x c) as [->|]; [congruence|reflexivity].
Qed.

(** *** File names *)

Lemma last_Forall {A} (P : A -> Prop) l d : Forall P l -> P d -> P (List.last l d).
Proof.
  induction 1 as [|x l Hx Hl IH]; intros Hd; [exact Hd|].
  destruct l; [exact Hx|]. apply IH, Hd.
Qed.

Lemma Forall_filter_list {A} (P : A -> Prop) f l :
  Forall P l -> Forall P (List.filter f l).
Proof.
  induction 1 as [|x l Hx Hl IH]; simpl; [constructor|].
  destruct (f x); [constructor|]; assumption.
Qed.

Lemma basename_lacks p : lacks "/" (Path.basename p) = true.
Proof.
  unfold Path.basename.
  apply (last_Forall (fun x => lacks "/" x = true)); [|reflexivity].
  apply Forall_filter_list, split_elems_lack.
Qed.

(** [path.parse(p).name + path.parse(p).ext] is the base name. *)
Lemma splitExt_app b : fst (Path.splitExt b) +:+ snd (Path.splitExt b) = b.
Proof.
  unfold Path.splitExt.
  destruct (rev (JSString.split "." b)) as [|e [|x revInit]] eqn:E;
    simpl; try apply app_nil_r.
  destruct (_ || _); simpl; [apply app_nil_r|].
  pose proof (join_split "." b) as Hj.
  apply (f_equal (@rev string)) in E. rewrite rev_involutive in E.
  rewrite E in Hj. simpl rev in Hj. rewrite join_snoc in Hj.
  simpl rev.
  destruct (rev revInit ++ [x])%list eqn:E2.
  { apply app_eq_nil in E2 as [_ [=]]. }
  rewrite app_assoc in Hj. exact Hj.
Qed.

Lemma parse_lacks p :
  lacks "/" (Path.parseName p) = true /\ lacks "/" (Path.parseExt p) = true.
Proof.
  unfold Path.parseName, Path.parseExt. apply andb_true_iff.
  rewrite <- lacks_app, splitExt_app. apply basename_lacks.
Qed.

Lemma hasChar_app c a b : hasChar c (a +:+ b) = hasChar c a || hasChar c b.
Proof. unfold hasChar. rewrite chars_app, existsb_app. reflexivity. Qed.

(** The name tried at a collision is a plain segment. *)
Lemma collisionSegment_plain stem (k : nat) ext :
  lacks "/" stem = true -> lacks "/" ext = true ->
  Path.isPlain (stem +:+ "_" +:+ pretty k +:+ ext) = true.
Proof.
  intros Hs He.
  assert (hasChar "_" (stem +:+ "_" +:+ pretty k +:+ ext) = true) as Hu.
  { rewrite !hasChar_app. change (hasChar "_" "_") with true.
    rewrite orb_true_r. reflexivity. }
  assert (lacks "/" (stem +:+ "_" +:+ pretty k +:+ ext) = true) as Hl.
  { rewrite !lacks_app, Hs, He.
    rewrite (digits_lack "/" (pretty k)) by (reflexivity || apply pretty_nat_digits).
    reflexivity. }
  revert Hu Hl. generalize (stem +:+ "_" +:+ pretty k +:+ ext). intros seg Hu Hl.
  unfold Path.isPlain. fold (lacks "/" seg). rewrite Hl, andb_true_r.
  assert (seg <> "") as H0 by (intros ->; vm_compute in Hu; discriminate).
  assert (seg <> ".") as H1 by (intros ->; vm_compute in Hu; discriminate).
  assert (seg <> "..") as H2 by (intros ->; vm_compute in Hu; discriminate).
  apply String.eqb_neq in H1, H2. rewrite H1, H2.
  destruct seg; [contradiction|reflexivity].
Qed.

(** Distinct counters give distinct names. *)
Lemma collisionName_inj destPath filePath (j k : nat) :
  collisionName destPath filePath j = collisionName destPath filePath k -> j = k.
Proof.
  unfold collisionName. destruct (parse_lacks filePath) as [Hn He].
  rewrite !join_plain
    by (try discriminate; repeat constructor; apply collisionSegment_plain; assumption).
  cbn [JSString.join]. intros E.
  apply app_inj_l, app_inj_l, app_inj_l, app_inj_r in E.
  apply (inj pretty) in E. exact E.
Qed.

Lemma collisionName_eq destPath filePath (k : nat) :
  collisionName destPath filePath k
  = dirPrefix destPath +:+ Path.parseName filePath +:+ "_" +:+ pretty k
    +:+ Path.parseExt filePath.
Proof.
  unfold collisionName. destruct (parse_lacks filePath) as [Hn He].
  rewrite join_plain
    by (try discriminate; repeat constructor; apply collisionSegment_plain; assumption).
  reflexivity.
Qed.

(** *** Running the monad *)

Lemma bind_run {A B} (m : M A) (f : A -> M B) st :
  (m ≫= f) st
  = match m st with
    | (Ok a, st') => f a st'
    | (Thrown e, st') => (Thrown e, st')
    end.
Proof. reflexivity. Qed.

Lemma after_nil st : after st [] = st.
Proof. destruct st. unfold after. simpl. rewrite List.app_nil_r. reflexivity. Qed.

Lemma after_after st evs1 evs2 : after (after st evs1) evs2 = after st (evs1 ++ evs2).
Proof. unfold after. simpl. rewrite <- List.app_assoc. reflexivity. Qed.

Lemma emit_run e st : emit e st = (Ok tt, after st [e]).
Proof. reflexivity. Qed.

Lemma ret_run {A} (a : A) (st : State) : (mret a : M A) st = (Ok a, st).
Proof. reflexivity. Qed.

Lemma throw_run {A} e st : @throw A e st = (Thrown e, st).
Proof. reflexivity. Qed.

Lemma log_run l st : log l st = (Ok tt, after st [EvLog l]).
Proof. reflexivity. Qed.

Lemma get_run st : get st = (Ok st, st).
Proof. reflexivity. Qed.

Lemma setFs_run f st :
  setFs f st = (Ok tt, {| fs := f; exd := exd st; trace := trace st |}).
Proof. reflexivity. Qed.

Ltac run_monad :=
  repeat first
    [ rewrite bind_run | rewrite ret_run | rewrite throw_run | rewrite emit_run
    | rewrite log_run | rewrite get_run | rewrite setFs_run
    | rewrite after_after
    | progress cbv beta iota
    | progress cbn [fst snd fs exd trace after List.app] ].

Lemma pathExists_run p st :
  Fs.pathExists p st
  = (Ok (bool_decide (is_Some (fs st !! p))),
     after st [EvPathExists p (bool_decide (is_Some (fs st !! p)))]).
Proof. reflexivity. Qed.

(** *** The collision loop *)

Section Collision.

Variables destPath filePath : string.

Lemma attempt_shift p counter i :
  attempt destPath filePath (collisionName destPath filePath counter) (S counter) i
  = attempt destPath filePath p counter (S i).
Proof.
  destruct i as [|j]; simpl.
  - rewrite Nat.add_0_r. reflexivity.
  - f_equal. lia.
Qed.

(** The loop stops at the first free attempt, having tested the attempts
    before it and changed nothing. *)
Lemma collisionLoop_run n : forall fuel p counter st,
  (n < fuel)%nat ->
  (forall i, (i < n)%nat ->
     is_Some (fs st !! attempt destPath filePath p counter i)) ->
  fs st !! attempt destPath filePath p counter n = None ->
  collisionLoop fuel destPath filePath p counter st
  = (Ok (attempt destPath filePath p counter n),
     after st
       (map (fun i => EvPathExists (attempt destPath filePath p counter i) true)
            (seq 0 n)
        ++ [EvPathExists (attempt destPath filePath p counter n) false])).
Proof.
  induction n as [|n IH]; intros fuel p counter st Hfuel Hocc Hfree;
    (destruct fuel as [|fuel]; [lia|]); cbn [collisionLoop];
    rewrite bind_run, pathExists_run.
  - simpl in Hfree. rewrite Hfree.
    rewrite bool_decide_eq_false_2 by (intros [? [=]]). reflexivity.
  - pose proof (Hocc 0%nat ltac:(lia)) as H0. simpl in H0.
    rewrite bool_decide_eq_true_2 by exact H0.
    rewrite (IH fuel _ (S counter)).
    + rewrite (attempt_shift p), after_after. f_equal. f_equal.
      cbn [seq map]. rewrite <- seq_shift, map_map. simpl. f_equal. f_equal.
      apply map_ext. intros i. rewrite (attempt_shift p). reflexivity.
    + lia.
    + intros i Hi. rewrite (attempt_shift p). apply Hocc. lia.
    + rewrite (attempt_shift p). exact Hfree.
Qed.

Lemma least_or_none (P : nat -> Prop) `{forall n, Decision (P n)} k :
  (forall i, (i < k)%nat -> ~ P i)
  \/ exists n, (n < k)%nat /\ P n /\ forall i, (i < n)%nat -> ~ P i.
Proof.
  induction k as [|k [IH|IH]].
  - left. intros i Hi. lia.
  - destruct (decide (P k)) as [Hk|Hk].
    + right. exists k. split; [lia|]. split; [exact Hk|exact IH].
    + left. intros i Hi. destruct (decide (i = k)) as [->|]; [exact Hk|].
      apply IH. lia.
  - right. destruct IH as (n & Hn & HP & Hmin). exists n.
    split; [lia|]. split; assumption.
Qed.

(** A file system with [size] entries cannot hold [size + 1] numbered
    names. *)
Lemma numbered_names_not_all_taken (f : gmap string FsNode) counter :
  ~ forall j, (j <= size f)%nat ->
      is_Some (f !! collisionName destPath filePath (counter + j)).
Proof.
  intros Hall.
  set (names := map (fun j => collisionName destPath filePath (counter + j))
                  (seq 0 (S (size f)))).
  assert (NoDup names) as Hnd.
  { apply NoDup_fmap_2; [|apply NoDup_seq].
    intros j k E. apply collisionName_inj in E. lia. }
  assert (list_to_set names ⊆ dom f) as Hsub.
  { intros x Hx. apply elem_of_list_to_set in Hx.
    apply list_elem_of_In, in_map_iff in Hx as (j & <- & Hj).
    apply in_seq in Hj. apply elem_of_dom, Hall. lia. }
  apply subseteq_size in Hsub.
  rewrite size_list_to_set, size_dom in Hsub by exact Hnd.
  unfold names in Hsub. rewrite length_map, length_seq in Hsub. lia.
Qed.

Lemma first_free (f : gmap string FsNode) p counter :
  exists n, (n <= S (size f))%nat
    /\ f !! attempt destPath filePath p counter n = None
    /\ forall i, (i < n)%nat ->
         is_Some (f !! attempt destPath filePath p counter i).
Proof.
  destruct (least_or_none
              (fun i => f !! attempt destPath filePath p counter i = None)
              (S (S (size f)))) as [Hnone|(n & Hn & Hfree & Hmin)].
  - exfalso. apply (numbered_names_not_all_taken f counter).
    intros j Hj. specialize (Hnone (S j) ltac:(lia)). simpl in Hnone.
    destruct (f !! collisionName destPath filePath (counter + j)); [eauto|].
    contradiction.
  - exists n. split; [lia|]. split; [exact Hfree|].
    intros i Hi. specialize (Hmin i Hi).
    destruct (f !! attempt destPath filePath p counter i); [eauto|contradiction].
Qed.

(** With the fuel [processFile] gives it, the loop returns the first attempt
    that is free, after finding every earlier attempt taken. *)
Lemma collisionLoop_first_free st p counter :
  exists n,
    (n <= S (size (fs st)))%nat
    /\ fs st !! attempt destPath filePath p counter n = None
    /\ (forall i, (i < n)%nat ->
          is_Some (fs st !! attempt destPath filePath p counter i))
    /\ collisionLoop (S (S (size (fs st)))) destPath filePath p counter st
       = (Ok (attempt destPath filePath p counter n),
          after st
            (map (fun i =>
                    EvPathExists (attempt destPath filePath p counter i) true)
                 (seq 0 n)
             ++ [EvPathExists (attempt destPath filePath p counter n) false])).
Proof.
  destruct (first_free (fs st) p counter) as (n & Hn & Hfree & Hocc).
  exists n. repeat split; try assumption.
  apply collisionLoop_run; [lia|assumption..].
Qed.

(** The [while] loop of lines 423-428 terminates: with the fuel
    [processFile] gives it, it never runs out of fuel, it answers a path
    that is free, and it leaves the file system as it was. *)
Theorem collisionLoop_terminates st p counter :
  exists path,
    fst (collisionLoop (S (S (size (fs st)))) destPath filePath p counter st)
    = Ok path
    /\ fs st !! path = None
    /\ fs (snd (collisionLoop (S (S (size (fs st)))) destPath filePath p
                  counter st)) = fs st.
Proof.
  destruct (collisionLoop_first_free st p counter)
    as (n & _ & Hfree & _ & Hrun).
  exists (attempt destPath filePath p counter n).
  rewrite Hrun. repeat split. exact Hfree.
Qed.

(** With the path first computed and the names numbered 1 to N-1 taken and
    the name numbered N free, the loop answers the name numbered N, the
    number appended to the stem of the source file's name. *)
Theorem collisionLoop_next_suffix st p N :
  (1 <= N)%nat ->
  is_Some (fs st !! p) ->
  (forall k, (1 <= k < N)%nat ->
     is_Some (fs st !! collisionName destPath filePath k)) ->
  fs st !! collisionName destPath filePath N = None ->
  fst (collisionLoop (S (S (size (fs st)))) destPath filePath p 1 st)
  = Ok (collisionName destPath filePath N).
Proof.
  intros HN Hp Hocc Hfree.
  destruct (collisionLoop_first_free st p 1) as (n & Hn & Hnfree & Hnocc & Hrun).
  rewrite Hrun. simpl. f_equal.
  assert (n = N) as ->.
  { destruct (lt_eq_lt_dec n N) as [[Hlt| ->]|Hgt]; [|reflexivity|].
    - exfalso. destruct n as [|j]; simpl in Hnfree.
      + rewrite Hnfree in Hp. destruct Hp as [? [=]].
      + specialize (Hocc (S j) ltac:(lia)). rewrite Hnfree in Hocc.
        destruct Hocc as [? [=]].
    - exfalso. specialize (Hnocc N Hgt). destruct N as [|j]; [lia|].
      simpl in Hnocc. rewrite Hfree in Hnocc. destruct Hnocc as [? [=]]. }
  destruct N as [|j]; [lia|]. reflexivity.
Qed.

End Collision.

(** *** The option that nothing reads *)

(** C9.  The option [setGps] has no effect: two runs of [processFile] on
    the same file, from the same file system, under configurations that
    differ only in the value of [setGps], return the same result, leave the
    same file system (the same bytes under the same paths) and make the same
    calls in the same order.  The option is declared at lines 82-88 and no
    line reads it. *)
Theorem setGps_has_no_effect `{Platform} (env1 env2 : Env)
    (filePath dest : string) (cities : list City) (st : State) :
  sameButSetGps env1 env2 ->
  processFile env1 filePath dest cities st
  = processFile env2 filePath dest cities st.
Proof.
  destruct env1 as [[u1 o1 s1 d1 p1 w1 g1] h1 f1 n1].
  destruct env2 as [[u2 o2 s2 d2 p2 w2 g2] h2 f2 n2].
  unfold sameButSetGps.
  cbn [argv http ffprobe now useOllama ollamaUrl sourceDir destDir
       processedDir watchFolder].
  intros (-> & -> & -> & -> & -> & -> & -> & -> & ->).
  reflexivity.
Qed.

(** *** Traces only grow *)

Section Emits.

Context `{Platform}.
Variable p : Event -> bool.

Lemma emits_ret {A} (a : A) : emits p (mret a).
Proof. intros st. exists []. simpl. rewrite List.app_nil_r. auto. Qed.

Lemma emits_throw {A} e : emits p (@throw A e).
Proof. intros st. exists []. simpl. rewrite List.app_nil_r. auto. Qed.

Lemma emits_liftResult {A} (r : Result A) : emits p (liftResult r).
Proof. intros st. exists []. simpl. rewrite List.app_nil_r. auto. Qed.

Lemma emits_get : emits p get.
Proof. intros st. exists []. simpl. rewrite List.app_nil_r. auto. Qed.

Lemma emits_setFs f : emits p (setFs f).
Proof. intros st. exists []. simpl. rewrite List.app_nil_r. auto. Qed.

Lemma emits_setExd e : emits p (setExd e).
Proof. intros st. exists []. simpl. rewrite List.app_nil_r. auto. Qed.

Lemma emits_emit e : p e = true -> emits p (emit e).
Proof. intros He st. exists [e]. simpl. rewrite He. auto. Qed.

Lemma emits_bind {A B} (m : M A) (f : A -> M B) :
  emits p m -> (forall a, emits p (f a)) -> emits p (m ≫= f).
Proof.
  intros Hm Hf st. rewrite bind_run.
  destruct (Hm st) as (evs1 & Ht1 & Hp1).
  destruct (m st) as [[a|e] st1]; simpl in Ht1.
  - destruct (Hf a st1) as (evs2 & Ht2 & Hp2).
    exists (evs1 ++ evs2)%list. rewrite Ht2, Ht1, forallb_app, Hp1, Hp2.
    rewrite List.app_assoc. auto.
  - exists evs1. auto.
Qed.

Lemma emits_tryCatch {A} (m : M A) (h : Error -> M A) :
  emits p m -> (forall e, emits p (h e)) -> emits p (tryCatch m h).
Proof.
  intros Hm Hh st. unfold tryCatch.
  destruct (Hm st) as (evs1 & Ht1 & Hp1).
  destruct (m st) as [[a|e] st1]; simpl in Ht1.
  - exists evs1. auto.
  - destruct (Hh e st1) as (evs2 & Ht2 & Hp2).
    exists (evs1 ++ evs2)%list. rewrite Ht2, Ht1, forallb_app, Hp1, Hp2.
    rewrite List.app_assoc. auto.
Qed.

Lemma emits_bind_result {A B} (Q : A -> Prop) (m : M A) (f : A -> M B) :
  emits p m ->
  (forall st a st', m st = (Ok a, st') -> Q a) ->
  (forall a, Q a -> emits p (f a)) ->
  emits p (m ≫= f).
Proof.
  intros Hm HQ Hf st. rewrite bind_run.
  destruct (Hm st) as (evs1 & Ht1 & Hp1).
  destruct (m st) as [[a|e] st1] eqn:E; simpl in Ht1.
  - destruct (Hf a (HQ _ _ _ E) st1) as (evs2 & Ht2 & Hp2).
    exists (evs1 ++ evs2)%list. rewrite Ht2, Ht1, forallb_app, Hp1, Hp2.
    rewrite List.app_assoc. auto.
  - exists evs1. auto.
Qed.

Lemma emits_weaken {A} (q : Event -> bool) (m : M A) :
  (forall e, q e = true -> p e = true) -> emits q m -> emits p m.
Proof.
  intros Hqp Hm st. destruct (Hm st) as (evs & Ht & Hq). exists evs.
  split; [exact Ht|]. apply forallb_forall. intros e He.
  apply Hqp. eapply forallb_forall in Hq; eauto.
Qed.

End Emits.

Ltac emits_step :=
  match goal with
  | |- emits _ (mret _) => apply emits_ret
  | |- emits _ (throw _) => apply emits_throw
  | |- emits _ (liftResult _) => apply emits_liftResult
  | |- emits _ get => apply emits_get
  | |- emits _ (setFs _) => apply emits_setFs
  | |- emits _ (setExd _) => apply emits_setExd
  | |- emits _ (emit _) => apply emits_emit; reflexivity
  | |- emits _ (log _) => apply emits_emit; reflexivity
  | |- emits _ (_ ≫= _) => apply emits_bind; [|intros ?]
  | |- emits _ (tryCatch _ _) => apply emits_tryCatch; [|intros ?]
  | |- emits _ (match ?x with _ => _ end) =>
      first [progress cbv beta iota | destruct x]
  | |- emits _ (let _ := _ in _) => cbv zeta
  end.

Ltac emits_auto := repeat emits_step.

Section KeepsFs.

Lemma keepsFs_ret {A} (a : A) : keepsFs (mret a).
Proof. intros st. reflexivity. Qed.

Lemma keepsFs_throw {A} e : keepsFs (@throw A e).
Proof. intros st. reflexivity. Qed.

Lemma keepsFs_liftResult {A} (r : Result A) : keepsFs (liftResult r).
Proof. intros st. reflexivity. Qed.

Lemma keepsFs_get : keepsFs get.
Proof. intros st. reflexivity. Qed.

Lemma keepsFs_setExd e : keepsFs (setExd e).
Proof. intros st. reflexivity. Qed.

Lemma keepsFs_emit e : keepsFs (emit e).
Proof. intros st. reflexivity. Qed.

Lemma keepsFs_bind {A B} (m : M A) (f : A -> M B) :
  keepsFs m -> (forall a, keepsFs (f a)) -> keepsFs (m ≫= f).
Proof.
  intros Hm Hf st. rewrite bind_run. specialize (Hm st).
  destruct (m st) as [[a|e] st1]; simpl in Hm.
  - rewrite Hf. exact Hm.
  - exact Hm.
Qed.

Lemma keepsFs_tryCatch {A} (m : M A) (h : Error -> M A) :
  keepsFs m -> (forall e, keepsFs (h e)) -> keepsFs (tryCatch m h).
Proof.
  intros Hm Hh st. unfold tryCatch. specialize (Hm st).
  destruct (m st) as [[a|e] st1]; simpl in Hm.
  - exact Hm.
  - rewrite Hh. exact Hm.
Qed.

End KeepsFs.

Ltac keepsFs_step :=
  match goal with
  | |- keepsFs (mret _) => apply keepsFs_ret
  | |- keepsFs (throw _) => apply keepsFs_throw
  | |- keepsFs (liftResult _) => apply keepsFs_liftResult
  | |- keepsFs get => apply keepsFs_get
  | |- keepsFs (setExd _) => apply keepsFs_setExd
  | |- keepsFs (emit _) => apply keepsFs_emit
  | |- keepsFs (log _) => apply keepsFs_emit
  | |- keepsFs (_ ≫= _) => apply keepsFs_bind; [|intros ?]
  | |- keepsFs (tryCatch _ _) => apply keepsFs_tryCatch; [|intros ?]
  | |- keepsFs (match ?x with _ => _ end) =>
      first [progress cbv beta iota | destruct x]
  | |- keepsFs (let _ := _ in _) => cbv zeta
  end.

Ltac keepsFs_auto := repeat keepsFs_step.

(** *** The stages before the destination is built *)

Section Stages.

Context `{Platform}.
Variable env : Env.

Lemma emits_stat p f : p (EvStat f) = true -> emits p (Fs.stat f).
Proof. intros Hp. unfold Fs.stat. emits_auto. apply emits_emit, Hp. Qed.

Lemma keepsFs_stat f : keepsFs (Fs.stat f).
Proof. unfold Fs.stat. keepsFs_auto. Qed.

Lemma emits_readFileSync p f :
  p (EvReadFile f) = true -> emits p (Fs.readFileSync f).
Proof. intros Hp. unfold Fs.readFileSync. emits_auto. apply emits_emit, Hp. Qed.

Lemma keepsFs_readFileSync f : keepsFs (Fs.readFileSync f).
Proof. unfold Fs.readFileSync. keepsFs_auto. Qed.

Lemma emits_extractExif p f cities buf date :
  (forall a b c, p (EvLog (LogCity a b c)) = true) ->
  (forall c e, p (EvLog (LogErr c e)) = true) ->
  emits p (extractExif f cities buf date).
Proof.
  intros Hc He. unfold extractExif, extractLocation, extractDate.
  emits_auto; apply emits_emit; auto.
Qed.

Lemma keepsFs_extractExif f cities buf date :
  keepsFs (extractExif f cities buf date).
Proof. unfold extractExif, extractLocation, extractDate. keepsFs_auto. Qed.

Lemma emits_probeVideo p f :
  p (EvProbe f) = true ->
  (forall v, p (EvLog (LogVideo v)) = true) ->
  emits p (probeVideo env f).
Proof.
  intros Hp Hl. unfold probeVideo.
  emits_auto; apply emits_emit; auto.
Qed.

Lemma keepsFs_probeVideo f : keepsFs (probeVideo env f).
Proof. unfold probeVideo. keepsFs_auto. Qed.

Lemma emits_sendLLMRequest p url req :
  p (EvPost url req) = true ->
  p (EvLog LogAxios) = true ->
  (forall c e, p (EvLog (LogErr c e)) = true) ->
  emits p (sendLLMRequest env url req).
Proof.
  intros Hp Ha He. unfold sendLLMRequest.
  emits_auto; apply emits_emit; auto.
Qed.

Lemma keepsFs_sendLLMRequest url req : keepsFs (sendLLMRequest env url req).
Proof. unfold sendLLMRequest. keepsFs_auto. Qed.

Lemma emits_llava p buf :
  (forall url req, p (EvPost url req) = true) ->
  p (EvLog LogAxios) = true ->
  (forall c e, p (EvLog (LogErr c e)) = true) ->
  emits p (llava_analyze_image env buf).
Proof.
  intros Hp Ha He. unfold llava_analyze_image.
  emits_auto; apply emits_sendLLMRequest; auto.
Qed.

Lemma emits_enrich p buf :
  (forall url req, p (EvPost url req) = true) ->
  p (EvLog LogAxios) = true ->
  (forall c e, p (EvLog (LogErr c e)) = true) ->
  (forall t, p (EvLog (LogTags t)) = true) ->
  (forall c, p (EvLog (LogCaption c)) = true) ->
  emits p (enrich env buf).
Proof.
  intros Hp Ha He Ht Hc. unfold enrich.
  emits_auto; try (apply emits_emit; auto).
  apply emits_llava; auto.
Qed.

Lemma keepsFs_enrich buf : keepsFs (enrich env buf).
Proof.
  unfold enrich, llava_analyze_image.
  keepsFs_auto; apply keepsFs_sendLLMRequest.
Qed.

End Stages.

(** *** Tag normalization *)

Section Tags.

Context `{Platform}.

Lemma normalizeTags_sorted response : Sorted String.le (normalizeTags response).
Proof. apply Sorted_merge_sort. apply _. Qed.

Lemma normalizeTags_parts response :
  normalizeTags response
  ≡ₚ map JSString.trim
       (JSString.split "," (JSString.trim (JSString.toLowerCase response))).
Proof. apply merge_sort_Permutation. Qed.

Lemma normalizeTags_not_nil response : normalizeTags response <> [].
Proof.
  intros E. pose proof (normalizeTags_parts response) as Hp. rewrite E in Hp.
  apply Permutation_nil in Hp. apply map_eq_nil in Hp.
  eapply split_not_nil, Hp.
Qed.

(** Any sorting algorithm gives the same list: the sorted rearrangement
    is unique. *)
Lemma normalizeTags_unique response l :
  Sorted String.le l ->
  l ≡ₚ map JSString.trim
         (JSString.split "," (JSString.trim (JSString.toLowerCase response))) ->
  l = normalizeTags response.
Proof.
  intros Hs Hp. apply (Sorted_unique String.le); [exact Hs| |].
  - apply normalizeTags_sorted.
  - rewrite Hp. symmetry. apply normalizeTags_parts.
Qed.

End Tags.

(** *** Enrichment and placement *)

Lemma eventsOf_spec {A} (p : Event -> bool) (m : M A) st :
  emits p m ->
  trace (snd (m st)) = (trace st ++ eventsOf m st)%list
  /\ forallb p (eventsOf m st) = true.
Proof.
  intros Hm. destruct (Hm st) as (evs & Ht & Hp). unfold eventsOf.
  rewrite Ht, drop_app_length. auto.
Qed.

Lemma forallb_weaken {A} (p q : A -> bool) l :
  (forall x, p x = true -> q x = true) -> forallb p l = true -> forallb q l = true.
Proof.
  intros Hpq Hp. apply forallb_forall. intros x Hx. apply Hpq.
  eapply forallb_forall in Hp; eauto.
Qed.

Section Placement.

Context `{Platform}.
Variable env : Env.

(** When [enrich] returns, it returns a non-empty tag list and has logged
    it. *)
Lemma enrich_ok buf st r st' :
  enrich env buf st = (Ok r, st') ->
  fst r <> []
  /\ exists evs, trace st' = (trace st ++ evs)%list
       /\ In (EvLog (LogTags (fst r))) evs.
Proof.
  unfold enrich. rewrite bind_run.
  destruct (emits_bind anyEvent (llava_analyze_image env buf) mret) with (st := st)
    as (evs1 & Ht1 & _).
  { apply emits_llava; auto. }
  { intros a. apply emits_ret. }
  rewrite bind_run in Ht1.
  destruct (llava_analyze_image env buf st) as [[a|e] st1]; [|discriminate].
  simpl in Ht1. destruct (fst a); try discriminate.
  intros [= <- <-]. simpl. split; [apply normalizeTags_not_nil|].
  eexists. rewrite Ht1, <- !List.app_assoc. split; [reflexivity|].
  apply in_or_app. right. left. reflexivity.
Qed.

Lemma emits_exifSavePicture p e buf dst :
  (forall data, p (EvWriteFile dst data) = true) ->
  emits p (exifSavePicture env e buf dst).
Proof.
  intros Hp. unfold exifSavePicture, Fs.writeFileSync.
  emits_auto; apply emits_emit, Hp.
Qed.

Lemma emits_copy p t src dst :
  p (EvCopy src dst) = true -> emits p (Fs.copy t src dst).
Proof. intros Hp. unfold Fs.copy. emits_auto; apply emits_emit, Hp. Qed.

Lemma emits_move p src dst :
  p (EvMove src dst) = true -> emits p (Fs.move src dst).
Proof. intros Hp. unfold Fs.move. emits_auto; apply emits_emit, Hp. Qed.

Lemma emits_ensureDir p d :
  p (EvEnsureDir d) = true -> emits p (Fs.ensureDir d).
Proof. intros Hp. unfold Fs.ensureDir. emits_auto; apply emits_emit, Hp. Qed.

Lemma emits_collisionLoop p destPath filePath fuel : forall q counter,
  (forall x b, p (EvPathExists x b) = true) ->
  emits p (collisionLoop fuel destPath filePath q counter).
Proof.
  induction fuel as [|fuel IH]; intros q counter Hp; cbn [collisionLoop].
  - apply emits_throw.
  - unfold Fs.pathExists. emits_auto; try (apply emits_emit, Hp).
    apply IH, Hp.
Qed.

Lemma keepsFs_collisionLoop destPath filePath fuel : forall q counter,
  keepsFs (collisionLoop fuel destPath filePath q counter).
Proof.
  induction fuel as [|fuel IH]; intros q counter; cbn [collisionLoop].
  - apply keepsFs_throw.
  - unfold Fs.pathExists. keepsFs_auto. apply IH.
Qed.

Lemma saveWithExif_result f dst process_exif_data tags caption buf st w st' :
  saveWithExif env f dst process_exif_data tags caption buf st = (Ok w, st') ->
  w = process_exif_data && hasTags tags.
Proof.
  unfold saveWithExif. rewrite bind_run. cbn [get].
  destruct process_exif_data; [|intros E; inversion E; reflexivity].
  destruct (exd st); [|discriminate].
  destruct (hasTags tags); [|intros E; inversion E; reflexivity].
  repeat first
    [ rewrite bind_run
    | match goal with
      | |- context [match ?x with _ => _ end] =>
          lazymatch x with
          | context [match _ with _ => _ end] => fail
          | _ => destruct x eqn:?
          end
      end ];
    try discriminate; intros E; inversion E; reflexivity.
Qed.

Lemma emits_saveWithExif p f dst process_exif_data tags caption buf :
  (forall e, isTagsLog e = false -> isCopyCall e = false ->
     (process_exif_data && hasTags tags = false -> isWriterCall e = false) ->
     p e = true) ->
  emits p (saveWithExif env f dst process_exif_data tags caption buf).
Proof.
  intros Hp. unfold saveWithExif.
  destruct process_exif_data; [destruct (hasTags tags) eqn:Ht|];
    emits_auto;
    try (apply emits_emit, Hp; try reflexivity; discriminate);
    try (apply emits_exifSavePicture; intros; apply Hp; reflexivity).
Qed.

(** [place] calls the writer only if [process_exif_data] is set and the
    tag list is not empty, and [fs.copy] only otherwise. *)
Lemma emits_place p f dst process_exif_data tags caption buf :
  (forall e, isTagsLog e = false ->
     (if process_exif_data && hasTags tags then isCopyCall e
      else isWriterCall e) = false ->
     p e = true) ->
  emits p (place env f dst process_exif_data tags caption buf).
Proof.
  intros Hp. unfold place.
  apply (emits_bind_result p (fun w => w = process_exif_data && hasTags tags)).
  - apply emits_saveWithExif. intros e Ht Hc Hw. apply Hp; [exact Ht|].
    destruct (process_exif_data && hasTags tags); auto.
  - intros st w st'. apply saveWithExif_result.
  - intros w ->.
    destruct (process_exif_data && hasTags tags); simpl negb;
      emits_auto;
      try (apply emits_emit, Hp; reflexivity);
      try (apply emits_copy, Hp; reflexivity);
      try (apply emits_move, Hp; reflexivity).
Qed.

Lemma ensureDir_run d st :
  Fs.ensureDir d st
  = match Fs.mkdirs (Path.ancestors d ++ [d])%list (fs st) with
    | Some f' =>
        (Ok tt, {| fs := f'; exd := exd st;
                   trace := (trace st ++ [EvEnsureDir d])%list |})
    | None => (Thrown (FsError "mkdir" d), after st [EvEnsureDir d])
    end.
Proof.
  unfold Fs.ensureDir. rewrite bind_run, emit_run, bind_run. cbn [get].
  change (fs (after st _)) with (fs st).
  destruct (Fs.mkdirs _ (fs st)); reflexivity.
Qed.

(** [placement] first creates the directory of the destination; what
    follows respects the rule of [place]. *)
Lemma placement_events p f d process_llm process_exif_data skip date
    location tags caption buf st :
  (forall e, isTagsLog e = false ->
     (if process_exif_data && hasTags tags then isCopyCall e
      else isWriterCall e) = false ->
     p e = true) ->
  exists rest,
    trace (snd (placement env f d process_llm process_exif_data skip date
                  location tags caption buf st))
    = (trace st ++ EvEnsureDir (destinationDir d date location) :: rest)%list
    /\ forallb p rest = true.
Proof.
  intros Hp. unfold placement. cbv zeta. rewrite bind_run, ensureDir_run.
  destruct (Fs.mkdirs _ (fs st)) as [f'|].
  - match goal with
    | |- context [snd (?m ?s)] =>
        assert (emits p m) as Hm;
          [|destruct (Hm s) as (rest & Ht & Hr)]
    end.
    { destruct skip; simpl negb; cbv iota.
      - apply emits_emit, Hp; destruct (_ && _); reflexivity.
      - emits_auto.
        + apply emits_collisionLoop. intros. apply Hp; [reflexivity|].
          destruct (_ && _); reflexivity.
        + apply emits_place, Hp. }
    exists rest. split; [|exact Hr]. rewrite Ht. simpl.
    rewrite <- List.app_assoc. reflexivity.
  - exists []. split; reflexivity.
Qed.

End Placement.

(** *** From the start of [processFile] to the placement *)

Lemma forallb_planEvent l :
  forallb planEvent l = true ->
  forallb beforeDecision l = true /\ forallb notTagsLog l = true.
Proof.
  intros Hl. split; revert Hl; apply forallb_weaken; intros e;
    unfold planEvent; intros [? ?]%andb_true_iff; assumption.
Qed.

Section Planning.

Context `{Platform}.
Variable env : Env.

(** A run of [processFileBody] either ends before the destination is built,
    having read and logged only, or reaches [placement] after such events;
    the tag list it hands over is [false] when the LLM is not used and a
    non-empty logged list when it is. *)
Lemma planning_phase f d cities st :
  (exists evs,
     trace (snd (processFileBody env f d cities st)) = (trace st ++ evs)%list
     /\ forallb beforeDecision evs = true
     /\ fs (snd (processFileBody env f d cities st)) = fs st)
  \/ (exists evs0 st0 date loc buf tags caption,
        trace st0 = (trace st ++ evs0)%list
        /\ forallb beforeDecision evs0 = true
        /\ (processLlm env (JSString.toLowerCase f) = false ->
              tags = None /\ forallb notTagsLog evs0 = true)
        /\ (processLlm env (JSString.toLowerCase f) = true ->
              exists ts, tags = Some ts /\ ts <> []
                /\ In (EvLog (LogTags ts)) evs0
                /\ exists st4 r, enrich env buf st4 = (Ok r, st0))
        /\ processFileBody env f d cities st
           = placement env f d (processLlm env (JSString.toLowerCase f))
               (isJpegType (JSString.toLowerCase f))
               (isVideo (JSString.toLowerCase f))
               date loc tags caption buf st0).
Proof.
  unfold processFileBody. rewrite bind_run.
  destruct (emits_stat planEvent f eq_refl st) as (e1 & T1 & P1).
  apply forallb_planEvent in P1 as [B1 N1].
  pose proof (keepsFs_stat f st) as F1.
  destruct (Fs.stat f st) as [[stat|err] st1]; simpl in T1, F1;
    [|left; exists e1; auto].
  cbv zeta.
  destruct (isFile stat); [|left; exists e1; auto].
  set (lcfp := JSString.toLowerCase f).
  destruct (isPicture lcfp || isVideo lcfp); [|left; exists e1; auto].
  rewrite bind_run.
  match goal with
  | |- context [match ?m st1 with _ => _ end] =>
      assert (emits planEvent m) as Hread;
        [|assert (keepsFs m) as Kread]
  end.
  { destruct (isPicture lcfp); emits_auto.
    apply emits_readFileSync. reflexivity. }
  { destruct (isPicture lcfp); keepsFs_auto. apply keepsFs_readFileSync. }
  destruct (Hread st1) as (e2 & T2 & P2). clear Hread.
  apply forallb_planEvent in P2 as [B2 N2].
  pose proof (Kread st1) as F2. clear Kread.
  match goal with
  | |- context [match ?m st1 with _ => _ end] =>
      destruct (m st1) as [[buf|err] st2]; simpl in T2, F2
  end.
  2: { left. exists (e1 ++ e2)%list. simpl.
       rewrite T2, T1, <- List.app_assoc, forallb_app, B1, B2, F2, F1. auto. }
  rewrite bind_run.
  match goal with
  | |- context [match ?m st2 with _ => _ end] =>
      assert (emits planEvent m) as Hexif;
        [|assert (keepsFs m) as Kexif]
  end.
  { destruct (isJpegType lcfp); emits_auto.
    apply emits_extractExif; reflexivity. }
  { destruct (isJpegType lcfp); keepsFs_auto. apply keepsFs_extractExif. }
  destruct (Hexif st2) as (e3 & T3 & P3). clear Hexif.
  apply forallb_planEvent in P3 as [B3 N3].
  pose proof (Kexif st2) as F3. clear Kexif.
  match goal with
  | |- context [match ?m st2 with _ => _ end] =>
      destruct (m st2) as [[resolved|err] st3]; simpl in T3, F3
  end.
  2: { left. exists (e1 ++ e2 ++ e3)%list. simpl.
       rewrite T3, T2, T1, <- !List.app_assoc, !forallb_app, B1, B2, B3,
         F3, F2, F1. auto. }
  rewrite bind_run.
  match goal with
  | |- context [match ?m st3 with _ => _ end] =>
      assert (emits planEvent m) as Hprobe;
        [|assert (keepsFs m) as Kprobe]
  end.
  { destruct (isVideo lcfp); emits_auto.
    apply emits_probeVideo; reflexivity. }
  { destruct (isVideo lcfp); keepsFs_auto. apply keepsFs_probeVideo. }
  destruct (Hprobe st3) as (e4 & T4 & P4). clear Hprobe.
  apply forallb_planEvent in P4 as [B4 N4].
  pose proof (Kprobe st3) as F4. clear Kprobe.
  match goal with
  | |- context [match ?m st3 with _ => _ end] =>
      destruct (m st3) as [[[]|err] st4]; simpl in T4, F4
  end.
  2: { left. exists (e1 ++ e2 ++ e3 ++ e4)%list. simpl.
       rewrite T4, T3, T2, T1, <- !List.app_assoc, !forallb_app,
         B1, B2, B3, B4, F4, F3, F2, F1. auto. }
  rewrite bind_run.
  destruct (processLlm env lcfp) eqn:Hllm.
  - rewrite bind_run.
    destruct (emits_enrich env beforeDecision buf) with (st := st4)
      as (e5 & T5 & B5).
    all: try reflexivity.
    pose proof (keepsFs_enrich env buf st4) as F5.
    destruct (enrich env buf st4) as [[r|err] st5] eqn:Henrich;
      simpl in T5, F5.
    2: { left. exists (e1 ++ e2 ++ e3 ++ e4 ++ e5)%list. simpl.
         rewrite T5, T4, T3, T2, T1, <- !List.app_assoc, !forallb_app,
           B1, B2, B3, B4, B5, F5, F4, F3, F2, F1. auto. }
    pose proof Henrich as Hrun5.
    apply enrich_ok in Henrich as (Hne & e5' & T5' & Hin).
    rewrite T5 in T5'. apply app_inv_head in T5'. subst e5'.
    right. exists (e1 ++ e2 ++ e3 ++ e4 ++ e5)%list, st5,
      (fst resolved), (snd resolved), buf, (Some (fst r)), (snd r).
    split; [rewrite T5, T4, T3, T2, T1, <- !List.app_assoc; reflexivity|].
    split; [rewrite !forallb_app, B1, B2, B3, B4, B5; reflexivity|].
    split; [discriminate|]. split; [|reflexivity].
    intros _. exists (fst r). split; [reflexivity|]. split; [exact Hne|].
    split; [rewrite !in_app_iff; auto|]. exists st4, r. exact Hrun5.
  - right. exists (e1 ++ e2 ++ e3 ++ e4)%list, st4,
      (fst resolved), (snd resolved), buf, None, (VBool false).
    split; [rewrite T4, T3, T2, T1, <- !List.app_assoc; reflexivity|].
    split; [rewrite !forallb_app, B1, B2, B3, B4; reflexivity|].
    split; [|split; [discriminate|reflexivity]].
    intros _. split; [reflexivity|].
    rewrite !forallb_app, N1, N2, N3, N4. reflexivity.
Qed.

End Planning.

(** *** Videos *)

Lemma startsWith_cons c s a p :
  JSString.startsWith (String c s) (String a p)
  = Ascii.eqb a c && JSString.startsWith s p.
Proof. reflexivity. Qed.

(** No path has both a video extension and a picture extension. *)
Lemma video_not_picture l : isVideo l = true -> isPicture l = false.
Proof.
  unfold isVideo, isPicture, isJpegType, someEndsWith, JSString.endsWith,
    videoExtensions, JpegExtensions, NonJpegExtensions.
  cbn [existsb].
  change (String.rev ".mp4") with "4pm.". change (String.rev ".avi") with "iva.".
  change (String.rev ".mov") with "vom.". change (String.rev ".jpg") with "gpj.".
  change (String.rev ".jpeg") with "gepj.". change (String.rev ".jfif") with "fifj.".
  change (String.rev ".heic") with "cieh.". change (String.rev ".png") with "gnp.".
  change (String.rev ".webp") with "pbew.".
  generalize (String.rev l). intros r Hv.
  destruct r as [|c1 r]; [discriminate Hv|].
  rewrite !startsWith_cons in *.
  destruct (Ascii.eqb_spec "4" c1) as [<-|]; [reflexivity|].
  destruct (Ascii.eqb_spec "i" c1) as [<-|]; [reflexivity|].
  destruct (Ascii.eqb_spec "v" c1) as [<-|]; [reflexivity|].
  discriminate Hv.
Qed.

Section Video.

Context `{Platform}.
Variable env : Env.

Lemma stat_run f st :
  Fs.stat f st
  = match fs st !! f with
    | Some (File mt _) =>
        (Ok {| isFile := true; mtime := mt |}, after st [EvStat f])
    | Some Directory =>
        (Ok {| isFile := false; mtime := 0 |}, after st [EvStat f])
    | None => (Thrown (FsError "stat" f), after st [EvStat f])
    end.
Proof.
  unfold Fs.stat. rewrite bind_run, emit_run, bind_run. cbn [get].
  change (fs (after st _)) with (fs st).
  destruct (fs st !! f) as [[]|]; reflexivity.
Qed.

(** What [processFile] does on a path with a video extension, case by
    case. *)
Lemma processFile_video f d cities st :
  isVideo (JSString.toLowerCase f) = true ->
  processFile env f d cities st
  = match fs st !! f with
    | None =>
        (Ok tt, after st [EvStat f; EvLog (LogErr "Error:" (FsError "stat" f))])
    | Some Directory => (Ok tt, after st [EvStat f])
    | Some (File mt _) =>
        match ffprobe env f with
        | None =>
            (Ok tt, after st [EvStat f; EvProbe f;
                              EvLog (LogErr "Error:" (ProbeError f))])
        | Some data =>
            let destPath := destinationDir d (JSDate.ofTime mt) None in
            match Fs.mkdirs (Path.ancestors destPath ++ [destPath])%list (fs st) with
            | Some f' =>
                (Ok tt,
                 {| fs := f'; exd := exd st;
                    trace := (trace st ++
                              [EvStat f; EvProbe f; EvLog (LogVideo data);
                               EvEnsureDir destPath; EvLog (LogSkip f)])%list |})
            | None =>
                (Ok tt, after st [EvStat f; EvProbe f; EvLog (LogVideo data);
                                  EvEnsureDir destPath;
                                  EvLog (LogErr "Error:" (FsError "mkdir" destPath))])
            end
        end
    end.
Proof.
  intros Hv. pose proof (video_not_picture _ Hv) as Hp.
  assert (isJpegType (JSString.toLowerCase f) = false) as Hj.
  { unfold isPicture in Hp. apply orb_false_iff in Hp as [? _]. assumption. }
  unfold processFile, tryCatch, processFileBody.
  rewrite bind_run, stat_run.
  destruct (fs st !! f) as [[mt data|]|] eqn:Hf; cbn [isFile mtime]; cbv zeta.
  - rewrite Hp, Hv, Hj. change (false || true) with true. cbv iota.
    assert (processLlm env (JSString.toLowerCase f) = false) as ->.
    { unfold processLlm. rewrite Hv. destruct (_ || _); reflexivity. }
    unfold probeVideo, placement, Fs.ensureDir.
    destruct (ffprobe env f) as [v|]; run_monad; [|reflexivity].
    destruct (Fs.mkdirs _ (fs st)) as [f'|]; run_monad;
      change (negb true) with false; run_monad;
      unfold after; cbn [fs exd trace];
      rewrite <- ?List.app_assoc; reflexivity.
  - reflexivity.
  - run_monad. reflexivity.
Qed.

End Video.

Lemma mkdirs_files ps : forall f f',
  Fs.mkdirs ps f = Some f' ->
  forall p mt data,
    f' !! p = Some (File mt data) <-> f !! p = Some (File mt data).
Proof.
  induction ps as [|q ps IH]; intros f f' Hm p mt data; simpl in Hm.
  - injection Hm as <-. reflexivity.
  - destruct (f !! q) as [[mt' data'|]|] eqn:Hq; [discriminate| |];
      rewrite (IH _ _ Hm); (destruct (decide (q = p)) as [->|Hne];
        [rewrite lookup_insert_eq, Hq; split; discriminate
        |rewrite lookup_insert_ne by exact Hne; reflexivity]).
Qed.

Lemma mkdirs_keeps_directory ps : forall f f' p,
  Fs.mkdirs ps f = Some f' -> f !! p = Some Directory -> f' !! p = Some Directory.
Proof.
  induction ps as [|q ps IH]; intros f f' p Hm Hp; simpl in Hm.
  - injection Hm as <-. exact Hp.
  - destruct (f !! q) as [[mt' data'|]|] eqn:Hq; [discriminate| |];
      apply (IH _ _ _ Hm); (destruct (decide (q = p)) as [->|Hne];
        [apply lookup_insert_eq|rewrite lookup_insert_ne by exact Hne; exact Hp]).
Qed.

(** [fs.ensureDir p], when it succeeds, leaves a directory at [p]. *)
Lemma mkdirs_last ps p : forall f f',
  Fs.mkdirs (ps ++ [p])%list f = Some f' -> f' !! p = Some Directory.
Proof.
  induction ps as [|q ps IH]; intros f f' Hm; simpl in Hm.
  - destruct (f !! p) as [[mt' data'|]|]; [discriminate| |];
      injection Hm as <-; apply lookup_insert_eq.
  - destruct (f !! q) as [[mt' data'|]|]; [discriminate| |]; eapply IH, Hm.
Qed.

Lemma eventsOf_after {A} (m : M A) st r st' evs :
  m st = (r, st') -> trace st' = (trace st ++ evs)%list -> eventsOf m st = evs.
Proof.
  intros Hm Ht. unfold eventsOf. rewrite Hm. simpl. rewrite Ht.
  apply drop_app_length.
Qed.

(** *** The two phases of a run *)

Lemma split_at_later_event {A} (l1 l2 pre post : list A) (x e : A) :
  (l1 ++ x :: l2 = pre ++ e :: post)%list ->
  ~ In e l1 -> e <> x -> In x pre.
Proof.
  intros E Hnot Hne. apply app_eq_app in E as [l [[-> E]|[-> E]]].
  - exfalso. destruct l as [|y l]; simpl in E.
    + injection E as -> _. contradiction.
    + injection E as <- _. apply Hnot. rewrite in_app_iff. right. left. reflexivity.
  - destruct l as [|y l]; simpl in E.
    + injection E as <- _. contradiction.
    + injection E as <- _. rewrite in_app_iff. right. left. reflexivity.
Qed.

Section Phases.

Context `{Platform}.
Variable env : Env.

Lemma processLlm_true l : processLlm env l = true -> useOllama (argv env) = true.
Proof.
  unfold processLlm. cbv zeta. destruct (_ || _); [discriminate|].
  destruct (isVideo l); [discriminate|]. auto.
Qed.

(** The events of a run: either only reads and logs, or such events, then
    the creation of the destination directory, then the placement. *)
Lemma processFile_phases f d cities st :
  (forallb beforeDecision (eventsOf (processFile env f d cities) st) = true
   /\ fs (snd (processFile env f d cities st)) = fs st)
  \/ exists evs0 date loc tags rest,
       eventsOf (processFile env f d cities) st
       = (evs0 ++ EvEnsureDir (destinationDir d date loc) :: rest)%list
       /\ forallb beforeDecision evs0 = true
       /\ (processLlm env (JSString.toLowerCase f) = false ->
             tags = None /\ forallb notTagsLog evs0 = true)
       /\ (processLlm env (JSString.toLowerCase f) = true ->
             exists ts, tags = Some ts /\ ts <> []
               /\ In (EvLog (LogTags ts)) evs0
               /\ exists buf st4 r st5, enrich env buf st4 = (Ok r, st5))
       /\ forallb
            (placementEvent
               (isJpegType (JSString.toLowerCase f) && hasTags tags)) rest
          = true.
Proof.
  unfold processFile, tryCatch.
  destruct (planning_phase env f d cities st)
    as [(evs & T & B & F)
       |(evs0 & st0 & date & loc & buf & tags & caption & T0 & B0 & Hf & Ht & Hrun)].
  - left. destruct (processFileBody env f d cities st) as [[[]|err] st'] eqn:E;
      simpl in T, F.
    + split; [|exact F].
      erewrite eventsOf_after; [exact B| |exact T]. rewrite E. reflexivity.
    + split; [|exact F].
      erewrite eventsOf_after
        with (evs := (evs ++ [EvLog (LogErr "Error:" err)])%list).
      * rewrite forallb_app, B. reflexivity.
      * rewrite E. rewrite log_run. reflexivity.
      * simpl. rewrite T, <- List.app_assoc. reflexivity.
  - right. exists evs0, date, loc, tags.
    destruct (placement_events env
                (placementEvent
                   (isJpegType (JSString.toLowerCase f) && hasTags tags))
                f d (processLlm env (JSString.toLowerCase f))
                (isJpegType (JSString.toLowerCase f))
                (isVideo (JSString.toLowerCase f))
                date loc tags caption buf st0) as (rest & T & R).
    { intros e Htag Hcall. unfold placementEvent, notTagsLog, notCopyCall,
        notWriterCall. rewrite Htag.
      destruct (_ && _); rewrite Hcall; reflexivity. }
    rewrite <- Hrun in T.
    destruct (processFileBody env f d cities st) as [[[]|err] st'] eqn:E;
      simpl in T.
    + exists rest. split.
      { eapply eventsOf_after; [rewrite E; reflexivity|].
        rewrite T, T0, <- List.app_assoc. reflexivity. }
      split; [exact B0|]. split; [exact Hf|]. split; [|exact R].
      intros Hl. destruct (Ht Hl) as (ts & ? & ? & ? & st4 & r & Hr).
      exists ts. eauto 10.
    + exists (rest ++ [EvLog (LogErr "Error:" err)])%list. split.
      * eapply eventsOf_after; [rewrite E, log_run; reflexivity|].
        simpl. rewrite T, T0, <- !List.app_assoc. reflexivity.
      * split; [exact B0|]. split; [exact Hf|]. split; [|].
        { intros Hl. destruct (Ht Hl) as (ts & ? & ? & ? & st4 & r & Hr).
          exists ts. eauto 10. }
        rewrite forallb_app, R. destruct (_ && _); reflexivity.
Qed.

End Phases.


Lemma decision_not_before e : isDecision e = true -> beforeDecision e = false.
Proof. unfold beforeDecision. intros ->. reflexivity. Qed.

(** *** The destination directory *)









Section Destination.

Context `{Platform}.





End Destination.

(** *** Failing enrichment requests *)

Section Enrichment.

Context `{Platform}.
Variable env : Env.

(** [sendLLMRequest] never throws: every failure becomes the empty array. *)
Lemma sendLLMRequest_result url req st :
  fst (sendLLMRequest env url req st)
  = Ok (match http env url req with
        | Resolved (Some v) => v
        | _ => VArray []
        end).
Proof.
  unfold sendLLMRequest, tryCatch. rewrite bind_run, emit_run.
  destruct (http env url req) as [|[v|]]; run_monad; reflexivity.
Qed.

(** [enrich] returns only if the keyword request was answered with a
    string. *)
Lemma enrich_needs_string buf st r st' :
  enrich env buf st = (Ok r, st') ->
  exists b s, buf = Some b
    /\ keywordsAnswer env b = Resolved (Some (VString s)).
Proof.
  unfold enrich, llava_analyze_image, keywordsAnswer, keywordsRequest.
  destruct buf as [b|]; [|discriminate]. cbv zeta. rewrite !bind_run.
  match goal with
  | |- context [sendLLMRequest env ?u ?q st] =>
      pose proof (sendLLMRequest_result u q st) as H1;
        destruct (sendLLMRequest env u q st) as [[v1|?] st1]; [|discriminate]
  end.
  simpl in H1. rewrite bind_run.
  match goal with
  | |- context [sendLLMRequest env ?u ?q st1] =>
      destruct (sendLLMRequest env u q st1) as [[v2|?] st2]; [|discriminate]
  end.
  run_monad. injection H1 as ->.
  destruct (http env _ _) as [|[[]|]] eqn:Hh; try discriminate.
  intros _. eexists b, _. split; [reflexivity|exact Hh].
Qed.

End Enrichment.

(** *** The capture date *)

Section CaptureDate.

Context `{Platform}.

Lemma split_space_lacks s :
  lacks " " s = true -> parseExifDateTime (EString s)
                        = Thrown (TypeError "timePart is undefined").
Proof.
  intros Hs. unfold parseExifDateTime. rewrite split_lacks by exact Hs.
  reflexivity.
Qed.

(** The date that lines 352-369 resolve, as a function of the baseline and
    of the two fields. *)
Lemma extractDate_result f date Exif st :
  fst (extractDate f date Exif st)
  = Ok match (if truthyTag (Exif !! Tag.DateTimeDigitized)
              then parseTag (Exif !! Tag.DateTimeDigitized) else Ok date) with
       | Thrown _ => date
       | Ok date1 =>
           match (if truthyTag (Exif !! Tag.DateTimeOriginal)
                  then parseTag (Exif !! Tag.DateTimeOriginal)
                  else Ok date1) with
           | Thrown _ => date1
           | Ok date2 => date2
           end
       end.
Proof.
  unfold extractDate. cbv zeta.
  destruct (if truthyTag (Exif !! Tag.DateTimeDigitized) then _ else _);
    [|reflexivity].
  destruct (if truthyTag (Exif !! Tag.DateTimeOriginal) then _ else _);
    reflexivity.
Qed.

(** With both fields absent the baseline stays; a digitized field that
    parses overrides it; an original field that parses overrides both,
    provided the digitized field is absent or parses. *)
Lemma date_precedence f date Exif st :
  (truthyTag (Exif !! Tag.DateTimeDigitized) = false ->
   truthyTag (Exif !! Tag.DateTimeOriginal) = false ->
   fst (extractDate f date Exif st) = Ok date)
  /\ (forall d1,
        truthyTag (Exif !! Tag.DateTimeDigitized) = true ->
        parseTag (Exif !! Tag.DateTimeDigitized) = Ok d1 ->
        truthyTag (Exif !! Tag.DateTimeOriginal) = false ->
        fst (extractDate f date Exif st) = Ok d1)
  /\ (forall d2,
        truthyTag (Exif !! Tag.DateTimeOriginal) = true ->
        parseTag (Exif !! Tag.DateTimeOriginal) = Ok d2 ->
        (truthyTag (Exif !! Tag.DateTimeDigitized) = false
         \/ exists d1, parseTag (Exif !! Tag.DateTimeDigitized) = Ok d1) ->
        fst (extractDate f date Exif st) = Ok d2)
  /\ (forall e d1,
        (if truthyTag (Exif !! Tag.DateTimeDigitized)
         then parseTag (Exif !! Tag.DateTimeDigitized) else Ok date) = Ok d1 ->
        truthyTag (Exif !! Tag.DateTimeOriginal) = true ->
        parseTag (Exif !! Tag.DateTimeOriginal) = Thrown e ->
        fst (extractDate f date Exif st) = Ok d1).
Proof.
  rewrite extractDate_result. repeat split.
  - intros -> ->. reflexivity.
  - intros d1 -> -> ->. reflexivity.
  - intros d2 -> -> [->|[d1 ->]]; [reflexivity|].
    destruct (truthyTag _); reflexivity.
  - intros e d1 -> -> ->. reflexivity.
Qed.

(** A digitized field without a space makes [parseExifDateTime] throw
    inside the [try] that also holds the original field, so the original
    field is never read: the date stays the baseline whatever the original
    field holds. *)
Theorem throwing_digitized_hides_original f date Exif st s :
  Exif !! Tag.DateTimeDigitized = Some (EString s) ->
  s <> "" -> lacks " " s = true ->
  fst (extractDate f date Exif st) = Ok date.
Proof.
  intros Hd Hne Hs. rewrite extractDate_result, Hd.
  unfold truthyTag, parseTag. rewrite split_space_lacks by exact Hs.
  destruct s; [contradiction|reflexivity].
Qed.

End CaptureDate.

(** *** Trimmed, lower-case tags *)

Lemma rev_app_spec s : forall acc, String.rev_app s acc = String.rev s +:+ acc.
Proof.
  unfold String.rev. induction s as [|c s IH]; intros acc; [reflexivity|].
  simpl. rewrite IH, (IH (String c "")), app_assoc. reflexivity.
Qed.

Lemma rev_cons c s : String.rev (String c s) = String.rev s +:+ String c "".
Proof. unfold String.rev at 1. simpl. apply rev_app_spec. Qed.

Lemma rev_snoc s c : String.rev (s +:+ String c "") = String c (String.rev s).
Proof.
  induction s as [|x s IH]; [reflexivity|].
  rewrite app_cons, !rev_cons, IH. reflexivity.
Qed.

Lemma rev_rev s : String.rev (String.rev s) = s.
Proof.
  induction s as [|c s IH]; [reflexivity|]. rewrite rev_cons, rev_snoc, IH.
  reflexivity.
Qed.

Lemma allChars_rev p s : allChars p (String.rev s) = allChars p s.
Proof.
  induction s as [|c s IH]; [reflexivity|].
  rewrite rev_cons, allChars_app, IH. unfold allChars. simpl.
  rewrite andb_true_r. apply andb_comm.
Qed.

Lemma allChars_trimStart p s :
  allChars p s = true -> allChars p (JSString.trimStart s) = true.
Proof.
  unfold allChars. induction s as [|c s IH]; [reflexivity|]. simpl.
  intros [Hc Hs]%andb_true_iff. destruct (JSString.isWhiteSpace c); [auto|].
  simpl. rewrite Hc, Hs. reflexivity.
Qed.

Lemma allChars_trim p s : allChars p s = true -> allChars p (JSString.trim s) = true.
Proof.
  intros Hs. unfold JSString.trim, JSString.trimEnd.
  rewrite allChars_rev. apply allChars_trimStart. rewrite allChars_rev.
  apply allChars_trimStart, Hs.
Qed.

Lemma allChars_split p c s :
  allChars p s = true -> Forall (fun x => allChars p x = true) (JSString.split c s).
Proof.
  unfold allChars. induction s as [|a s IH]; simpl.
  - intros _. repeat constructor.
  - intros [Ha Hs]%andb_true_iff. specialize (IH Hs).
    destruct (Ascii.eqb a c); [constructor; [reflexivity|exact IH]|].
    destruct (JSString.split c s) as [|h t]; inversion IH; subst;
      constructor; simpl; rewrite ?Ha; auto.
Qed.

Lemma lowerChar_idem c : JSString.lowerChar (JSString.lowerChar c) = JSString.lowerChar c.
Proof. destruct c as [[] [] [] [] [] [] [] []]; reflexivity. Qed.

Lemma toLowerCase_fixed s : allChars fixedByLower (JSString.toLowerCase s) = true.
Proof.
  unfold allChars. induction s as [|c s IH]; [reflexivity|]. simpl.
  rewrite IH, andb_true_r. unfold fixedByLower. rewrite lowerChar_idem.
  apply Ascii.eqb_refl.
Qed.

Lemma fixed_toLowerCase s :
  allChars fixedByLower s = true -> JSString.toLowerCase s = s.
Proof.
  unfold allChars. induction s as [|c s IH]; [reflexivity|]. simpl.
  intros [Hc Hs]%andb_true_iff. rewrite IH by exact Hs.
  apply Ascii.eqb_eq in Hc. rewrite Hc. reflexivity.
Qed.

Lemma trimStart_noLeading s : noLeadingSpace (JSString.trimStart s) = true.
Proof.
  induction s as [|c s IH]; [reflexivity|]. simpl.
  destruct (JSString.isWhiteSpace c) eqn:E; [exact IH|]. simpl. rewrite E.
  reflexivity.
Qed.

Lemma noLeading_trimStart s : noLeadingSpace s = true -> JSString.trimStart s = s.
Proof.
  destruct s as [|c s]; [reflexivity|]. simpl. intros Hc.
  apply negb_true_iff in Hc. rewrite Hc. reflexivity.
Qed.

Lemma trimStart_snoc s c :
  JSString.isWhiteSpace c = false ->
  JSString.trimStart (s +:+ String c "") = JSString.trimStart s +:+ String c "".
Proof.
  intros Hc. induction s as [|x s IH].
  - simpl. rewrite Hc. reflexivity.
  - rewrite app_cons. simpl. destruct (JSString.isWhiteSpace x); [exact IH|].
    reflexivity.
Qed.

Lemma trimEnd_noLeading s :
  noLeadingSpace s = true -> noLeadingSpace (JSString.trimEnd s) = true.
Proof.
  destruct s as [|c s]; [reflexivity|]. simpl. intros Hc.
  apply negb_true_iff in Hc. unfold JSString.trimEnd.
  rewrite rev_cons, trimStart_snoc, rev_snoc by exact Hc. simpl. rewrite Hc.
  reflexivity.
Qed.

Lemma trimEnd_idem s : JSString.trimEnd (JSString.trimEnd s) = JSString.trimEnd s.
Proof.
  unfold JSString.trimEnd. rewrite rev_rev.
  rewrite (noLeading_trimStart (JSString.trimStart _)) by apply trimStart_noLeading.
  reflexivity.
Qed.

Lemma trim_idem s : JSString.trim (JSString.trim s) = JSString.trim s.
Proof.
  unfold JSString.trim.
  rewrite (noLeading_trimStart (JSString.trimEnd _))
    by apply trimEnd_noLeading, trimStart_noLeading.
  apply trimEnd_idem.
Qed.

(** C5, as the code has it.  Line 386 lower-cases the keyword response,
    trims it, splits it on commas, trims every part and sorts the parts by
    code unit.  The result is sorted, holds exactly the trimmed parts (each
    as often as it occurs, the empty ones included: nothing is dropped), and
    every tag is trimmed and lower-case.  The response
    [Beach, Sunset, Family] gives [beach; family; sunset] and the file name
    [IMG_1-beach-family-sunset.jpg]. *)
Theorem normalizeTags_sorts_all_parts (response : string) :
  Sorted String.le (normalizeTags response)
  /\ normalizeTags response
     ≡ₚ map JSString.trim
          (JSString.split "," (JSString.trim (JSString.toLowerCase response)))
  /\ Forall (fun tag => JSString.trim tag = tag /\ JSString.toLowerCase tag = tag)
       (normalizeTags response)
  /\ normalizeTags "Beach, Sunset, Family" = ["beach"; "family"; "sunset"]
  /\ destinationFile "dest/2024/03/02" "src/IMG_1.jpg" true
       (Some (normalizeTags "Beach, Sunset, Family"))
     = "dest/2024/03/02/IMG_1-beach-family-sunset.jpg".
Proof.
  split; [apply normalizeTags_sorted|]. split; [apply normalizeTags_parts|].
  split; [|split; vm_compute; reflexivity].
  rewrite normalizeTags_parts. apply List.Forall_map.
  eapply List.Forall_impl;
    [|apply (allChars_split fixedByLower), allChars_trim, toLowerCase_fixed].
  intros part Hp. simpl. split; [apply trim_idem|].
  apply fixed_toLowerCase, allChars_trim, Hp.
Qed.

(** ** Further properties of the script *)

(** *** The two requests to the model *)

Section Requests.

Context `{Platform}.
Variable env : Env.

Lemma sendLLMRequest_run url req st :
  sendLLMRequest env url req st
  = (Ok (answerOf (http env url req)),
     after st (EvPost url req :: failureLog (http env url req))).
Proof.
  unfold sendLLMRequest, tryCatch. rewrite bind_run, emit_run.
  destruct (http env url req) as [|[v|]]; run_monad; reflexivity.
Qed.

Lemma failureLog_no_post o : List.filter isPost (failureLog o) = [].
Proof. destruct o as [|[v|]]; reflexivity. Qed.

Lemma llava_run buf st :
  llava_analyze_image env (Some buf) st
  = (Ok (answerOf (http env (apiUrl env) (keywordsRequest buf)),
         answerOf (http env (apiUrl env) (captionRequest buf))),
     after st
       (EvPost (apiUrl env) (keywordsRequest buf)
          :: failureLog (http env (apiUrl env) (keywordsRequest buf))
        ++ EvPost (apiUrl env) (captionRequest buf)
          :: failureLog (http env (apiUrl env) (captionRequest buf)))).
Proof.
  unfold llava_analyze_image. cbv zeta.
  rewrite bind_run, sendLLMRequest_run, bind_run, sendLLMRequest_run.
  rewrite ret_run, after_after. reflexivity.
Qed.

(** [llava_analyze_image] never throws and always sends two requests, the
    keywords first and the caption second, to the same address and with the
    same picture, whatever the first request comes to.  Each answer is the
    [response] field of the reply, or the empty array when the request
    failed. *)
Theorem llava_always_posts_twice (buf : list Z) (st : State) :
  fst (llava_analyze_image env (Some buf) st)
  = Ok (answerOf (http env (apiUrl env) (keywordsRequest buf)),
        answerOf (http env (apiUrl env) (captionRequest buf)))
  /\ List.filter isPost (eventsOf (llava_analyze_image env (Some buf)) st)
     = [EvPost (apiUrl env) (keywordsRequest buf);
        EvPost (apiUrl env) (captionRequest buf)]
  /\ fs (snd (llava_analyze_image env (Some buf) st)) = fs st
  /\ exd (snd (llava_analyze_image env (Some buf) st)) = exd st.
Proof.
  unfold eventsOf. rewrite llava_run. cbn [fst snd after fs exd trace].
  rewrite drop_app_length.
  repeat split.
  cbn [List.filter isPost]. rewrite List.filter_app, failureLog_no_post.
  cbn [List.filter isPost List.app]. rewrite failureLog_no_post. reflexivity.
Qed.

(** [enrich] on a picture: the tags are the normalized keyword answer when
    that answer is a string, and the run throws when it is not. *)
Lemma enrich_run buf st :
  exists evs,
    enrich env (Some buf) st
    = (match answerOf (http env (apiUrl env) (keywordsRequest buf)) with
       | VString s =>
           Ok (normalizeTags s,
               answerOf (http env (apiUrl env) (captionRequest buf)))
       | _ => Thrown (TypeError
                        "analyze_results.tags.toLowerCase is not a function")
       end, after st evs)
    /\ List.filter isPost evs
       = [EvPost (apiUrl env) (keywordsRequest buf);
          EvPost (apiUrl env) (captionRequest buf)]
    /\ (forall s,
          answerOf (http env (apiUrl env) (keywordsRequest buf)) = VString s ->
          In (EvLog (LogTags (normalizeTags s))) evs).
Proof.
  assert (List.filter isPost
            (EvPost (apiUrl env) (keywordsRequest buf)
               :: failureLog (http env (apiUrl env) (keywordsRequest buf))
             ++ EvPost (apiUrl env) (captionRequest buf)
               :: failureLog (http env (apiUrl env) (captionRequest buf)))
          = [EvPost (apiUrl env) (keywordsRequest buf);
             EvPost (apiUrl env) (captionRequest buf)]) as Hposts.
  { cbn [List.filter isPost]. rewrite List.filter_app, failureLog_no_post.
    cbn [List.filter isPost List.app]. rewrite failureLog_no_post.
    reflexivity. }
  unfold enrich. rewrite bind_run, llava_run. cbn [fst snd].
  set (posts := (_ :: _ ++ _)%list) in *.
  destruct (answerOf (http env (apiUrl env) (keywordsRequest buf))) as [| | | |s| |];
    try (exists posts; split; [rewrite throw_run; reflexivity|];
         split; [exact Hposts|discriminate]).
  exists (posts ++ [EvLog (LogTags (normalizeTags s));
                    EvLog (LogCaption
                             (answerOf (http env (apiUrl env)
                                          (captionRequest buf))))])%list.
  split.
  - run_monad. reflexivity.
  - split; [rewrite List.filter_app, Hposts; reflexivity|].
    intros s' [= <-]. rewrite in_app_iff. right. left. reflexivity.
Qed.

End Requests.

(** *** The tags written into the EXIF block *)

Section Tags.

Context `{Platform}.


End Tags.

(** *** Stages that only log *)

Section OnlyLogs.

Lemma onlyLogs_ret {A} (a : A) : onlyLogs (mret a).
Proof. intros st. exists []. rewrite after_nil. reflexivity. Qed.

Lemma onlyLogs_throw {A} e : onlyLogs (@throw A e).
Proof. intros st. exists []. rewrite after_nil. reflexivity. Qed.

Lemma onlyLogs_liftResult {A} (r : Result A) : onlyLogs (liftResult r).
Proof. intros st. exists []. rewrite after_nil. reflexivity. Qed.

Lemma onlyLogs_get : onlyLogs get.
Proof. intros st. exists []. rewrite after_nil. reflexivity. Qed.

Lemma onlyLogs_emit e : onlyLogs (emit e).
Proof. intros st. exists [e]. reflexivity. Qed.

Lemma onlyLogs_bind {A B} (m : M A) (f : A -> M B) :
  onlyLogs m -> (forall a, onlyLogs (f a)) -> onlyLogs (m ≫= f).
Proof.
  intros Hm Hf st. rewrite bind_run. destruct (Hm st) as (e1 & E1).
  destruct (m st) as [[a|err] st1]; simpl in E1; subst st1.
  - destruct (Hf a (after st e1)) as (e2 & E2). exists (e1 ++ e2)%list.
    rewrite E2, after_after. reflexivity.
  - exists e1. reflexivity.
Qed.

Lemma onlyLogs_tryCatch {A} (m : M A) (h : Error -> M A) :
  onlyLogs m -> (forall e, onlyLogs (h e)) -> onlyLogs (tryCatch m h).
Proof.
  intros Hm Hh st. unfold tryCatch. destruct (Hm st) as (e1 & E1).
  destruct (m st) as [[a|err] st1]; simpl in E1; subst st1.
  - exists e1. reflexivity.
  - destruct (Hh err (after st e1)) as (e2 & E2). exists (e1 ++ e2)%list.
    rewrite E2, after_after. reflexivity.
Qed.

End OnlyLogs.

Ltac onlyLogs_step :=
  match goal with
  | |- onlyLogs (mret _) => apply onlyLogs_ret
  | |- onlyLogs (throw _) => apply onlyLogs_throw
  | |- onlyLogs (liftResult _) => apply onlyLogs_liftResult
  | |- onlyLogs get => apply onlyLogs_get
  | |- onlyLogs (emit _) => apply onlyLogs_emit
  | |- onlyLogs (log _) => apply onlyLogs_emit
  | |- onlyLogs (_ ≫= _) => apply onlyLogs_bind; [|intros ?]
  | |- onlyLogs (tryCatch _ _) => apply onlyLogs_tryCatch; [|intros ?]
  | |- onlyLogs (match ?x with _ => _ end) =>
      first [progress cbv beta iota | destruct x]
  | |- onlyLogs (let _ := _ in _) => cbv zeta
  end.

Ltac onlyLogs_auto := repeat onlyLogs_step.

Section LoggingStages.

Context `{Platform}.
Variable env : Env.

Lemma onlyLogs_stat f : onlyLogs (Fs.stat f).
Proof. unfold Fs.stat. onlyLogs_auto. Qed.

Lemma onlyLogs_readFileSync f : onlyLogs (Fs.readFileSync f).
Proof. unfold Fs.readFileSync. onlyLogs_auto. Qed.

Lemma onlyLogs_pathExists p : onlyLogs (Fs.pathExists p).
Proof. unfold Fs.pathExists. onlyLogs_auto. Qed.

Lemma onlyLogs_probeVideo f : onlyLogs (probeVideo env f).
Proof. unfold probeVideo. onlyLogs_auto. Qed.

Lemma onlyLogs_enrich buf : onlyLogs (enrich env buf).
Proof.
  unfold enrich, llava_analyze_image, sendLLMRequest. onlyLogs_auto.
Qed.

Lemma onlyLogs_extractLocation f cities gps :
  onlyLogs (extractLocation f cities gps).
Proof. unfold extractLocation. onlyLogs_auto. Qed.

Lemma onlyLogs_extractDate f date Exif : onlyLogs (extractDate f date Exif).
Proof. unfold extractDate. onlyLogs_auto. Qed.

Lemma onlyLogs_collisionLoop fuel : forall destPath filePath p counter,
  onlyLogs (collisionLoop fuel destPath filePath p counter).
Proof.
  induction fuel as [|n IH]; intros destPath filePath p counter; simpl.
  - apply onlyLogs_throw.
  - apply onlyLogs_bind; [apply onlyLogs_pathExists|].
    intros []; [apply IH|apply onlyLogs_ret].
Qed.

End LoggingStages.

(** *** Reading the EXIF block *)

Lemma split_two c s :
  lacks c s = false -> exists a b l, JSString.split c s = a :: b :: l.
Proof.
  unfold lacks. induction s as [|x s IH]; [discriminate|].
  simpl. destruct (Ascii.eqb x c) eqn:E; simpl.
  - intros _. destruct (JSString.split c s) as [|h t] eqn:Hs.
    + exfalso. eapply split_not_nil, Hs.
    + eauto.
  - intros Hs. destruct (IH Hs) as (a & b & l & ->). eauto.
Qed.

Section ExifBlock.

Context `{Platform}.

(** [parseExifDateTime] throws exactly when its argument is not a string or
    is a string without a space; a string with a space always gives a date,
    valid or not. *)
Theorem parseExifDateTime_throws_iff (v : ExifValue) :
  (exists e, parseExifDateTime v = Thrown e)
  <-> match v with
      | EString s => lacks " " s = true
      | _ => True
      end.
Proof.
  destruct v as [s|l|l|z]; try (split; [auto|]; intros _; eexists; reflexivity).
  unfold parseExifDateTime. split.
  - intros [e He]. destruct (lacks " " s) eqn:Hs; [reflexivity|].
    destruct (split_two " " s Hs) as (a & b & l & E). rewrite E in He.
    discriminate He.
  - intros Hs. rewrite split_lacks by exact Hs. eexists. reflexivity.
Qed.

Lemma extractLocation_pure f cities gps :
  exists loc, forall st, fst (extractLocation f cities gps st) = Ok loc.
Proof.
  unfold extractLocation, tryCatch.
  destruct (bool_decide _); [|exists None; reflexivity].
  cbv zeta. unfold liftResult.
  destruct (mapRationals (gps !! Tag.GPSLatitude)) as [la|err];
    [|exists None; reflexivity].
  destruct (mapRationals (gps !! Tag.GPSLongitude)) as [lo|err];
    [|exists None; reflexivity].
  eexists. intros st. reflexivity.
Qed.

Lemma extractExif_run (f : string) (cities : list City)
    (data : list Z) (date : JSDate.t) (st : State) :
  exists date' location evs,
    extractExif f cities (Some data) date st
    = (Ok (date', location),
       {| fs := fs st; exd := Some (loadExifData data);
          trace := (trace st ++ evs)%list |})
    /\ (forall st1,
          fst (extractDate f date (ifdExif (loadExifData data)) st1) = Ok date')
    /\ (forall st2,
          fst (extractLocation f cities (ifdGPS (loadExifData data)) st2)
          = Ok location).
Proof.
  set (e := loadExifData data).
  destruct (extractLocation_pure f cities (ifdGPS e)) as (loc & Eloc).
  pose proof (extractDate_result f date (ifdExif e)) as Hdate.
  set (st0 := {| fs := fs st; exd := Some e; trace := trace st |}).
  destruct (onlyLogs_extractLocation f cities (ifdGPS e) st0) as (evs1 & Erun1).
  pose proof (Eloc st0) as Hl.
  destruct (extractLocation f cities (ifdGPS e) st0) as [r1 st1] eqn:E1.
  simpl in Erun1, Hl. subst r1 st1.
  destruct (onlyLogs_extractDate f date (ifdExif e) (after st0 evs1))
    as (evs2 & Erun2).
  pose proof (Hdate (after st0 evs1)) as Hd.
  destruct (extractDate f date (ifdExif e) (after st0 evs1)) as [r2 st2] eqn:E2.
  simpl in Erun2, Hd. subst r2 st2.
  eexists _, loc, (evs1 ++ evs2)%list. split; [|split].
  - unfold extractExif, tryCatch. cbv zeta. fold e.
    rewrite bind_run. cbn [setExd]. fold st0.
    rewrite bind_run, E1, bind_run, E2, ret_run, after_after. reflexivity.
  - intros st1. rewrite Hdate. reflexivity.
  - exact Eloc.
Qed.

(** Reading the EXIF block of a JPEG never throws.  The block becomes the
    global [exd]; the file system is not touched.  The date comes from the
    Exif IFD alone and the location from the GPS IFD alone: a failure in
    the coordinates is logged and leaves the date as the two date fields
    decide it. *)
Theorem extractExif_never_throws (f : string) (cities : list City)
    (data : list Z) (date : JSDate.t) (st : State) :
  exists date' location evs,
    extractExif f cities (Some data) date st
    = (Ok (date', location),
       {| fs := fs st; exd := Some (loadExifData data);
          trace := (trace st ++ evs)%list |})
    /\ (forall st1,
          fst (extractDate f date (ifdExif (loadExifData data)) st1) = Ok date')
    /\ (forall st2,
          fst (extractLocation f cities (ifdGPS (loadExifData data)) st2)
          = Ok location).
Proof. apply extractExif_run. Qed.

End ExifBlock.

(** *** What a run does to the file system *)

Lemma readFileSync_run f st :
  Fs.readFileSync f st
  = match fs st !! f with
    | Some (File _ data) => (Ok data, after st [EvReadFile f])
    | _ => (Thrown (FsError "read" f), after st [EvReadFile f])
    end.
Proof.
  unfold Fs.readFileSync. rewrite bind_run, emit_run, bind_run. cbn [get].
  change (fs (after st _)) with (fs st).
  destruct (fs st !! f) as [[]|]; reflexivity.
Qed.

Lemma writeFileSync_run now p data st :
  Fs.writeFileSync now p data st
  = match fs st !! p with
    | Some Directory =>
        (Thrown (FsError "write" p), after st [EvWriteFile p data])
    | _ =>
        if Fs.parentIsDirectory p (fs st)
        then (Ok tt, {| fs := <[p := File now data]> (fs st); exd := exd st;
                        trace := (trace st ++ [EvWriteFile p data])%list |})
        else (Thrown (FsError "write" p), after st [EvWriteFile p data])
    end.
Proof.
  unfold Fs.writeFileSync. rewrite bind_run, emit_run, bind_run. cbn [get].
  change (fs (after st _)) with (fs st).
  destruct (fs st !! p) as [[]|]; try reflexivity;
    destruct (Fs.parentIsDirectory p (fs st)); reflexivity.
Qed.

Lemma copy_run now src dst st :
  Fs.copy now src dst st
  = match fs st !! src, fs st !! dst with
    | Some (File _ data), (None | Some (File _ _)) =>
        match Fs.mkdirs (Path.ancestors dst) (fs st) with
        | Some f =>
            (Ok tt, {| fs := <[dst := File now data]> f; exd := exd st;
                       trace := (trace st ++ [EvCopy src dst])%list |})
        | None => (Thrown (FsError "copy" dst), after st [EvCopy src dst])
        end
    | _, _ => (Thrown (FsError "copy" src), after st [EvCopy src dst])
    end.
Proof.
  unfold Fs.copy. rewrite bind_run, emit_run, bind_run. cbn [get].
  change (fs (after st _)) with (fs st).
  destruct (fs st !! src) as [[]|]; try reflexivity;
    destruct (fs st !! dst) as [[]|]; try reflexivity;
    destruct (Fs.mkdirs _ (fs st)); reflexivity.
Qed.

Lemma move_run src dst st :
  Fs.move src dst st
  = match fs st !! src with
    | Some node =>
        if String.eqb src dst
        then (Thrown (FsError "move" src), after st [EvMove src dst])
        else match Fs.mkdirs (Path.ancestors dst) (fs st) with
             | Some f =>
                 (Ok tt, {| fs := <[dst := node]> (delete src f);
                            exd := exd st;
                            trace := (trace st ++ [EvMove src dst])%list |})
             | None => (Thrown (FsError "move" dst), after st [EvMove src dst])
             end
    | None => (Thrown (FsError "move" src), after st [EvMove src dst])
    end.
Proof.
  unfold Fs.move. rewrite bind_run, emit_run, bind_run. cbn [get].
  change (fs (after st _)) with (fs st).
  destruct (fs st !! src) as [node|]; try reflexivity.
  destruct (String.eqb src dst); try reflexivity.
  destruct (Fs.mkdirs _ (fs st)); reflexivity.
Qed.

Lemma dirsAdded_refl f : dirsAdded f f.
Proof. split; [reflexivity|auto]. Qed.

Lemma dirsAdded_trans f0 f1 f2 :
  dirsAdded f0 f1 -> dirsAdded f1 f2 -> dirsAdded f0 f2.
Proof.
  intros [S1 F1] [S2 F2]. split; [etransitivity; eassumption|].
  intros p mt c Hp. eapply F1, F2, Hp.
Qed.

Lemma mkdirs_dirsAdded ps : forall f f',
  Fs.mkdirs ps f = Some f' -> dirsAdded f f'.
Proof.
  induction ps as [|q ps IH]; intros f f' Hm; simpl in Hm.
  - injection Hm as <-. apply dirsAdded_refl.
  - destruct (f !! q) as [[mt' data'|]|] eqn:Hq; [discriminate| |].
    + rewrite insert_id in Hm by exact Hq. eapply IH, Hm.
    + eapply dirsAdded_trans; [|eapply IH, Hm]. split.
      * apply insert_subseteq, Hq.
      * intros p mt c. destruct (decide (q = p)) as [->|Hne].
        -- rewrite lookup_insert_eq. discriminate.
        -- rewrite lookup_insert_ne by exact Hne. auto.
Qed.

Lemma length_app a b :
  String.length (a +:+ b) = (String.length a + String.length b)%nat.
Proof.
  induction a as [|x a IH]; [reflexivity|].
  rewrite app_cons. simpl. rewrite IH. reflexivity.
Qed.

(** Every proper ancestor of a path is shorter than the path. *)
Lemma prefixesAtSep_shorter todo : forall done q,
  In q (Path.prefixesAtSep done todo) ->
  (String.length q < String.length done + String.length todo)%nat.
Proof.
  induction todo as [|c todo IH]; intros done q Hq; simpl in Hq; [contradiction|].
  apply in_app_or in Hq as [Hq|Hq].
  - destruct (_ && _); [|contradiction]. destruct Hq as [<-|[]]. simpl. lia.
  - apply IH in Hq. rewrite length_app in Hq. simpl in *. lia.
Qed.

Lemma ancestors_proper p : ~ In p (Path.ancestors p).
Proof.
  intros Hin. apply prefixesAtSep_shorter in Hin. simpl in Hin. lia.
Qed.

Lemma mkdirs_outside ps : forall f f' p,
  Fs.mkdirs ps f = Some f' -> ~ In p ps -> f' !! p = f !! p.
Proof.
  induction ps as [|q ps IH]; intros f f' p Hm Hp; simpl in Hm.
  - injection Hm as <-. reflexivity.
  - destruct (f !! q) as [[mt' data'|]|] eqn:Hq; [discriminate| |];
      (rewrite (IH _ _ p Hm) by (intros Hin; apply Hp; right; exact Hin);
       apply lookup_insert_ne; intros ->; apply Hp; left; reflexivity).
Qed.

Section Running.

Context `{Platform}.
Variable env : Env.

Lemma processFile_fs f d cities st :
  fs (snd (processFile env f d cities st))
  = fs (snd (processFileBody env f d cities st)).
Proof.
  unfold processFile, tryCatch.
  destruct (processFileBody env f d cities st) as [[[]|e] st']; reflexivity.
Qed.

Lemma processFile_ok f d cities st :
  fst (processFile env f d cities st) = Ok tt.
Proof.
  unfold processFile, tryCatch.
  destruct (processFileBody env f d cities st) as [[[]|e] st']; reflexivity.
Qed.

(** A picture with a JPEG extension is a picture. *)
Lemma jpeg_is_picture l : isJpegType l = true -> isPicture l = true.
Proof. unfold isPicture. intros ->. reflexivity. Qed.

Lemma processLlm_not_video l : processLlm env l = true -> isVideo l = false.
Proof.
  unfold processLlm. destruct (isVideo l); [|reflexivity].
  destruct (_ || _); discriminate.
Qed.

Lemma forallb_planOnly l :
  forallb planOnly l = true ->
  forallb beforeDecision l = true /\ forallb notPost l = true
  /\ forallb notTagsLog l = true.
Proof.
  intros Hl. repeat split; revert Hl; apply forallb_weaken; intros e;
    unfold planOnly; intros [[? ?]%andb_true_iff ?]%andb_true_iff; assumption.
Qed.

Lemma probeVideo_run f st :
  probeVideo env f st
  = match ffprobe env f with
    | Some data => (Ok tt, after st [EvProbe f; EvLog (LogVideo data)])
    | None => (Thrown (ProbeError f), after st [EvProbe f])
    end.
Proof.
  unfold probeVideo. rewrite bind_run, emit_run.
  destruct (ffprobe env f); [rewrite log_run, after_after|]; reflexivity.
Qed.

(** A run of the body of [processFile] either ends before [placement],
    leaving the file system as it was, or reaches [placement] on a file
    whose bytes it holds, with the file system as it was, the EXIF block of
    a JPEG loaded, and the date, the location, the tags and the caption
    decided as lines 320-392 decide them. *)
Lemma plan f d cities st :
  (stopsEarly env f (fs st)
   /\ fs (snd (processFileBody env f d cities st)) = fs st
   /\ (exists evs,
         trace (snd (processFileBody env f d cities st))
         = (trace st ++ evs)%list
         /\ forallb beforeDecision evs = true
         /\ (processLlm env (JSString.toLowerCase f) = false ->
               forallb notPost evs = true))
   /\ (fst (processFileBody env f d cities st) = Ok tt ->
       forall mt data, fs st !! f = Some (File mt data) ->
         isPicture (JSString.toLowerCase f) = false
         /\ isVideo (JSString.toLowerCase f) = false))
  \/ exists mt data st0 evs0 date loc tags caption,
       fs st !! f = Some (File mt data)
       /\ fs st0 = fs st
       /\ trace st0 = (trace st ++ evs0)%list
       /\ forallb beforeDecision evs0 = true
       /\ (isJpegType (JSString.toLowerCase f) = true ->
             exd st0 = Some (loadExifData data)
             /\ (forall s1,
                   fst (extractDate f (JSDate.ofTime mt)
                          (ifdExif (loadExifData data)) s1) = Ok date)
             /\ (forall s2,
                   fst (extractLocation f cities
                          (ifdGPS (loadExifData data)) s2) = Ok loc))
       /\ (isJpegType (JSString.toLowerCase f) = false ->
             date = JSDate.ofTime mt /\ loc = None)
       /\ (processLlm env (JSString.toLowerCase f) = false ->
             tags = None /\ forallb notPost evs0 = true
             /\ forallb notTagsLog evs0 = true)
       /\ (processLlm env (JSString.toLowerCase f) = true ->
             exists s,
               answerOf (http env (apiUrl env) (keywordsRequest data))
               = VString s
               /\ tags = Some (normalizeTags s)
               /\ caption
                  = answerOf (http env (apiUrl env) (captionRequest data))
               /\ In (EvLog (LogTags (normalizeTags s))) evs0)
       /\ (isVideo (JSString.toLowerCase f) = false ->
             isPicture (JSString.toLowerCase f) = true)
       /\ (isVideo (JSString.toLowerCase f) = true ->
             exists v, ffprobe env f = Some v)
       /\ processFileBody env f d cities st
          = placement env f d (processLlm env (JSString.toLowerCase f))
              (isJpegType (JSString.toLowerCase f))
              (isVideo (JSString.toLowerCase f))
              date loc tags caption
              (if isPicture (JSString.toLowerCase f) then Some data else None)
              st0.
Proof.
  unfold processFileBody, stopsEarly. rewrite bind_run, stat_run.
  destruct (fs st !! f) as [[mt data|]|] eqn:Hf.
  2: { left. split; [exact I|]. split; [reflexivity|].
       split; [exists [EvStat f]; auto|]. intros _ ? ? [=]. }
  2: { left. split; [exact I|]. split; [reflexivity|].
       split; [exists [EvStat f]; auto|]. intros [=]. }
  cbv zeta. cbn [isFile mtime].
  set (lcfp := JSString.toLowerCase f).
  destruct (isPicture lcfp || isVideo lcfp) eqn:Hsup.
  2: { left. split; [auto|]. split; [reflexivity|].
       split; [exists [EvStat f]; auto|].
       intros _ ? ? _. apply orb_false_iff, Hsup. }
  rewrite bind_run.
  (* the bytes *)
  assert (exists evs2,
            (if isPicture lcfp
             then buf ← Fs.readFileSync f; mret (Some buf)
             else mret None) (after st [EvStat f])
            = (Ok (if isPicture lcfp then Some data else None), after st evs2)
            /\ forallb planOnly evs2 = true)
    as (evs2 & -> & N2).
  { destruct (isPicture lcfp).
    - rewrite bind_run, readFileSync_run.
      change (fs (after st _)) with (fs st). rewrite Hf, ret_run, after_after.
      eexists. split; reflexivity.
    - rewrite ret_run. eexists. split; reflexivity. }
  rewrite bind_run.
  (* the EXIF block *)
  assert (exists st3 evs3 date loc,
            (if isJpegType lcfp
             then extractExif f cities
                    (if isPicture lcfp then Some data else None)
                    (JSDate.ofTime mt)
             else mret (JSDate.ofTime mt, None)) (after st evs2)
            = (Ok (date, loc), st3)
            /\ fs st3 = fs st /\ trace st3 = (trace st ++ evs3)%list
            /\ forallb planOnly evs3 = true
            /\ (isJpegType lcfp = true ->
                  exd st3 = Some (loadExifData data)
                  /\ (forall s1,
                        fst (extractDate f (JSDate.ofTime mt)
                               (ifdExif (loadExifData data)) s1) = Ok date)
                  /\ (forall s2,
                        fst (extractLocation f cities
                               (ifdGPS (loadExifData data)) s2) = Ok loc))
            /\ (isJpegType lcfp = false ->
                  date = JSDate.ofTime mt /\ loc = None))
    as (st3 & evs3 & date & loc & -> & F3 & T3 & N3 & J3 & NJ3).
  { destruct (isJpegType lcfp) eqn:Hj.
    - rewrite (jpeg_is_picture _ Hj).
      destruct (extractExif_run f cities data (JSDate.ofTime mt) (after st evs2))
        as (date & loc & evs & Hrun & Hd & Hl).
      destruct (emits_extractExif planOnly f cities (Some data)
                  (JSDate.ofTime mt)) with (st := after st evs2)
        as (evs' & Ht' & Hn'); try reflexivity.
      rewrite Hrun in Ht'. cbn [snd trace after] in Ht'.
      apply app_inv_head in Ht'. subst evs'.
      eexists _, (evs2 ++ evs)%list, date, loc.
      split; [exact Hrun|]. cbn [fs trace after].
      split; [reflexivity|]. split; [symmetry; apply List.app_assoc|].
      split; [rewrite forallb_app, N2, Hn'; reflexivity|].
      split; [auto|discriminate].
    - rewrite ret_run. exists (after st evs2), evs2, (JSDate.ofTime mt), None.
      repeat split; auto; discriminate. }
  apply forallb_planOnly in N3 as (B3 & N3 & L3).
  cbn [fst snd]. rewrite bind_run.
  (* the probe *)
  assert (exists evs4 r4,
            (if isVideo lcfp then probeVideo env f else mret tt) st3
            = (r4, after st3 evs4)
            /\ forallb planOnly evs4 = true
            /\ (forall err, r4 = Thrown err ->
                  isVideo lcfp = true /\ ffprobe env f = None)
            /\ (r4 = Ok tt -> isVideo lcfp = true ->
                  exists v, ffprobe env f = Some v))
    as (evs4 & r4 & -> & N4 & Hbad & Hgood).
  { destruct (isVideo lcfp).
    - rewrite probeVideo_run. destruct (ffprobe env f) as [v|].
      + eexists _, _. split; [reflexivity|]. split; [reflexivity|].
        split; [discriminate|eauto].
      + eexists _, _. split; [reflexivity|]. split; [reflexivity|].
        split; [auto|discriminate].
    - exists [], (Ok tt). rewrite after_nil. split; [reflexivity|].
      split; [reflexivity|]. split; discriminate. }
  apply forallb_planOnly in N4 as (B4 & N4 & L4).
  destruct r4 as [[]|err].
  2: { left. cbn [fst snd after fs trace].
       split; [right; left; apply (Hbad err eq_refl)|]. split; [exact F3|].
       split; [|discriminate]. exists (evs3 ++ evs4)%list.
       rewrite T3, <- List.app_assoc, !forallb_app, B3, B4, N3, N4. auto. }
  rewrite bind_run.
  destruct (processLlm env lcfp) eqn:Hllm.
  - pose proof (processLlm_not_video _ Hllm) as Hnv.
    assert (isPicture lcfp = true) as Hpic
      by (rewrite Hnv, orb_false_r in Hsup; exact Hsup).
    rewrite Hpic. rewrite bind_run.
    destruct (emits_enrich env beforeDecision (Some data)) with
      (st := after st3 evs4) as (evs5' & T5 & B5); try reflexivity.
    destruct (enrich_run env data (after st3 evs4)) as (evs5 & Hrun5 & _ & Hlog).
    rewrite Hrun5 in T5. cbn [snd trace after] in T5.
    apply app_inv_head in T5. subst evs5'. rewrite Hrun5.
    destruct (answerOf (http env (apiUrl env) (keywordsRequest data)))
      as [| | | |s| |] eqn:Hs;
      try (left; cbn [fst snd after fs trace];
           split; [right; right; split; [reflexivity|discriminate]|];
           split; [exact F3|];
           split; [|discriminate]; exists (evs3 ++ evs4 ++ evs5)%list;
           rewrite T3, <- !List.app_assoc, !forallb_app, B3, B4, B5;
           split; [reflexivity|]; split; [reflexivity|discriminate]).
    rewrite ret_run. cbn [fst snd]. right.
    exists mt, data, (after (after st3 evs4) evs5), (evs3 ++ evs4 ++ evs5)%list,
      date, loc, (Some (normalizeTags s)),
      (answerOf (http env (apiUrl env) (captionRequest data))).
    split; [reflexivity|]. split; [exact F3|].
    split; [cbn [trace after]; rewrite T3, <- !List.app_assoc; reflexivity|].
    split; [rewrite !forallb_app, B3, B4, B5; reflexivity|].
    split; [exact J3|]. split; [exact NJ3|].
    split; [discriminate|].
    split; [intros _; exists s; repeat split; auto;
            rewrite !in_app_iff; right; right; apply (Hlog s eq_refl)|].
    split; [auto|]. split; [rewrite Hnv; discriminate|reflexivity].
  - rewrite ret_run. cbn [fst snd]. right.
    exists mt, data, (after st3 evs4), (evs3 ++ evs4)%list, date, loc, None,
      (VBool false).
    split; [reflexivity|]. split; [exact F3|].
    split; [cbn [trace after]; rewrite T3, <- !List.app_assoc; reflexivity|].
    split; [rewrite !forallb_app, B3, B4; reflexivity|].
    split; [exact J3|]. split; [exact NJ3|].
    split; [intros _; split; [reflexivity|];
            rewrite !forallb_app, N3, N4, L3, L4; auto|].
    split; [discriminate|].
    split; [|split; [apply (Hgood eq_refl)|reflexivity]].
    intros Hv. rewrite Hv, orb_false_r in Hsup. exact Hsup.
Qed.

End Running.

(** *** Placing a picture *)

Lemma deposited_insert now dst bytes f0 fb :
  dirsAdded f0 fb -> f0 !! dst = None -> fb !! dst = None ->
  deposited now dst bytes f0 (<[dst := File now bytes]> fb).
Proof.
  intros [Hsub Hfiles] H0 Hb.
  split; [exact H0|]. split; [apply lookup_insert_eq|].
  split; [etransitivity; [exact Hsub|apply insert_subseteq, Hb]|].
  intros p mt' c. destruct (decide (dst = p)) as [->|Hp]; [auto|].
  rewrite lookup_insert_ne by exact Hp. intros Hq. right. eapply Hfiles, Hq.
Qed.

Lemma deposited_after now dst bytes f0 f1 f3 :
  dirsAdded f0 f1 -> deposited now dst bytes f1 f3 ->
  deposited now dst bytes f0 f3.
Proof.
  intros [Hsub Hfiles] (H1 & H3 & Hs & Hf).
  split; [eapply lookup_weaken_None; eassumption|].
  split; [exact H3|]. split; [etransitivity; eassumption|].
  intros p mt c Hp. destruct (Hf p mt c Hp) as [->|Hq]; [auto|].
  right. eapply Hfiles, Hq.
Qed.

Section Placing.

Context `{Platform}.
Variable env : Env.

(** Lines 444-451, started with the original still in place. *)
Lemma move_spec f mt data s :
  fs s !! f = Some (File mt data) ->
  exists r st3,
    match processedDir (argv env) with
    | Some dir =>
        if JSString.truthy dir then
          let relfilepath := path_relative (sourceDir (argv env)) f in
          let processedFilePath := Path.join [dir; relfilepath] in
          log (LogMove f processedFilePath);;
          Fs.move f processedFilePath
        else mret tt
    | None => mret tt
    end s = (r, st3)
    /\ moveOutcome env f mt data (fs s) r (fs st3).
Proof.
  intros Hf. unfold moveOutcome, keepsOriginals.
  destruct (processedDir (argv env)) as [dir|] eqn:Hp.
  2: { eexists _, _. split; [reflexivity|]. left. auto. }
  destruct (JSString.truthy dir) eqn:Ht.
  2: { eexists _, _. split; [reflexivity|]. left. auto. }
  cbv zeta. fold (processedPath env dir f).
  rewrite bind_run, log_run, move_run.
  change (fs (after s _)) with (fs s). rewrite Hf.
  destruct (String.eqb_spec f (processedPath env dir f)) as [Heq|Hne].
  { eexists _, _. split; [reflexivity|]. left. split; [reflexivity|discriminate]. }
  destruct (Fs.mkdirs _ (fs s)) as [f4|] eqn:Hm.
  2: { eexists _, _. split; [reflexivity|]. left.
       split; [reflexivity|discriminate]. }
  eexists _, _. split; [reflexivity|]. right. exists dir, f4.
  repeat split; auto.
Qed.

Lemma place_spec f dst jpeg tags caption data mt e st2 :
  fs st2 !! f = Some (File mt data) ->
  fs st2 !! dst = None ->
  (jpeg = true -> exd st2 = Some e) ->
  exists r st3,
    place env f dst jpeg tags caption (Some data) st2 = (r, st3)
    /\ placeOutcome env f mt data (jpeg && hasTags tags) e (tagList tags)
         caption (fs st2) r (fs st3).
Proof.
  intros Hf Hdst Hexd.
  (* the move, after a deposit that left the state [s] *)
  assert (forall bytes s,
            deposited (now env) dst bytes (fs st2) (fs s) ->
            placedBytes (jpeg && hasTags tags) e (tagList tags) caption data
              bytes ->
            exists r st3,
              (match processedDir (argv env) with
               | Some dir =>
                   if JSString.truthy dir then
                     let relfilepath := path_relative (sourceDir (argv env)) f in
                     let processedFilePath := Path.join [dir; relfilepath] in
                     log (LogMove f processedFilePath);;
                     Fs.move f processedFilePath
                   else mret tt
               | None => mret tt
               end) s = (r, st3)
              /\ placeOutcome env f mt data (jpeg && hasTags tags) e
                   (tagList tags) caption (fs st2) r (fs st3)) as Hmove.
  { intros bytes s Hdep Hbytes.
    assert (fs s !! f = Some (File mt data)) as Hfs.
    { destruct Hdep as (_ & _ & Hsub & _). eapply lookup_weaken; eassumption. }
    destruct (move_spec f mt data s Hfs) as (r & st3 & Hrun & Hcases).
    exists r, st3. split; [exact Hrun|]. right. exists dst, bytes, (fs s).
    auto. }
  assert (forall err f', f' = fs st2 ->
            placeOutcome env f mt data (jpeg && hasTags tags) e (tagList tags)
              caption (fs st2) (Thrown err) f') as Hfail.
  { intros err f' ->. left. split; [eauto|apply dirsAdded_refl]. }
  (* the plain copy *)
  assert (jpeg && hasTags tags = false ->
          exists r st3,
            ((log (LogCopy f dst);; Fs.copy (now env) f dst);;
             match processedDir (argv env) with
             | Some dir =>
                 if JSString.truthy dir then
                   let relfilepath := path_relative (sourceDir (argv env)) f in
                   let processedFilePath := Path.join [dir; relfilepath] in
                   log (LogMove f processedFilePath);;
                   Fs.move f processedFilePath
                 else mret tt
             | None => mret tt
             end) st2 = (r, st3)
            /\ placeOutcome env f mt data (jpeg && hasTags tags) e
                 (tagList tags) caption (fs st2) r (fs st3)) as Hcopy.
  { intros Hw. rewrite !bind_run, log_run, copy_run.
    change (fs (after st2 _)) with (fs st2). rewrite Hf, Hdst.
    destruct (Fs.mkdirs (Path.ancestors dst) (fs st2)) as [fb|] eqn:Hm.
    2: { eexists _, _. split; [reflexivity|]. apply Hfail. reflexivity. }
    apply (Hmove data).
    - cbn [fs]. apply deposited_insert; [eapply mkdirs_dirsAdded, Hm|exact Hdst|].
      rewrite (mkdirs_outside _ _ _ dst Hm (ancestors_proper dst)). exact Hdst.
    - rewrite Hw. reflexivity. }
  unfold place. rewrite bind_run. unfold saveWithExif.
  rewrite bind_run, get_run.
  destruct jpeg; [|rewrite ret_run; apply Hcopy; reflexivity].
  rewrite (Hexd eq_refl).
  destruct (hasTags tags) eqn:Ht; [|rewrite ret_run; apply Hcopy; reflexivity].
  rewrite bind_run. unfold liftResult.
  destruct (exifAddTags e (tagList tags) caption) as [e'|err] eqn:He.
  2: { eexists _, _. split; [reflexivity|]. apply Hfail. reflexivity. }
  rewrite bind_run. cbn [setExd]. rewrite bind_run, log_run, bind_run.
  unfold exifSavePicture.
  destruct (piexif_dump e') as [eb|] eqn:Hd.
  2: { eexists _, _. split; [reflexivity|]. apply Hfail. reflexivity. }
  destruct (piexif_insert eb data) as [bytes|] eqn:Hi.
  2: { eexists _, _. split; [reflexivity|]. apply Hfail. reflexivity. }
  rewrite writeFileSync_run. cbn [fs after]. rewrite Hdst.
  destruct (Fs.parentIsDirectory dst (fs st2)).
  2: { eexists _, _. split; [reflexivity|]. apply Hfail. reflexivity. }
  rewrite ret_run. cbn [negb]. rewrite bind_run, ret_run.
  apply (Hmove bytes).
  - cbn [fs]. apply deposited_insert; [apply dirsAdded_refl|exact Hdst..].
  - cbn [andb placedBytes]. eauto.
Qed.

(** [placement] of a picture. *)
Lemma placement_spec f d llm jpeg date loc tags caption data mt e st0 :
  fs st0 !! f = Some (File mt data) ->
  (jpeg = true -> exd st0 = Some e) ->
  exists r st',
    placement env f d llm jpeg false date loc tags caption (Some data) st0
    = (r, st')
    /\ placeOutcome env f mt data (jpeg && hasTags tags) e (tagList tags)
         caption (fs st0) r (fs st').
Proof.
  intros Hf Hexd. unfold placement. cbv zeta.
  rewrite bind_run, ensureDir_run.
  destruct (Fs.mkdirs _ (fs st0)) as [f1|] eqn:Hm.
  2: { eexists _, _. split; [reflexivity|]. left.
       split; [eauto|apply dirsAdded_refl]. }
  pose proof (mkdirs_dirsAdded _ _ _ Hm) as Hdirs.
  cbn [negb]. rewrite bind_run, get_run. cbn [fs].
  set (st1 := {| fs := f1; exd := exd st0;
                 trace := (trace st0 ++ [EvEnsureDir _])%list |}).
  rewrite bind_run.
  change f1 with (fs st1) at 1.
  destruct (collisionLoop_first_free (destinationDir d date loc) f st1
              (destinationFile (destinationDir d date loc) f llm tags) 1)
    as (n & _ & Hfree & _ & ->).
  set (dst := attempt _ _ _ _ n) in *.
  match goal with
  | |- context [place env f dst jpeg tags caption (Some data) ?s] =>
      assert (fs s !! f = Some (File mt data)) as H1
        by (destruct Hdirs as [Hsub _]; eapply lookup_weaken; eassumption);
      assert (fs s !! dst = None) as H2 by exact Hfree;
      assert (jpeg = true -> exd s = Some e) as H3 by exact Hexd;
      destruct (place_spec f dst jpeg tags caption data mt e s H1 H2 H3)
        as (r & st3 & Hrun & Hout)
  end.
  rewrite Hrun. exists r, st3. split; [reflexivity|].
  cbn [fs after st1] in Hout.
  destruct Hout as [[Herr Hd]|(dst' & bytes & f3 & Hdep & Hb & Hmv)].
  - left. split; [exact Herr|]. eapply dirsAdded_trans; eassumption.
  - right. exists dst', bytes, f3.
    split; [eapply deposited_after; eassumption|]. auto.
Qed.

End Placing.

(** *** What one run of [processFile] leaves behind *)

Section Outcome.

Context `{Platform}.
Variable env : Env.

Lemma placement_skip f d llm jpeg date loc tags caption buf st0 :
  dirsAdded (fs st0)
    (fs (snd (placement env f d llm jpeg true date loc tags caption buf st0))).
Proof.
  unfold placement. cbv zeta. rewrite bind_run, ensureDir_run.
  destruct (Fs.mkdirs _ (fs st0)) as [f1|] eqn:Hm.
  - cbn [negb]. rewrite log_run. cbn [snd fs after].
    eapply mkdirs_dirsAdded, Hm.
  - apply dirsAdded_refl.
Qed.

Lemma placement_skip_ok f d llm jpeg date loc tags caption buf st0 r st' :
  placement env f d llm jpeg true date loc tags caption buf st0 = (r, st') ->
  exists rest,
    trace st' = (trace st0 ++ EvEnsureDir (destinationDir d date loc) :: rest)%list.
Proof.
  unfold placement. cbv zeta. rewrite bind_run, ensureDir_run.
  destruct (Fs.mkdirs _ (fs st0)) as [f1|] eqn:Hm.
  - cbn [negb]. rewrite log_run. intros [= <- <-]. cbn [trace after].
    rewrite <- List.app_assoc. eauto.
  - intros [= <- <-]. cbn [trace after]. eauto.
Qed.

(** The run of the body of [processFile], seen from the file system: new
    directories at most, or a picture placed. *)
Lemma run_outcome f d cities st :
  (dirsAdded (fs st) (fs (snd (processFileBody env f d cities st)))
   /\ (fst (processFileBody env f d cities st) = Ok tt ->
       forall mt data, fs st !! f = Some (File mt data) ->
         isPicture (JSString.toLowerCase f) = false))
  \/ exists mt data tags caption,
       fs st !! f = Some (File mt data)
       /\ isPicture (JSString.toLowerCase f) = true
       /\ (processLlm env (JSString.toLowerCase f) = false -> tags = None)
       /\ (processLlm env (JSString.toLowerCase f) = true ->
             exists s,
               answerOf (http env (apiUrl env) (keywordsRequest data))
               = VString s
               /\ tags = Some (normalizeTags s)
               /\ caption
                  = answerOf (http env (apiUrl env) (captionRequest data)))
       /\ placeOutcome env f mt data
            (isJpegType (JSString.toLowerCase f) && hasTags tags)
            (loadExifData data) (tagList tags) caption (fs st)
            (fst (processFileBody env f d cities st))
            (fs (snd (processFileBody env f d cities st))).
Proof.
  destruct (plan env f d cities st)
    as [(_ & F & _ & Hok)
       |(mt & data & st0 & evs0 & date & loc & tags & caption & Hf & F0 & T0
         & B0 & J & NJ & Hoff & Hon & Hpic & _ & Hrun)].
  - left. rewrite F. split; [apply dirsAdded_refl|].
    intros Hr mt data Hf. apply (Hok Hr mt data Hf).
  - rewrite Hrun. destruct (isVideo (JSString.toLowerCase f)) eqn:Hv.
    + left. rewrite <- F0. split; [apply placement_skip|].
      intros _ ? ? _. apply video_not_picture, Hv.
    + right. rewrite (Hpic eq_refl).
      destruct (placement_spec env f d
                  (processLlm env (JSString.toLowerCase f))
                  (isJpegType (JSString.toLowerCase f))
                  date loc tags caption data mt (loadExifData data) st0)
        as (r & st' & -> & Hout).
      * rewrite F0. exact Hf.
      * intros Hj. apply (J Hj).
      * exists mt, data, tags, caption.
        split; [exact Hf|]. split; [reflexivity|].
        split; [intros Hl; apply (Hoff Hl)|].
        split; [intros Hl; destruct (Hon Hl) as (s & ? & ? & ? & _); eauto|].
        rewrite <- F0. exact Hout.
Qed.

(** Without a directory for processed originals, a run only adds to the
    file system: every file and every directory that was there is still
    there, with the same content.  In particular no existing picture of the
    destination is overwritten. *)
Theorem processFile_only_adds (f d : string) (cities : list City)
    (st : State) :
  keepsOriginals env ->
  fs st ⊆ fs (snd (processFile env f d cities st)).
Proof.
  intros Hkeep. rewrite processFile_fs.
  destruct (run_outcome f d cities st)
    as [[[Hsub _] _]|(mt & data & tags & caption & _ & _ & _ & _ & Hout)];
    [exact Hsub|].
  destruct Hout as [[_ [Hsub _]]|(dst & bytes & f3 & Hdep & _ & Hmv)];
    [exact Hsub|].
  destruct Hdep as (_ & _ & Hsub & _).
  destruct Hmv as [[-> _]|(dir & f4 & Hp & Ht & _)]; [exact Hsub|].
  unfold keepsOriginals in Hkeep. rewrite Hp, Ht in Hkeep. discriminate.
Qed.

(** Whatever a run does and however it fails, the file it was given is not
    lost: afterwards it is where it was, unchanged, or it is at its path
    under the directory for processed originals, unchanged. *)
Theorem original_is_never_lost (f d : string) (cities : list City)
    (st : State) (node : FsNode) :
  fs st !! f = Some node ->
  fs (snd (processFile env f d cities st)) !! f = Some node
  \/ exists dir,
       processedDir (argv env) = Some dir
       /\ fs (snd (processFile env f d cities st)) !! f = None
       /\ fs (snd (processFile env f d cities st)) !! processedPath env dir f
          = Some node.
Proof.
  intros Hnode. rewrite processFile_fs.
  destruct (run_outcome f d cities st)
    as [[[Hsub _] _]|(mt & data & tags & caption & Hf & _ & _ & _ & Hout)].
  { left. eapply lookup_weaken; eassumption. }
  destruct Hout as [[_ [Hsub _]]|(dst & bytes & f3 & Hdep & _ & Hmv)].
  { left. eapply lookup_weaken; eassumption. }
  destruct Hdep as (_ & _ & Hsub & _).
  destruct Hmv as [[-> _]|(dir & f4 & Hp & Ht & _ & Hne & Hm & ->)].
  { left. eapply lookup_weaken; eassumption. }
  right. exists dir. split; [exact Hp|].
  rewrite Hf in Hnode. injection Hnode as <-.
  split; [|apply lookup_insert_eq].
  rewrite lookup_insert_ne by exact Hne. apply lookup_delete_eq.
Qed.

(** With a directory for processed originals, a picture whose run completes
    has left its place and is at its processed path, unchanged. *)
Theorem processed_original_is_moved (f d : string) (cities : list City)
    (st : State) (dir : string) (mt : Z) (data : list Z) :
  processedDir (argv env) = Some dir ->
  JSString.truthy dir = true ->
  isPicture (JSString.toLowerCase f) = true ->
  fs st !! f = Some (File mt data) ->
  fst (processFileBody env f d cities st) = Ok tt ->
  fs (snd (processFile env f d cities st)) !! f = None
  /\ fs (snd (processFile env f d cities st)) !! processedPath env dir f
     = Some (File mt data).
Proof.
  intros Hp Ht Hpic Hf Hok. rewrite processFile_fs.
  destruct (run_outcome f d cities st)
    as [[_ Hno]|(mt' & data' & tags & caption & Hf' & _ & _ & _ & Hout)].
  { rewrite (Hno Hok mt data Hf) in Hpic. discriminate. }
  rewrite Hf in Hf'. injection Hf' as <- <-.
  destruct Hout as [[[err Herr] _]|(dst & bytes & f3 & Hdep & _ & Hmv)].
  { rewrite Hok in Herr. discriminate. }
  destruct Hmv as [[_ Hkeep]|(dir' & f4 & Hp' & _ & _ & Hne & Hm & ->)].
  { specialize (Hkeep Hok). unfold keepsOriginals in Hkeep.
    rewrite Hp, Ht in Hkeep. discriminate. }
  rewrite Hp in Hp'. injection Hp' as <-.
  split; [|apply lookup_insert_eq].
  rewrite lookup_insert_ne by exact Hne. apply lookup_delete_eq.
Qed.

(** A picture that does not get tags into its EXIF block (no JPEG
    extension, or enrichment not used for it) is copied byte for byte: when
    the run completes, the file system is the old one with one new file, at
    a path that was free, holding exactly the bytes of the original. *)
Theorem plain_copy_is_byte_identical (f d : string) (cities : list City)
    (st : State) (mt : Z) (data : list Z) :
  keepsOriginals env ->
  isPicture (JSString.toLowerCase f) = true ->
  isJpegType (JSString.toLowerCase f)
  && processLlm env (JSString.toLowerCase f) = false ->
  fs st !! f = Some (File mt data) ->
  fst (processFileBody env f d cities st) = Ok tt ->
  exists dst,
    deposited (now env) dst data (fs st)
      (fs (snd (processFile env f d cities st))).
Proof.
  intros Hkeep Hpic Hplain Hf Hok. rewrite processFile_fs.
  destruct (run_outcome f d cities st)
    as [[_ Hno]|(mt' & data' & tags & caption & Hf' & _ & Hoff & _ & Hout)].
  { rewrite (Hno Hok mt data Hf) in Hpic. discriminate. }
  rewrite Hf in Hf'. injection Hf' as <- <-.
  destruct Hout as [[[err Herr] _]|(dst & bytes & f3 & Hdep & Hb & Hmv)].
  { rewrite Hok in Herr. discriminate. }
  assert (isJpegType (JSString.toLowerCase f) && hasTags tags = false) as Hw.
  { apply andb_false_iff in Hplain as [Hj|Hl]; [rewrite Hj; reflexivity|].
    rewrite (Hoff Hl). apply andb_false_r. }
  rewrite Hw in Hb. cbn [placedBytes] in Hb. subst bytes.
  destruct Hmv as [[-> _]|(dir & f4 & Hp & Ht & _)]; [exists dst; exact Hdep|].
  unfold keepsOriginals in Hkeep. rewrite Hp, Ht in Hkeep. discriminate.
Qed.

(** A JPEG that is enriched is written by the EXIF writer: when the run
    completes, the file system is the old one with one new file, at a path
    that was free, holding the original with its own EXIF block, updated
    with the normalized keywords and the caption, inserted. *)
Theorem tagged_jpeg_is_the_original_with_tags (f d : string)
    (cities : list City) (st : State) (mt : Z) (data : list Z) :
  keepsOriginals env ->
  isJpegType (JSString.toLowerCase f) = true ->
  processLlm env (JSString.toLowerCase f) = true ->
  fs st !! f = Some (File mt data) ->
  fst (processFileBody env f d cities st) = Ok tt ->
  exists response e' exifBytes bytes dst,
    answerOf (http env (apiUrl env) (keywordsRequest data)) = VString response
    /\ exifAddTags (loadExifData data) (normalizeTags response)
         (answerOf (http env (apiUrl env) (captionRequest data))) = Ok e'
    /\ piexif_dump e' = Some exifBytes
    /\ piexif_insert exifBytes data = Some bytes
    /\ deposited (now env) dst bytes (fs st)
         (fs (snd (processFile env f d cities st))).
Proof.
  intros Hkeep Hj Hllm Hf Hok. rewrite processFile_fs.
  destruct (run_outcome f d cities st)
    as [[_ Hno]|(mt' & data' & tags & caption & Hf' & _ & _ & Hon & Hout)].
  { pose proof (Hno Hok mt data Hf) as Hnp.
    rewrite (jpeg_is_picture _ Hj) in Hnp. discriminate. }
  rewrite Hf in Hf'. injection Hf' as <- <-.
  destruct (Hon Hllm) as (s & Hs & -> & ->).
  destruct Hout as [[[err Herr] _]|(dst & bytes & f3 & Hdep & Hb & Hmv)].
  { rewrite Hok in Herr. discriminate. }
  assert (hasTags (Some (normalizeTags s)) = true) as Ht.
  { pose proof (normalizeTags_not_nil s). cbn [hasTags].
    destruct (normalizeTags s); [contradiction|reflexivity]. }
  rewrite Hj, Ht in Hb. cbn [andb placedBytes tagList] in Hb.
  destruct Hb as (e' & eb & He & Hd & Hi).
  assert (fs (snd (processFileBody env f d cities st)) = f3) as ->.
  { destruct Hmv as [[-> _]|(dir & f4 & Hp & Htr & _)]; [reflexivity|].
    unfold keepsOriginals in Hkeep. rewrite Hp, Htr in Hkeep. discriminate. }
  exists s, e', eb, bytes, dst. auto.
Qed.

(** A path without a picture or video extension is looked at and nothing
    else: it is not read, no directory is created, nothing is copied. *)
Theorem unsupported_file_is_ignored (f d : string) (cities : list City)
    (st : State) :
  isPicture (JSString.toLowerCase f) = false ->
  isVideo (JSString.toLowerCase f) = false ->
  processFile env f d cities st
  = (Ok tt,
     after st
       (EvStat f
        :: match fs st !! f with
           | None => [EvLog (LogErr "Error:" (FsError "stat" f))]
           | Some _ => []
           end)).
Proof.
  intros Hp Hv. unfold processFile, tryCatch, processFileBody.
  rewrite bind_run, stat_run.
  destruct (fs st !! f) as [[mt data|]|]; cbv zeta; cbn [isFile].
  - rewrite Hp, Hv. reflexivity.
  - reflexivity.
  - rewrite log_run, after_after. reflexivity.
Qed.

End Outcome.

(** *** The events of one run, in order *)

Section Traces.

Context `{Platform}.
Variable env : Env.

Lemma processFile_run f d cities st :
  processFile env f d cities st
  = match processFileBody env f d cities st with
    | (Ok a, st') => (Ok a, st')
    | (Thrown e, st') => (Ok tt, after st' [EvLog (LogErr "Error:" e)])
    end.
Proof.
  unfold processFile, tryCatch.
  destruct (processFileBody env f d cities st) as [[a|e] st']; reflexivity.
Qed.

Lemma emits_movePart f :
  emits isMoveEvent
    (match processedDir (argv env) with
     | Some dir =>
         if JSString.truthy dir then
           let relfilepath := path_relative (sourceDir (argv env)) f in
           let processedFilePath := Path.join [dir; relfilepath] in
           log (LogMove f processedFilePath);;
           Fs.move f processedFilePath
         else mret tt
     | None => mret tt
     end).
Proof.
  destruct (processedDir (argv env)) as [dir|]; [|apply emits_ret].
  destruct (JSString.truthy dir); [|apply emits_ret].
  cbv zeta. apply emits_bind; [apply emits_emit; reflexivity|].
  intros _. apply emits_move. reflexivity.
Qed.

(** Directories survive the placement, unless the original is moved onto
    one of them. *)
Lemma placeOutcome_keeps_directories f mt data w e tags caption f0 r f' p :
  placeOutcome env f mt data w e tags caption f0 r f' ->
  f0 !! f = Some (File mt data) ->
  f0 !! p = Some Directory ->
  (forall pdir, processedDir (argv env) = Some pdir ->
                JSString.truthy pdir = true -> processedPath env pdir f <> p) ->
  f' !! p = Some Directory.
Proof.
  intros [[_ [Hsub _]]|(dst & bytes & f3 & (_ & _ & Hsub & _) & _ & Hmv)]
    Hf Hp Hnot.
  - eapply lookup_weaken; eassumption.
  - assert (f3 !! p = Some Directory) as Hp3
      by (eapply lookup_weaken; eassumption).
    destruct Hmv as [[-> _]|(pdir & f4 & Hpd & Ht & _ & _ & Hm & ->)];
      [exact Hp3|].
    rewrite lookup_insert_ne by (apply Hnot; assumption).
    rewrite lookup_delete_ne by (intros <-; congruence).
    eapply mkdirs_keeps_directory; eassumption.
Qed.

(** A copy that completes leaves the bytes of the original under the
    name it was given. *)
Lemma place_copy_bytes f dst jpeg tags caption data mt e st2 :
  fs st2 !! f = Some (File mt data) ->
  fs st2 !! dst = None ->
  (jpeg = true -> exd st2 = Some e) ->
  jpeg && hasTags tags = false ->
  fst (place env f dst jpeg tags caption (Some data) st2) = Ok tt ->
  exists t,
    fs (snd (place env f dst jpeg tags caption (Some data) st2)) !! dst
    = Some (File t data).
Proof.
  intros Hf Hdst Hexd Hw.
  assert (f <> dst) as Hne by (intros ->; congruence).
  assert (saveWithExif env f dst jpeg tags caption (Some data) st2
          = (Ok false, st2)) as Hsave.
  { unfold saveWithExif. rewrite bind_run, get_run.
    destruct jpeg; [|reflexivity]. rewrite (Hexd eq_refl).
    cbn [andb] in Hw. rewrite Hw. reflexivity. }
  assert (forall s,
            fs s !! f = Some (File mt data) ->
            fs s !! dst = Some (File (now env) data) ->
            fst ((match processedDir (argv env) with
                  | Some dir =>
                      if JSString.truthy dir then
                        let relfilepath :=
                          path_relative (sourceDir (argv env)) f in
                        let processedFilePath :=
                          Path.join [dir; relfilepath] in
                        log (LogMove f processedFilePath);;
                        Fs.move f processedFilePath
                      else mret tt
                  | None => mret tt
                  end) s) = Ok tt ->
            exists t,
              fs (snd ((match processedDir (argv env) with
                        | Some dir =>
                            if JSString.truthy dir then
                              let relfilepath :=
                                path_relative (sourceDir (argv env)) f in
                              let processedFilePath :=
                                Path.join [dir; relfilepath] in
                              log (LogMove f processedFilePath);;
                              Fs.move f processedFilePath
                            else mret tt
                        | None => mret tt
                        end) s)) !! dst = Some (File t data)) as Hmove.
  { intros s Hfs Hds.
    destruct (move_spec env f mt data s Hfs) as (r & st3 & Hrun & Hout).
    rewrite Hrun. cbn [fst snd]. intros ->.
    destruct Hout as [[-> _]|(pdir & f4 & _ & _ & _ & _ & Hm4 & ->)].
    - exists (now env). exact Hds.
    - destruct (decide (processedPath env pdir f = dst)) as [->|Hp].
      + exists mt. apply lookup_insert_eq.
      + exists (now env). rewrite lookup_insert_ne by exact Hp.
        rewrite lookup_delete_ne by exact Hne.
        apply (mkdirs_files _ _ _ Hm4). exact Hds. }
  unfold place. rewrite bind_run, Hsave. cbn [negb].
  rewrite !bind_run, log_run, copy_run.
  change (fs (after st2 _)) with (fs st2). rewrite Hf, Hdst.
  destruct (Fs.mkdirs (Path.ancestors dst) (fs st2)) as [fb|] eqn:Hm;
    [|discriminate].
  apply Hmove.
  - cbn [fs]. rewrite lookup_insert_ne by congruence.
    apply (mkdirs_files _ _ _ Hm). exact Hf.
  - apply lookup_insert_eq.
Qed.

(** [place], event by event. *)
Lemma place_events f dst jpeg tags caption data mt e st2 :
  fs st2 !! f = Some (File mt data) ->
  fs st2 !! dst = None ->
  (jpeg = true -> exd st2 = Some e) ->
  exists tail,
    trace (snd (place env f dst jpeg tags caption (Some data) st2))
    = (trace st2
       ++ depositEvents (jpeg && hasTags tags) e (tagList tags) caption data
            f dst
       ++ tail)%list
    /\ forallb isMoveEvent tail = true.
Proof.
  intros Hf Hdst Hexd.
  assert (forall s evs,
            trace s = (trace st2 ++ evs)%list ->
            exists tail,
              trace (snd ((match processedDir (argv env) with
                           | Some dir =>
                               if JSString.truthy dir then
                                 let relfilepath :=
                                   path_relative (sourceDir (argv env)) f in
                                 let processedFilePath :=
                                   Path.join [dir; relfilepath] in
                                 log (LogMove f processedFilePath);;
                                 Fs.move f processedFilePath
                               else mret tt
                           | None => mret tt
                           end) s))
              = (trace st2 ++ evs ++ tail)%list
              /\ forallb isMoveEvent tail = true) as Hmove.
  { intros s evs Hs. destruct (emits_movePart f s) as (tail & Ht & Hp).
    exists tail. split; [|exact Hp]. rewrite Ht, Hs, <- List.app_assoc.
    reflexivity. }
  assert (forall (r : Result unit) evs,
            exists tail,
              trace (snd (r, after st2 evs)) = (trace st2 ++ evs ++ tail)%list
              /\ forallb isMoveEvent tail = true) as Hstop.
  { intros r evs. exists []. rewrite List.app_nil_r. auto. }
  assert (jpeg && hasTags tags = false ->
          exists tail,
            trace (snd (((log (LogCopy f dst);; Fs.copy (now env) f dst);;
                         match processedDir (argv env) with
                         | Some dir =>
                             if JSString.truthy dir then
                               let relfilepath :=
                                 path_relative (sourceDir (argv env)) f in
                               let processedFilePath :=
                                 Path.join [dir; relfilepath] in
                               log (LogMove f processedFilePath);;
                               Fs.move f processedFilePath
                             else mret tt
                         | None => mret tt
                         end) st2))
            = (trace st2
               ++ depositEvents (jpeg && hasTags tags) e (tagList tags)
                    caption data f dst
               ++ tail)%list
            /\ forallb isMoveEvent tail = true) as Hcopy.
  { intros Hw. rewrite Hw. cbn [depositEvents].
    rewrite !bind_run, log_run, copy_run.
    change (fs (after st2 _)) with (fs st2). rewrite Hf, Hdst.
    destruct (Fs.mkdirs (Path.ancestors dst) (fs st2)) as [fb|] eqn:Hm.
    - apply Hmove. cbn [trace after]. rewrite <- List.app_assoc. reflexivity.
    - rewrite after_after. apply Hstop. }
  unfold place. rewrite bind_run. unfold saveWithExif.
  rewrite bind_run, get_run.
  destruct jpeg; [|rewrite ret_run; apply Hcopy; reflexivity].
  rewrite (Hexd eq_refl).
  destruct (hasTags tags) eqn:Ht; [|rewrite ret_run; apply Hcopy; reflexivity].
  cbn [andb depositEvents].
  rewrite bind_run. unfold liftResult.
  destruct (exifAddTags e (tagList tags) caption) as [e'|err] eqn:He.
  2: { exists []. cbn [List.app]. rewrite List.app_nil_r. split; reflexivity. }
  rewrite bind_run. cbn [setExd]. rewrite bind_run, log_run, bind_run.
  unfold exifSavePicture.
  destruct (piexif_dump e') as [eb|] eqn:Hd.
  2: { exists []. rewrite List.app_nil_r. split; reflexivity. }
  destruct (piexif_insert eb data) as [bytes|] eqn:Hi.
  2: { exists []. rewrite List.app_nil_r. split; reflexivity. }
  rewrite writeFileSync_run. cbn [fs after]. rewrite Hdst.
  destruct (Fs.parentIsDirectory dst (fs st2)).
  2: { exists []. rewrite List.app_nil_r. split; [|reflexivity].
       cbn [snd trace after]. rewrite <- List.app_assoc. reflexivity. }
  rewrite ret_run. cbn [negb]. rewrite bind_run, ret_run.
  apply Hmove. cbn [trace after]. rewrite <- List.app_assoc. reflexivity.
Qed.

(** [placement] of a picture, event by event. *)
Lemma placement_events_picture f d llm jpeg date loc tags caption data mt e st0 :
  fs st0 !! f = Some (File mt data) ->
  (jpeg = true -> exd st0 = Some e) ->
  (Fs.mkdirs (Path.ancestors (destinationDir d date loc)
              ++ [destinationDir d date loc])%list (fs st0) = None
   /\ placement env f d llm jpeg false date loc tags caption (Some data) st0
      = (Thrown (FsError "mkdir" (destinationDir d date loc)),
         after st0 [EvEnsureDir (destinationDir d date loc)]))
  \/ exists f1 n tail,
       Fs.mkdirs (Path.ancestors (destinationDir d date loc)
                  ++ [destinationDir d date loc])%list (fs st0) = Some f1
       /\ f1 !! attempt (destinationDir d date loc) f
                 (destinationFile (destinationDir d date loc) f llm tags) 1 n
          = None
       /\ trace (snd (placement env f d llm jpeg false date loc tags caption
                        (Some data) st0))
          = (trace st0
             ++ EvEnsureDir (destinationDir d date loc)
             :: loopEvents (destinationDir d date loc) f
                  (destinationFile (destinationDir d date loc) f llm tags) n
             ++ depositEvents (jpeg && hasTags tags) e (tagList tags) caption
                  data f
                  (attempt (destinationDir d date loc) f
                     (destinationFile (destinationDir d date loc) f llm tags)
                     1 n)
             ++ tail)%list
       /\ forallb isMoveEvent tail = true
       /\ (forall p,
             f1 !! p = Some Directory ->
             (forall pdir, processedDir (argv env) = Some pdir ->
                           JSString.truthy pdir = true ->
                           processedPath env pdir f <> p) ->
             fs (snd (placement env f d llm jpeg false date loc tags caption
                        (Some data) st0)) !! p = Some Directory)
       /\ (jpeg && hasTags tags = false ->
           fst (placement env f d llm jpeg false date loc tags caption
                  (Some data) st0) = Ok tt ->
           exists t,
             fs (snd (placement env f d llm jpeg false date loc tags caption
                        (Some data) st0))
               !! attempt (destinationDir d date loc) f
                    (destinationFile (destinationDir d date loc) f llm tags)
                    1 n
             = Some (File t data)).
Proof.
  intros Hf Hexd. unfold placement. cbv zeta.
  rewrite bind_run, ensureDir_run.
  destruct (Fs.mkdirs _ (fs st0)) as [f1|] eqn:Hm; [|left; auto].
  right. pose proof (mkdirs_dirsAdded _ _ _ Hm) as Hdirs.
  cbn [negb]. rewrite bind_run, get_run. cbn [fs].
  set (st1 := {| fs := f1; exd := exd st0;
                 trace := (trace st0 ++ [EvEnsureDir _])%list |}).
  rewrite bind_run.
  change (size f1) with (size (fs st1)).
  destruct (collisionLoop_first_free (destinationDir d date loc) f st1
              (destinationFile (destinationDir d date loc) f llm tags) 1)
    as (n & _ & Hfree & _ & ->).
  set (dst := attempt _ _ _ _ n) in *.
  match goal with
  | |- context [place env f dst jpeg tags caption (Some data) ?s] =>
      assert (fs s !! f = Some (File mt data)) as H1
        by (destruct Hdirs as [Hsub _]; eapply lookup_weaken; eassumption);
      assert (fs s !! dst = None) as H2 by exact Hfree;
      assert (jpeg = true -> exd s = Some e) as H3 by exact Hexd;
      destruct (place_events f dst jpeg tags caption data mt e s H1 H2 H3)
        as (tail & Ht & Hp);
      destruct (place_spec env f dst jpeg tags caption data mt e s H1 H2 H3)
        as (r & st3 & Hrun & Hout)
  end.
  exists f1, n, tail. split; [reflexivity|]. split; [exact Hfree|].
  split; [|split; [exact Hp|split]].
  - rewrite Ht. cbn [trace after st1]. unfold loopEvents.
    fold dst. rewrite <- !List.app_assoc. reflexivity.
  - intros p Hp1 Hnot. rewrite Hrun. cbn [snd].
    exact (placeOutcome_keeps_directories _ _ _ _ _ _ _ _ _ _ _
             Hout H1 Hp1 Hnot).
  - intros Hw Hok. fold dst.
    eapply place_copy_bytes; [exact H1|exact H2|exact H3|exact Hw|exact Hok].
Qed.

(** The events of [processFile]: it ends early, or it reaches the creation
    of the destination directory; then a video is skipped, and a picture is
    given a free name and deposited under it. *)
Lemma run_trace f d cities st :
  (stopsEarly env f (fs st)
   /\ forallb beforeDecision (eventsOf (processFile env f d cities) st) = true
   /\ fs (snd (processFile env f d cities st)) = fs st)
  \/ exists mt data evs0 date loc tags caption,
       fs st !! f = Some (File mt data)
       /\ forallb beforeDecision evs0 = true
       /\ (isJpegType (JSString.toLowerCase f) = true ->
             (forall s1,
                fst (extractDate f (JSDate.ofTime mt)
                       (ifdExif (loadExifData data)) s1) = Ok date)
             /\ (forall s2,
                   fst (extractLocation f cities
                          (ifdGPS (loadExifData data)) s2) = Ok loc))
       /\ (isJpegType (JSString.toLowerCase f) = false ->
             date = JSDate.ofTime mt /\ loc = None)
       /\ (processLlm env (JSString.toLowerCase f) = false ->
             tags = None /\ forallb notPost evs0 = true
             /\ forallb notTagsLog evs0 = true)
       /\ (processLlm env (JSString.toLowerCase f) = true ->
             exists s,
               answerOf (http env (apiUrl env) (keywordsRequest data))
               = VString s
               /\ tags = Some (normalizeTags s)
               /\ caption
                  = answerOf (http env (apiUrl env) (captionRequest data))
               /\ In (EvLog (LogTags (normalizeTags s))) evs0)
       /\ (isVideo (JSString.toLowerCase f) = true ->
             exists v, ffprobe env f = Some v)
       /\ (isVideo (JSString.toLowerCase f) = false ->
             isPicture (JSString.toLowerCase f) = true)
       /\ ((Fs.mkdirs (Path.ancestors (destinationDir d date loc)
                       ++ [destinationDir d date loc])%list (fs st) = None
            /\ eventsOf (processFile env f d cities) st
               = (evs0
                  ++ [EvEnsureDir (destinationDir d date loc);
                      EvLog (LogErr "Error:"
                               (FsError "mkdir" (destinationDir d date loc)))])%list
            /\ fs (snd (processFile env f d cities st)) = fs st)
           \/ (exists f1,
                 isVideo (JSString.toLowerCase f) = true
                 /\ Fs.mkdirs (Path.ancestors (destinationDir d date loc)
                               ++ [destinationDir d date loc])%list (fs st)
                    = Some f1
                 /\ eventsOf (processFile env f d cities) st
                    = (evs0
                       ++ [EvEnsureDir (destinationDir d date loc);
                           EvLog (LogSkip f)])%list
                 /\ fs (snd (processFile env f d cities st)) = f1)
           \/ (exists f1 n tail,
                 isVideo (JSString.toLowerCase f) = false
                 /\ isPicture (JSString.toLowerCase f) = true
                 /\ Fs.mkdirs (Path.ancestors (destinationDir d date loc)
                               ++ [destinationDir d date loc])%list (fs st)
                    = Some f1
                 /\ f1 !! attempt (destinationDir d date loc) f
                           (destinationFile (destinationDir d date loc) f
                              (processLlm env (JSString.toLowerCase f)) tags)
                           1 n
                    = None
                 /\ eventsOf (processFile env f d cities) st
                    = (evs0
                       ++ EvEnsureDir (destinationDir d date loc)
                       :: loopEvents (destinationDir d date loc) f
                            (destinationFile (destinationDir d date loc) f
                               (processLlm env (JSString.toLowerCase f)) tags)
                            n
                       ++ depositEvents
                            (isJpegType (JSString.toLowerCase f)
                             && hasTags tags)
                            (loadExifData data) (tagList tags) caption data f
                            (attempt (destinationDir d date loc) f
                               (destinationFile (destinationDir d date loc) f
                                  (processLlm env (JSString.toLowerCase f))
                                  tags) 1 n)
                       ++ tail)%list
                 /\ forallb afterDeposit tail = true
                 /\ (forall p,
                       f1 !! p = Some Directory ->
                       (forall pdir, processedDir (argv env) = Some pdir ->
                                     JSString.truthy pdir = true ->
                                     processedPath env pdir f <> p) ->
                       fs (snd (processFile env f d cities st)) !! p
                       = Some Directory)
                 /\ (isJpegType (JSString.toLowerCase f) && hasTags tags
                     = false ->
                     fst (processFileBody env f d cities st) = Ok tt ->
                     exists t,
                       fs (snd (processFile env f d cities st))
                         !! attempt (destinationDir d date loc) f
                              (destinationFile (destinationDir d date loc) f
                                 (processLlm env (JSString.toLowerCase f))
                                 tags) 1 n
                       = Some (File t data)))).
Proof.
  destruct (plan env f d cities st)
    as [(Hearly & F & (evs & T & B & _) & _)
       |(mt & data & st0 & evs0 & date & loc & tags & caption & Hf & F0 & T0
         & B0 & J & NJ & Hoff & Hon & Hpic & Hprobe & Hrun)].
  - left. split; [exact Hearly|]. rewrite processFile_run.
    destruct (processFileBody env f d cities st) as [[[]|err] st'] eqn:E;
      cbn [fst snd] in *.
    + split; [|exact F].
      erewrite eventsOf_after; [exact B| |exact T]. rewrite processFile_run, E.
      reflexivity.
    + split; [|exact F].
      erewrite eventsOf_after
        with (evs := (evs ++ [EvLog (LogErr "Error:" err)])%list).
      * rewrite forallb_app, B. reflexivity.
      * rewrite processFile_run, E. reflexivity.
      * cbn [trace after]. rewrite T, <- List.app_assoc. reflexivity.
  - right. exists mt, data, evs0, date, loc, tags, caption.
    split; [exact Hf|]. split; [exact B0|].
    split; [intros Hj; apply (J Hj)|]. split; [exact NJ|].
    split; [exact Hoff|]. split; [exact Hon|]. split; [exact Hprobe|].
    split; [exact Hpic|].
    rewrite <- F0.
    destruct (isVideo (JSString.toLowerCase f)) eqn:Hv.
    + (* a video *)
      unfold placement in Hrun. cbv zeta in Hrun.
      rewrite bind_run, ensureDir_run in Hrun.
      destruct (Fs.mkdirs _ (fs st0)) as [f1|] eqn:Hm.
      * right. left. exists f1. cbn [negb] in Hrun. rewrite log_run in Hrun.
        split; [reflexivity|]. split; [reflexivity|].
        rewrite processFile_run, Hrun. cbn [snd fs after]. split; [|reflexivity].
        eapply eventsOf_after; [rewrite processFile_run, Hrun; reflexivity|].
        cbn [trace after]. rewrite T0, <- !List.app_assoc. reflexivity.
      * left. split; [reflexivity|].
        rewrite processFile_run, Hrun. cbn [snd fs after]. split; [|reflexivity].
        eapply eventsOf_after; [rewrite processFile_run, Hrun; reflexivity|].
        cbn [trace after]. rewrite T0, <- !List.app_assoc. reflexivity.
    + (* a picture *)
      rewrite (Hpic eq_refl) in Hrun.
      destruct (placement_events_picture f d
                  (processLlm env (JSString.toLowerCase f))
                  (isJpegType (JSString.toLowerCase f))
                  date loc tags caption data mt (loadExifData data) st0)
        as [[Hm Hfail]|(f1 & n & tail & Hm & Hfree & Ht & Hp & Hkeep & Hbytes)].
      * rewrite F0. exact Hf.
      * intros Hj. apply (J Hj).
      * left. split; [exact Hm|].
        rewrite processFile_run, Hrun, Hfail. cbn [snd fs after].
        split; [|reflexivity].
        eapply eventsOf_after;
          [rewrite processFile_run, Hrun, Hfail; reflexivity|].
        cbn [trace after]. rewrite T0, <- !List.app_assoc. reflexivity.
      * right. right.
        rewrite <- Hrun in Ht, Hkeep, Hbytes.
        assert (fs (snd (processFile env f d cities st))
                = fs (snd (processFileBody env f d cities st))) as Hsame.
        { rewrite processFile_run.
          destruct (processFileBody env f d cities st) as [[[]|err] st'];
            reflexivity. }
        rewrite <- Hsame in Hkeep, Hbytes.
        destruct (processFileBody env f d cities st) as [[[]|err] st'] eqn:E;
          cbn [snd] in Ht.
        -- exists f1, n, tail.
           split; [reflexivity|]. split; [apply Hpic; reflexivity|].
           split; [exact Hm|]. split; [exact Hfree|].
           split; [|split; [|split; [exact Hkeep|exact Hbytes]]].
           ++ eapply eventsOf_after; [rewrite processFile_run, E; reflexivity|].
              rewrite Ht, T0, <- !List.app_assoc. reflexivity.
           ++ revert Hp. apply forallb_weaken. intros x Hx. unfold afterDeposit.
              rewrite Hx. reflexivity.
        -- exists f1, n, (tail ++ [EvLog (LogErr "Error:" err)])%list.
           split; [reflexivity|]. split; [apply Hpic; reflexivity|].
           split; [exact Hm|]. split; [exact Hfree|].
           split; [|split; [|split; [exact Hkeep|exact Hbytes]]].
           ++ eapply eventsOf_after; [rewrite processFile_run, E; reflexivity|].
              cbn [trace after]. rewrite Ht, T0, <- !List.app_assoc.
              cbn [List.app]. rewrite <- !List.app_assoc. reflexivity.
           ++ rewrite forallb_app. cbn [forallb afterDeposit isMoveEvent orb andb].
              rewrite andb_true_r. revert Hp. apply forallb_weaken.
              intros x Hx. unfold afterDeposit. rewrite Hx. reflexivity.
Qed.

End Traces.

(** *** The runs of [processFile], case by case *)

Lemma answerOf_string o s :
  answerOf o = VString s -> o = Resolved (Some (VString s)).
Proof.
  destruct o as [|[v|]]; simpl; intros E; try discriminate. congruence.
Qed.






Section Runs.

Context `{Platform}.
Variable env : Env.


(** The two outcomes of a run, in the words of the statements. *)
Lemma run_cases f d cities st :
  (stopsEarly env f (fs st)
   /\ forallb beforeDecision (eventsOf (processFile env f d cities) st) = true
   /\ fs (snd (processFile env f d cities st)) = fs st)
  \/ exists mt data date loc evs0,
       fs st !! f = Some (File mt data)
       /\ reachesPlacement env f (fs st)
       /\ resolved f cities mt data date loc
       /\ forallb beforeDecision evs0 = true
       /\ ((Fs.mkdirs (Path.ancestors (destinationDir d date loc)
                       ++ [destinationDir d date loc])%list (fs st) = None
            /\ eventsOf (processFile env f d cities) st
               = (evs0
                  ++ [EvEnsureDir (destinationDir d date loc);
                      EvLog (LogErr "Error:"
                               (FsError "mkdir" (destinationDir d date loc)))])%list
            /\ fs (snd (processFile env f d cities st)) = fs st)
           \/ (exists f1,
                 isVideo (JSString.toLowerCase f) = true
                 /\ Fs.mkdirs (Path.ancestors (destinationDir d date loc)
                               ++ [destinationDir d date loc])%list (fs st)
                    = Some f1
                 /\ eventsOf (processFile env f d cities) st
                    = (evs0
                       ++ [EvEnsureDir (destinationDir d date loc);
                           EvLog (LogSkip f)])%list
                 /\ fs (snd (processFile env f d cities st)) = f1)
           \/ (exists f1 n tail,
                 isVideo (JSString.toLowerCase f) = false
                 /\ isPicture (JSString.toLowerCase f) = true
                 /\ Fs.mkdirs (Path.ancestors (destinationDir d date loc)
                               ++ [destinationDir d date loc])%list (fs st)
                    = Some f1
                 /\ f1 !! attempt (destinationDir d date loc) f
                           (destinationFile (destinationDir d date loc) f
                              (processLlm env (JSString.toLowerCase f))
                              (enrichedTags env f data))
                           1 n
                    = None
                 /\ eventsOf (processFile env f d cities) st
                    = (evs0
                       ++ EvEnsureDir (destinationDir d date loc)
                       :: loopEvents (destinationDir d date loc) f
                            (destinationFile (destinationDir d date loc) f
                               (processLlm env (JSString.toLowerCase f))
                               (enrichedTags env f data))
                            n
                       ++ depositEvents
                            (isJpegType (JSString.toLowerCase f)
                             && processLlm env (JSString.toLowerCase f))
                            (loadExifData data)
                            (tagList (enrichedTags env f data))
                            (enrichedCaption env data) data f
                            (attempt (destinationDir d date loc) f
                               (destinationFile (destinationDir d date loc) f
                                  (processLlm env (JSString.toLowerCase f))
                                  (enrichedTags env f data)) 1 n)
                       ++ tail)%list
                 /\ forallb afterDeposit tail = true
                 /\ (forall p,
                       f1 !! p = Some Directory ->
                       (forall pdir, processedDir (argv env) = Some pdir ->
                                     JSString.truthy pdir = true ->
                                     processedPath env pdir f <> p) ->
                       fs (snd (processFile env f d cities st)) !! p
                       = Some Directory)
                 /\ (isJpegType (JSString.toLowerCase f)
                     && processLlm env (JSString.toLowerCase f) = false ->
                     fst (processFileBody env f d cities st) = Ok tt ->
                     exists t,
                       fs (snd (processFile env f d cities st))
                         !! attempt (destinationDir d date loc) f
                              (destinationFile (destinationDir d date loc) f
                                 (processLlm env (JSString.toLowerCase f))
                                 (enrichedTags env f data)) 1 n
                       = Some (File t data)))).
Proof.
  destruct (run_trace env f d cities st)
    as [Hearly
       |(mt & data & evs0 & date & loc & tags & caption & Hf & B0 & J & NJ
         & Hoff & Hon & Hprobe & Hpic & Hcases)];
    [left; exact Hearly|].
  right. exists mt, data, date, loc, evs0.
  split; [exact Hf|]. split.
  { exists mt, data. split; [exact Hf|]. split.
    - destruct (isVideo (JSString.toLowerCase f)) eqn:Hv;
        [apply orb_true_r|]. rewrite (Hpic eq_refl). reflexivity.
    - split; [exact Hprobe|]. intros Hl.
      destruct (Hon Hl) as (s & Hs & _). eauto. }
  split.
  { unfold resolved. destruct (isJpegType (JSString.toLowerCase f));
      [apply J|apply NJ]; reflexivity. }
  split; [exact B0|].
  assert (tags = enrichedTags env f data
          /\ isJpegType (JSString.toLowerCase f) && hasTags tags
             = isJpegType (JSString.toLowerCase f)
               && processLlm env (JSString.toLowerCase f)
          /\ forall w dst,
               depositEvents
                 (isJpegType (JSString.toLowerCase f)
                  && processLlm env (JSString.toLowerCase f))
                 w (tagList tags) caption data f dst
               = depositEvents
                   (isJpegType (JSString.toLowerCase f)
                    && processLlm env (JSString.toLowerCase f))
                   w (tagList tags) (enrichedCaption env data) data f dst)
    as (-> & Hw & Hdep).
  { unfold enrichedTags, enrichedCaption.
    destruct (processLlm env (JSString.toLowerCase f)) eqn:Hl.
    - destruct (Hon eq_refl) as (s & Hs & -> & -> & _). rewrite Hs.
      split; [reflexivity|]. split; [|reflexivity].
      f_equal. cbn [hasTags]. pose proof (normalizeTags_not_nil s) as Hn.
      destruct (normalizeTags s); [contradiction|reflexivity].
    - destruct (Hoff eq_refl) as (-> & _). split; [reflexivity|].
      split; [reflexivity|]. intros w dst. rewrite andb_false_r. reflexivity. }
  rewrite Hw in Hcases.
  destruct Hcases as [Hfail|[Hvideo|(f1 & n & tail & Hv & Hp & Hm & Hfree & E
                                     & T & Hkeep & Hbytes)]].
  - left. exact Hfail.
  - right. left. exact Hvideo.
  - right. right. exists f1, n, tail. rewrite Hdep in E. auto 10.
Qed.

End Runs.

(** *** What a run leaves behind *)

Section Verdicts.

Context `{Platform}.
Variable env : Env.

(** When the keyword request of the picture that is processed fails
    (rejected, timed out, or answered with anything but a string), a
    picture that is to be enriched is not placed: the run ends before the
    destination directory is created and the file system is left as it
    was.  Nothing is assumed of the answers to other pictures. *)
Theorem failed_keywords_request_is_fatal (f d : string) (cities : list City)
    (st : State) :
  processLlm env (JSString.toLowerCase f) = true ->
  (forall mt data s,
     fs st !! f = Some (File mt data) ->
     keywordsAnswer env data <> Resolved (Some (VString s))) ->
  forallb beforeDecision (eventsOf (processFile env f d cities) st) = true
  /\ fs (snd (processFile env f d cities st)) = fs st.
Proof.
  intros Hllm Hfail.
  destruct (run_cases env f d cities st)
    as [(_ & Hev & Hfs)
       |(mt & data & date & loc & evs0 & Hf & (mt' & data' & Hf' & _ & _ & Hans)
         & _)]; [auto|].
  exfalso. destruct (Hans Hllm) as [s Hs].
  apply answerOf_string in Hs. exact (Hfail mt' data' s Hf' Hs).
Qed.


(** C8, as the code has it.  A file whose lower-cased name ends in [.mp4],
    [.avi] or [.mov] is never written, copied, moved or renamed: every file
    of the file system is where it was, with the bytes it had, and no file
    is added.  The run does more than probe and log, and it does not always
    end on the [SKIP] line: it looks at the file and probes it; when the
    probe fails it ends on the logged error; when the probe answers it logs
    the answer, creates the directory of the modification time with
    [fs.ensureDir], and only then logs [SKIP], leaving the directory and its
    missing ancestors behind; when the directory cannot be created it ends
    on that error. *)
Theorem video_never_placed (f d : string) (cities : list City) (st : State) :
  isVideo (JSString.toLowerCase f) = true ->
  (forall p mt data,
     fs (snd (processFile env f d cities st)) !! p = Some (File mt data)
     <-> fs st !! p = Some (File mt data))
  /\ fs st ⊆ fs (snd (processFile env f d cities st))
  /\ forallb notDeposit (eventsOf (processFile env f d cities) st) = true
  /\ existsb isMoveEvent (eventsOf (processFile env f d cities) st) = false
  /\ match fs st !! f with
     | None =>
         eventsOf (processFile env f d cities) st
         = [EvStat f; EvLog (LogErr "Error:" (FsError "stat" f))]
         /\ fs (snd (processFile env f d cities st)) = fs st
     | Some Directory =>
         eventsOf (processFile env f d cities) st = [EvStat f]
         /\ fs (snd (processFile env f d cities st)) = fs st
     | Some (File mt _) =>
         match ffprobe env f with
         | None =>
             eventsOf (processFile env f d cities) st
             = [EvStat f; EvProbe f; EvLog (LogErr "Error:" (ProbeError f))]
             /\ fs (snd (processFile env f d cities st)) = fs st
         | Some v =>
             match Fs.mkdirs
                     (Path.ancestors (destinationDir d (JSDate.ofTime mt) None)
                      ++ [destinationDir d (JSDate.ofTime mt) None])%list
                     (fs st) with
             | None =>
                 eventsOf (processFile env f d cities) st
                 = [EvStat f; EvProbe f; EvLog (LogVideo v);
                    EvEnsureDir (destinationDir d (JSDate.ofTime mt) None);
                    EvLog (LogErr "Error:"
                             (FsError "mkdir"
                                (destinationDir d (JSDate.ofTime mt) None)))]
                 /\ fs (snd (processFile env f d cities st)) = fs st
             | Some f1 =>
                 eventsOf (processFile env f d cities) st
                 = [EvStat f; EvProbe f; EvLog (LogVideo v);
                    EvEnsureDir (destinationDir d (JSDate.ofTime mt) None);
                    EvLog (LogSkip f)]
                 /\ fs (snd (processFile env f d cities st)) = f1
                 /\ f1 !! destinationDir d (JSDate.ofTime mt) None
                    = Some Directory
             end
         end
     end.
Proof.
  intros Hv. pose proof (processFile_video env f d cities st Hv) as Hrun.
  destruct (fs st !! f) as [[mt data|]|] eqn:Hf;
    [destruct (ffprobe env f) as [v|] eqn:Hp;
     [cbv zeta in Hrun;
      destruct (Fs.mkdirs _ (fs st)) as [f1|] eqn:Hm|]| |];
    pose proof (eventsOf_after _ _ _ _ _ Hrun eq_refl) as E;
    rewrite E, Hrun; cbn [snd fs after].
  - split; [intros p mt' data'; eapply mkdirs_files, Hm|].
    split; [eapply mkdirs_dirsAdded, Hm|].
    split; [reflexivity|]. split; [reflexivity|].
    split; [reflexivity|]. split; [reflexivity|]. eapply mkdirs_last, Hm.
  - repeat split; auto.
  - repeat split; auto.
  - repeat split; auto.
  - repeat split; auto.
Qed.






End Verdicts.

(** ** Worked runs *)

Import Example Scenario.

(** A file with nothing but its modification time, enrichment off: it is
    copied under the date of the modification time. *)
Example run_mtime_only :
  events quiet "src/plain.jpg" [("src/plain.jpg", picture 0)]
  = [EvStat "src/plain.jpg"; EvReadFile "src/plain.jpg";
     EvEnsureDir "dest/2024/03/02";
     EvPathExists "dest/2024/03/02/plain.jpg" false;
     EvLog (LogCopy "src/plain.jpg" "dest/2024/03/02/plain.jpg");
     EvCopy "src/plain.jpg" "dest/2024/03/02/plain.jpg"].
Proof. vm_compute. reflexivity. Qed.

(** An original date and coordinates in Paris. *)
Example run_paris :
  exists latitude longitude nearest,
    events quiet "src/a.jpg" [("src/a.jpg", picture 1)]
    = [EvStat "src/a.jpg"; EvReadFile "src/a.jpg";
       EvLog (LogCity latitude longitude (Some nearest));
       EvEnsureDir "dest/2023/12/25-Paris-FR";
       EvPathExists "dest/2023/12/25-Paris-FR/a.jpg" false;
       EvLog (LogCopy "src/a.jpg" "dest/2023/12/25-Paris-FR/a.jpg");
       EvCopy "src/a.jpg" "dest/2023/12/25-Paris-FR/a.jpg"].
Proof. do 3 eexists. vm_compute. reflexivity. Qed.

(** The second and the third file with the same name. *)
Example run_numbered_names :
  In (EvCopy "src/IMG_1.jpg" "dest/2024/03/02/IMG_1_1.jpg")
    (events quiet "src/IMG_1.jpg"
       [("src/IMG_1.jpg", picture 0);
        ("dest/2024/03/02/IMG_1.jpg", picture 0)])
  /\ In (EvCopy "src/IMG_1.jpg" "dest/2024/03/02/IMG_1_2.jpg")
       (events quiet "src/IMG_1.jpg"
          [("src/IMG_1.jpg", picture 0);
           ("dest/2024/03/02/IMG_1.jpg", picture 0);
           ("dest/2024/03/02/IMG_1_1.jpg", picture 0)]).
Proof. split; vm_compute; auto 10. Qed.

(** Two records at the same distance: the first one wins; a record whose
    latitude does not parse is never chosen. *)
Example run_nearest_tie :
  findNearestCity [nowhere; north; east] 0 0 = Some north
  /\ findNearestCity [nowhere; east; north] 0 0 = Some east
  /\ findNearestCity [nowhere] 0 0 = None
  /\ findNearestCity [] 0 0 = None.
Proof. vm_compute. repeat split; reflexivity. Qed.

(** C1, at a failing input: the keyword request is rejected.  The file is
    not placed and the run ends on the TypeError of line 386. *)
Theorem rejected_keywords_request_fails_the_file :
  events keywordsRejected "src/plain.jpg" [("src/plain.jpg", picture 0)]
  = [EvStat "src/plain.jpg"; EvReadFile "src/plain.jpg";
     EvPost "http://localhost:11434/api/generate"
       (keywordsRequest [0; 7; 7]);
     EvLog LogAxios;
     EvLog (LogErr "Error:" (TypeError "response is undefined"));
     EvPost "http://localhost:11434/api/generate"
       {| model := "llava"; prompt := captionPrompt;
          images := [base64 [0; 7; 7]]; stream := false |};
     EvLog (LogErr "Error:"
              (TypeError "analyze_results.tags.toLowerCase is not a function"))]
  /\ existsb isDecision
       (events keywordsRejected "src/plain.jpg" [("src/plain.jpg", picture 0)])
     = false
  /\ outcome keywordsRejected "src/plain.jpg" [("src/plain.jpg", picture 0)]
     = list_to_map [("src/plain.jpg", picture 0)].
Proof. vm_compute. repeat split; reflexivity. Qed.

(** C2, at a failing input: the computed name carries the tag and is
    taken.  The name tried next is built from the source name and has lost
    the tag. *)
Theorem tagged_collision_drops_tags :
  destinationFile "dest/2024/03/02" "src/IMG.jpg" true (Some ["beach"])
  = "dest/2024/03/02/IMG-beach.jpg"
  /\ In (EvPathExists "dest/2024/03/02/IMG-beach.jpg" true)
       (events oneKeyword "src/IMG.jpg" taggedTaken)
  /\ In (EvPathExists "dest/2024/03/02/IMG_1.jpg" false)
       (events oneKeyword "src/IMG.jpg" taggedTaken)
  /\ In (EvLog (LogCopyExif "src/IMG.jpg" "dest/2024/03/02/IMG_1.jpg"))
       (events oneKeyword "src/IMG.jpg" taggedTaken)
  /\ outcome oneKeyword "src/IMG.jpg" taggedTaken
       !! "dest/2024/03/02/IMG-beach_1.jpg" = None
  /\ is_Some (outcome oneKeyword "src/IMG.jpg" taggedTaken
                !! "dest/2024/03/02/IMG_1.jpg").
Proof. vm_compute. repeat split; eauto 20. Qed.

(** C3, at a failing input: a digitized field without a space and a
    well-formed original field.  The original date, 2023-12-25, is not used;
    the file goes under the modification time. *)
Theorem malformed_digitized_discards_original :
  parseExifDateTime (EString "2023:12:25 08:00:00") = Ok (Some 1703491200000)
  /\ In (EvCopy "src/d.jpg" "dest/2024/03/02/d.jpg")
       (events quiet "src/d.jpg" [("src/d.jpg", picture 4)])
  /\ In (EvCopy "src/d.jpg" "dest/2023/12/25/d.jpg")
       (events quiet "src/d.jpg" [("src/d.jpg", picture 3)]).
Proof. vm_compute. repeat split; auto 20. Qed.

(** A field with the wrong separators does not throw: it parses to an
    Invalid Date, which replaces the date resolved so far. *)
Example run_invalid_date :
  parseExifDateTime (EString "2023-12-25 08:00:00") = Ok None
  /\ In (EvCopy "src/d.jpg" "dest/NaN/NaN/NaN/d.jpg")
       (events quiet "src/d.jpg" [("src/d.jpg", picture 6)]).
Proof. vm_compute. split; auto 20. Qed.


(** A JPEG with a tag list goes through the writer and is not copied. *)
Example run_writer :
  In (EvLog (LogCopyExif "src/plain.jpg"
               "dest/2024/03/02/plain-beach-family-sunset.jpg"))
    (events tagging "src/plain.jpg" [("src/plain.jpg", picture 0)])
  /\ existsb isCopyCall
       (events tagging "src/plain.jpg" [("src/plain.jpg", picture 0)]) = false.
Proof. vm_compute. split; auto 20. Qed.

(** An empty part of the keyword response stays in the tag list. *)
Lemma empty_tag_is_kept :
  normalizeTags "Beach,,Sunset" = [""; "beach"; "sunset"]
  /\ normalizeTags "" = [""]
  /\ ~ (forall response, ~ In "" (normalizeTags response)).
Proof.
  split; [reflexivity|]. split; [reflexivity|].
  intros Hdrop. apply (Hdrop ""). left. reflexivity.
Qed.


(** An upper-case extension is a video extension too. *)
Lemma video_never_placed_witness :
  isVideo (JSString.toLowerCase "src/clip.MP4") = true
  /\ forallb notDeposit (events tagging "src/clip.MP4"
                           [("src/clip.MP4", picture 0)]) = true
  /\ existsb isMoveEvent (events tagging "src/clip.MP4"
                            [("src/clip.MP4", picture 0)]) = false.
Proof.
  split; [reflexivity|].
  destruct (video_never_placed tagging "src/clip.MP4" "dest" cities
              (start [("src/clip.MP4", picture 0)]) eq_refl)
    as (_ & _ & Hd & Hm & _).
  exact (conj Hd Hm).
Defined.

(** A video does not only get probed and logged: the run creates its dated
    directory before it logs [SKIP]; and a video whose probe fails is not
    logged as skipped at all. *)
Lemma skipped_video_leaves_directories :
  (isVideo (JSString.toLowerCase "src/clip.mp4") = true
   /\ events tagging "src/clip.mp4" [("src/clip.mp4", picture 0)]
      = [EvStat "src/clip.mp4"; EvProbe "src/clip.mp4";
         EvLog (LogVideo "format=mp4"); EvEnsureDir "dest/2024/03/02";
         EvLog (LogSkip "src/clip.mp4")]
   /\ fs (start [("src/clip.mp4", picture 0)]) !! "dest/2024/03/02" = None
   /\ outcome tagging "src/clip.mp4" [("src/clip.mp4", picture 0)]
        !! "dest/2024/03/02" = Some Directory)
  /\ (isVideo (JSString.toLowerCase "src/broken.mp4") = true
      /\ events tagging "src/broken.mp4" [("src/broken.mp4", picture 0)]
         = [EvStat "src/broken.mp4"; EvProbe "src/broken.mp4";
            EvLog (LogErr "Error:" (ProbeError "src/broken.mp4"))]).
Proof. vm_compute. repeat split; reflexivity. Qed.


(** A skipped video leaves its dated directory behind, and nothing else. *)
Example run_video :
  events tagging "src/clip.mp4" [("src/clip.mp4", picture 0)]
  = [EvStat "src/clip.mp4"; EvProbe "src/clip.mp4";
     EvLog (LogVideo "format=mp4"); EvEnsureDir "dest/2024/03/02";
     EvLog (LogSkip "src/clip.mp4")]
  /\ outcome tagging "src/clip.mp4" [("src/clip.mp4", picture 0)]
     = list_to_map [("src/clip.mp4", picture 0); ("dest", Directory);
                    ("dest/2024", Directory); ("dest/2024/03", Directory);
                    ("dest/2024/03/02", Directory)].
Proof. vm_compute. split; reflexivity. Qed.

(** The third file named [IMG_1.jpg] on the same day. *)
Lemma collisionLoop_next_suffix_witness :
  fst (collisionLoop (S (S (size (fs twoTaken)))) "dest/2024/03/02"
         "src/IMG_1.jpg" "dest/2024/03/02/IMG_1.jpg" 1 twoTaken)
  = Ok "dest/2024/03/02/IMG_1_2.jpg".
Proof.
  refine (collisionLoop_next_suffix "dest/2024/03/02" "src/IMG_1.jpg" twoTaken
            "dest/2024/03/02/IMG_1.jpg" 2 _ _ _ _).
  - lia.
  - vm_compute. eauto.
  - intros k Hk. assert (k = 1%nat) as -> by lia. vm_compute. eauto.
  - vm_compute. reflexivity.
Defined.

(** An endpoint that rejects the keyword request of one picture only:
    that picture is not placed. *)
Lemma failed_keywords_request_is_fatal_witness :
  keywordsAnswer (keywordsRejectedFor [0; 7; 7]) [0; 7; 7; 7]
  = answered "Beach"
  /\ forallb beforeDecision
       (eventsOf (processFile (keywordsRejectedFor [0; 7; 7]) "src/plain.jpg"
                    "dest" cities)
          (start [("src/plain.jpg", picture 0)])) = true
  /\ fs (snd (processFile (keywordsRejectedFor [0; 7; 7]) "src/plain.jpg"
                "dest" cities (start [("src/plain.jpg", picture 0)])))
     = fs (start [("src/plain.jpg", picture 0)]).
Proof.
  split; [reflexivity|].
  refine (failed_keywords_request_is_fatal (keywordsRejectedFor [0; 7; 7])
            "src/plain.jpg" "dest" cities
            (start [("src/plain.jpg", picture 0)]) _ _).
  - reflexivity.
  - intros mt data s Hf. vm_compute in Hf. injection Hf as <- <-.
    vm_compute. discriminate.
Defined.

(** The EXIF block 4: a digitized field without a space next to an
    original field of 2023-12-25. *)
Lemma throwing_digitized_hides_original_witness :
  ifdExif (loadExifData [4; 7; 7]) !! Tag.DateTimeOriginal
  = Some (EString "2023:12:25 08:00:00")
  /\ fst (extractDate "src/d.jpg" (JSDate.ofTime mtime0)
            (ifdExif (loadExifData [4; 7; 7]))
            (start [("src/d.jpg", picture 4)]))
     = Ok (JSDate.ofTime mtime0).
Proof.
  split; [vm_compute; reflexivity|].
  refine (throwing_digitized_hides_original "src/d.jpg" (JSDate.ofTime mtime0)
            (ifdExif (loadExifData [4; 7; 7]))
            (start [("src/d.jpg", picture 4)]) "garbage" _ _ _).
  - vm_compute. reflexivity.
  - discriminate.
  - reflexivity.
Defined.

(** The example run of Paris, with and without a forced location. *)
Lemma setGps_has_no_effect_witness :
  sameButSetGps (withSetGps (Some "48.85,2.35") tagging) tagging
  /\ processFile (withSetGps (Some "48.85,2.35") tagging) "src/a.jpg" "dest"
       cities (start [("src/a.jpg", picture 1)])
     = processFile tagging "src/a.jpg" "dest" cities
         (start [("src/a.jpg", picture 1)]).
Proof.
  assert (sameButSetGps (withSetGps (Some "48.85,2.35") tagging) tagging)
    as Hsame by (repeat split).
  exact (conj Hsame
           (setGps_has_no_effect (withSetGps (Some "48.85,2.35") tagging)
              tagging "src/a.jpg" "dest" cities
              (start [("src/a.jpg", picture 1)]) Hsame)).
Defined.

(** A picture placed without a directory for processed originals. *)
Lemma processFile_only_adds_witness :
  keepsOriginals quiet
  /\ fs (start [("src/plain.jpg", picture 0)])
     ⊆ fs (snd (processFile quiet "src/plain.jpg" "dest" cities
                  (start [("src/plain.jpg", picture 0)]))).
Proof.
  assert (keepsOriginals quiet) as Hkeep by exact I.
  exact (conj Hkeep
           (processFile_only_adds quiet "src/plain.jpg" "dest" cities
              (start [("src/plain.jpg", picture 0)]) Hkeep)).
Defined.

(** A picture whose original is moved to [done]. *)
Lemma original_is_never_lost_witness :
  fs (snd (processFile moving "src/plain.jpg" "dest" cities
             (start [("src/plain.jpg", picture 0)]))) !! "src/plain.jpg"
  = Some (picture 0)
  \/ exists dir,
       processedDir (argv moving) = Some dir
       /\ fs (snd (processFile moving "src/plain.jpg" "dest" cities
                     (start [("src/plain.jpg", picture 0)])))
            !! "src/plain.jpg" = None
       /\ fs (snd (processFile moving "src/plain.jpg" "dest" cities
                     (start [("src/plain.jpg", picture 0)])))
            !! processedPath moving dir "src/plain.jpg"
          = Some (picture 0).
Proof.
  refine (original_is_never_lost moving "src/plain.jpg" "dest" cities
            (start [("src/plain.jpg", picture 0)]) (picture 0) _).
  vm_compute. reflexivity.
Defined.

Lemma processed_original_is_moved_witness :
  processedPath moving "done" "src/plain.jpg" = "done/plain.jpg"
  /\ fs (snd (processFile moving "src/plain.jpg" "dest" cities
                (start [("src/plain.jpg", picture 0)]))) !! "src/plain.jpg"
     = None
  /\ fs (snd (processFile moving "src/plain.jpg" "dest" cities
                (start [("src/plain.jpg", picture 0)])))
       !! processedPath moving "done" "src/plain.jpg"
     = Some (File mtime0 [0; 7; 7]).
Proof.
  split; [reflexivity|].
  refine (processed_original_is_moved moving "src/plain.jpg" "dest" cities
            (start [("src/plain.jpg", picture 0)]) "done" mtime0 [0; 7; 7]
            _ _ _ _ _).
  - reflexivity.
  - reflexivity.
  - reflexivity.
  - vm_compute. reflexivity.
  - vm_compute. reflexivity.
Defined.

(** A PNG with tags is copied byte for byte. *)
Lemma plain_copy_is_byte_identical_witness :
  exists dst,
    deposited (now tagging) dst [9; 7; 7]
      (fs (start [("src/pic.png", picture 9)]))
      (fs (snd (processFile tagging "src/pic.png" "dest" cities
                  (start [("src/pic.png", picture 9)])))).
Proof.
  refine (plain_copy_is_byte_identical tagging "src/pic.png" "dest" cities
            (start [("src/pic.png", picture 9)]) mtime0 [9; 7; 7] _ _ _ _ _).
  - exact I.
  - reflexivity.
  - reflexivity.
  - vm_compute. reflexivity.
  - vm_compute. reflexivity.
Defined.

(** The JPEG of the specification's example, enriched. *)
Lemma tagged_jpeg_is_the_original_with_tags_witness :
  exists response e' exifBytes bytes dst,
    answerOf (http tagging (apiUrl tagging) (keywordsRequest [0; 7; 7]))
    = VString response
    /\ exifAddTags (loadExifData [0; 7; 7]) (normalizeTags response)
         (answerOf (http tagging (apiUrl tagging) (captionRequest [0; 7; 7])))
       = Ok e'
    /\ piexif_dump e' = Some exifBytes
    /\ piexif_insert exifBytes [0; 7; 7] = Some bytes
    /\ deposited (now tagging) dst bytes
         (fs (start [("src/plain.jpg", picture 0)]))
         (fs (snd (processFile tagging "src/plain.jpg" "dest" cities
                     (start [("src/plain.jpg", picture 0)])))).
Proof.
  refine (tagged_jpeg_is_the_original_with_tags tagging "src/plain.jpg" "dest"
            cities (start [("src/plain.jpg", picture 0)]) mtime0 [0; 7; 7]
            _ _ _ _ _).
  - exact I.
  - reflexivity.
  - reflexivity.
  - vm_compute. reflexivity.
  - vm_compute. reflexivity.
Defined.

(** A text file in the source tree. *)
Lemma unsupported_file_is_ignored_witness :
  eventsOf (processFile quiet "src/notes.txt" "dest" cities)
    (start [("src/notes.txt", picture 0)])
  = [EvStat "src/notes.txt"]
  /\ fs (snd (processFile quiet "src/notes.txt" "dest" cities
                (start [("src/notes.txt", picture 0)])))
     = fs (start [("src/notes.txt", picture 0)]).
Proof.
  pose proof (unsupported_file_is_ignored quiet "src/notes.txt" "dest" cities
                (start [("src/notes.txt", picture 0)]) eq_refl eq_refl) as Hrun.
  split.
  - eapply eventsOf_after; [exact Hrun|]. vm_compute. reflexivity.
  - rewrite Hrun. reflexivity.
Defined.
